(** * Kinematic core of tf_robot_learning: frames, twists, chains

    A shallow embedding of [kinematic/frame.py] and [kinematic/chain.py].
    Tensors are nested lists tagged with their rank, scalars are the
    elements of a commutative ring (the reals of the mathematical reading;
    the integers when a statement is evaluated), and every Python or
    TensorFlow failure is a value [Raise e] of the [result] type. *)

From Stdlib Require Import String ZArith Lia Bool Ring List.
Import ListNotations.


(** ** Scalars *)

(** The entries of a tensor.  [kdiv] is TensorFlow's [truediv]: a total
    operation, no law is assumed about it. *)
Class Scalars : Type := {
  K : Type;
  k0 : K;
  k1 : K;
  kadd : K -> K -> K;
  kmul : K -> K -> K;
  ksub : K -> K -> K;
  kopp : K -> K;
  kdiv : K -> K -> K
}.

(** The ring laws, assumed only by the algebraic theorems. *)
Class ScalarRing (S : Scalars) : Prop :=
  scalar_ring : ring_theory k0 k1 kadd kmul ksub kopp (@eq K).

#[export] Instance Z_scalars : Scalars :=
  {| K := Z; k0 := 0%Z; k1 := 1%Z; kadd := Z.add; kmul := Z.mul;
     ksub := Z.sub; kopp := Z.opp; kdiv := Z.div |}.

#[export] Instance Z_scalar_ring : ScalarRing Z_scalars := Zth.

(** ** Exceptions and results *)

Inductive exn : Type :=
| NotImplementedError
| IndexError
| ValueError        (* also TensorFlow's static shape errors *)
| TypeError
| AttributeError
| KeyError
| UnboundLocalError.

Inductive result (A : Type) : Type :=
| Ok (a : A)
| Raise (e : exn).

Arguments Ok {A} a.
Arguments Raise {A} e.

Definition bind {A B} (r : result A) (f : A -> result B) : result B :=
  match r with
  | Ok a => f a
  | Raise e => Raise e
  end.

Declare Scope result_scope.
Delimit Scope result_scope with result.
Notation "x <- r ;; k" := (bind r (fun x => k))
  (at level 61, r at next level, right associativity) : result_scope.
Notation "' pat <- r ;; k" := (bind r (fun x => match x with pat => k end))
  (at level 61, pat pattern, r at next level, right associativity) : result_scope.
Open Scope result_scope.

Definition is_ok {A} (r : result A) : bool :=
  match r with Ok _ => true | Raise _ => false end.

Fixpoint mapM {A B} (f : A -> result B) (l : list A) : result (list B) :=
  match l with
  | [] => Ok []
  | a :: l' => b <- f a ;; bs <- mapM f l' ;; Ok (b :: bs)
  end.

(** Pointwise combination of two lists of the same length. *)
Fixpoint zipM {A B C} (f : A -> B -> result C) (la : list A) (lb : list B)
  : result (list C) :=
  match la, lb with
  | [], [] => Ok []
  | a :: la', b :: lb' => c <- f a b ;; cs <- zipM f la' lb' ;; Ok (c :: cs)
  | _, _ => Raise ValueError
  end.

(** One axis of NumPy-style broadcasting: equal extents are combined
    pointwise, an extent of 1 is repeated, anything else is a shape error. *)
Definition bcast {A B C} (f : A -> B -> result C) (la : list A) (lb : list B)
  : result (list C) :=
  if Nat.eqb (length la) (length lb) then zipM f la lb
  else match la, lb with
       | [a], _ => mapM (f a) lb
       | _, [b] => mapM (fun a => f a b) la
       | _, _ => Raise ValueError
       end.

(** Python's [l[i]] on a list, for [i >= 0]. *)
Definition py_index {A} (l : list A) (i : nat) : result A :=
  match nth_error l i with
  | Some a => Ok a
  | None => Raise IndexError
  end.

(** Python's [l[-1]]. *)
Definition py_last {A} (l : list A) : result A :=
  match rev l with
  | a :: _ => Ok a
  | [] => Raise IndexError
  end.

(** Python's [l[i] = v]. *)
Fixpoint py_setitem {A} (l : list A) (i : nat) (v : A) : result (list A) :=
  match l, i with
  | [], _ => Raise IndexError
  | _ :: l', 0 => Ok (v :: l')
  | a :: l', S i' => r <- py_setitem l' i' v ;; Ok (a :: r)
  end.

(** Python's [d[k]] on a dictionary, kept as the list of its items in
    insertion order. *)
Fixpoint dict_get {A} (d : list (string * A)) (k : string) : result A :=
  match d with
  | [] => Raise KeyError
  | (k', v) :: d' => if String.eqb k' k then Ok v else dict_get d' k
  end.

(** A loop whose body may raise. *)
Fixpoint foldM {A B} (body : A -> B -> result A) (l : list B) (a : A) : result A :=
  match l with
  | [] => Ok a
  | b :: l' => a' <- body a b ;; foldM body l' a'
  end.

(** Python's [l.index(x)]: position of the first occurrence. *)
Fixpoint list_index (x : string) (l : list string) : result nat :=
  match l with
  | [] => Raise ValueError
  | y :: l' => if String.eqb y x then Ok 0
               else i <- list_index x l' ;; Ok (S i)
  end.

(** Python's [x in l]. *)
Definition py_in (x : string) (l : list string) : bool :=
  existsb (String.eqb x) l.

(** ** Tensors *)

Module Tensor.
Section Defs.
Context {SC : Scalars}.

(** A [tf.Tensor] of rank at most 3, as nested lists in row-major order.
    The constructor is the rank ([shape.ndims]).  A tensor with an empty
    axis does not record the extents of the axes inside it. *)
Inductive t : Type :=
| T0 (x : K)
| T1 (v : list K)
| T2 (a : list (list K))
| T3 (b : list (list (list K))).

Definition ndims (x : t) : nat :=
  match x with T0 _ => 0 | T1 _ => 1 | T2 _ => 2 | T3 _ => 3 end.

(** All extents agree along every axis. *)
Definition rect2 (a : list (list K)) : bool :=
  forallb (fun r => Nat.eqb (length r) (length (hd [] a))) a.

Definition rect3 (b : list (list (list K))) : bool :=
  forallb rect2 b &&
  forallb (fun a => Nat.eqb (length a) (length (hd [] b))) b &&
  forallb (fun a => forallb (fun r => Nat.eqb (length r) (length (hd [] (hd [] b)))) a) b.

(** [x.shape], read off the first entry along each axis. *)
Definition shape (x : t) : list nat :=
  match x with
  | T0 _ => []
  | T1 v => [length v]
  | T2 a => [length a; length (hd [] a)]
  | T3 b => [length b; length (hd [] b); length (hd [] (hd [] b))]
  end.

(** *** Constructors *)

Definition zeros (n : nat) : t := T1 (repeat k0 n).
Definition zeros2 (n c : nat) : t := T2 (repeat (repeat k0 c) n).
Definition ones2 (n c : nat) : t := T2 (repeat (repeat k1 c) n).

Definition eye3 : list (list K) :=
  [[k1; k0; k0]; [k0; k1; k0]; [k0; k0; k1]].

(** [tf.eye(3)] and [tf.eye(3, batch_shape=(n,))]. *)
Definition eye : t := T2 eye3.
Definition eye_batch (n : nat) : t := T3 (repeat eye3 n).

(** *** Elementwise operations *)

Definition map (f : K -> K) (x : t) : t :=
  match x with
  | T0 a => T0 (f a)
  | T1 v => T1 (List.map f v)
  | T2 a => T2 (List.map (List.map f) a)
  | T3 b => T3 (List.map (List.map (List.map f)) b)
  end.

Definition zeros_like : t -> t := map (fun _ => k0).
Definition neg : t -> t := map kopp.

(** [x + c], [x / c] for a Python number [c]. *)
Definition add_scalar (x : t) (c : K) : t := map (fun a => kadd a c) x.
Definition div_scalar (x : t) (c : K) : t := map (fun a => kdiv a c) x.

(** A tensor seen at rank 3, with leading axes of extent 1. *)
Definition up3 (x : t) : list (list (list K)) :=
  match x with
  | T0 a => [[[a]]]
  | T1 v => [[v]]
  | T2 a => [a]
  | T3 b => b
  end.

(** The inverse of [up3] at rank [r]. *)
Definition down (r : nat) (b : list (list (list K))) : t :=
  match r with
  | 0 => T0 (hd k0 (hd [] (hd [] b)))
  | 1 => T1 (hd [] (hd [] b))
  | 2 => T2 (hd [] b)
  | _ => T3 b
  end.

Definition bc1 (f : K -> K -> K) : list K -> list K -> result (list K) :=
  bcast (fun a b => Ok (f a b)).
Definition bc2 (f : K -> K -> K) := bcast (bc1 f).
Definition bc3 (f : K -> K -> K) := bcast (bc2 f).

(** A binary elementwise operator with broadcasting: the shapes are
    aligned on their last axes. *)
Definition binop (f : K -> K -> K) (x y : t) : result t :=
  b <- bc3 f (up3 x) (up3 y) ;;
  Ok (down (Nat.max (ndims x) (ndims y)) b).

Definition add := binop kadd.
Definition sub := binop ksub.
Definition mul := binop kmul.

(** *** Indexing and slicing *)

(** [x[i]] on a tensor. *)
Definition get0 (x : t) (i : nat) : result t :=
  match x with
  | T0 _ => Raise ValueError
  | T1 v => match nth_error v i with Some a => Ok (T0 a) | None => Raise ValueError end
  | T2 a => match nth_error a i with Some r => Ok (T1 r) | None => Raise ValueError end
  | T3 b => match nth_error b i with Some a => Ok (T2 a) | None => Raise ValueError end
  end.

Definition nthM {A} (i : nat) (l : list A) : result A :=
  match nth_error l i with Some a => Ok a | None => Raise ValueError end.

(** [x[:, i]]. *)
Definition get1 (x : t) (i : nat) : result t :=
  match x with
  | T0 _ | T1 _ => Raise ValueError
  | T2 a => v <- mapM (nthM i) a ;; Ok (T1 v)
  | T3 b => a <- mapM (nthM i) b ;; Ok (T2 a)
  end.

(** The entries of index [i] along the last axis of a rank 3 tensor. *)
Definition col3 (i : nat) (b : list (list (list K))) : result (list (list K)) :=
  mapM (mapM (nthM i)) b.

(** [x[:, :, i]]. *)
Definition get2 (x : t) (i : nat) : result t :=
  match x with
  | T3 b => a <- col3 i b ;; Ok (T2 a)
  | _ => Raise ValueError
  end.

(** [x[lo:]] and [x[:hi]] on the first axis; slices are clamped. *)
Definition from0 (lo : nat) (x : t) : result t :=
  match x with
  | T0 _ => Raise ValueError
  | T1 v => Ok (T1 (skipn lo v))
  | T2 a => Ok (T2 (skipn lo a))
  | T3 b => Ok (T3 (skipn lo b))
  end.

Definition upto0 (hi : nat) (x : t) : result t :=
  match x with
  | T0 _ => Raise ValueError
  | T1 v => Ok (T1 (firstn hi v))
  | T2 a => Ok (T2 (firstn hi a))
  | T3 b => Ok (T3 (firstn hi b))
  end.

(** [x[:, lo:]] and [x[:, :hi]]. *)
Definition from1 (lo : nat) (x : t) : result t :=
  match x with
  | T0 _ | T1 _ => Raise ValueError
  | T2 a => Ok (T2 (List.map (skipn lo) a))
  | T3 b => Ok (T3 (List.map (skipn lo) b))
  end.

Definition upto1 (hi : nat) (x : t) : result t :=
  match x with
  | T0 _ | T1 _ => Raise ValueError
  | T2 a => Ok (T2 (List.map (firstn hi) a))
  | T3 b => Ok (T3 (List.map (firstn hi) b))
  end.

(** [x[..., 1:, :3]]: the last axis cut to its first three entries, the
    axis before it without its first entry. *)
Definition tail_rows_xyz (x : t) : result t :=
  match x with
  | T0 _ | T1 _ => Raise ValueError
  | T2 a => Ok (T2 (List.map (firstn 3) (skipn 1 a)))
  | T3 b => Ok (T3 (List.map (fun a => List.map (firstn 3) (skipn 1 a)) b))
  end.

(** [x[None]]: a new first axis. *)
Definition expand0 (x : t) : result t :=
  match x with
  | T0 a => Ok (T1 [a])
  | T1 v => Ok (T2 [v])
  | T2 a => Ok (T3 [a])
  | T3 _ => Raise ValueError
  end.

(** [tf.expand_dims(x, 1)], also [x[:, None]]. *)
Definition expand1 (x : t) : result t :=
  match x with
  | T0 _ => Raise ValueError
  | T1 v => Ok (T2 (List.map (fun a => [a]) v))
  | T2 a => Ok (T3 (List.map (fun r => [r]) a))
  | T3 _ => Raise ValueError
  end.

(** Every entry of a matrix as a list of its own. *)
Definition cells (a : list (list K)) : list (list (list K)) :=
  List.map (List.map (fun e => [e])) a.

(** [x[:, :, None]] on a rank 2 tensor. *)
Definition expand2 (x : t) : result t :=
  match x with
  | T2 a => Ok (T3 (cells a))
  | _ => Raise ValueError
  end.

(** [x[None, :, None]] on a rank 1 tensor. *)
Definition expand02 (x : t) : result t :=
  match x with
  | T1 v => Ok (T3 [List.map (fun e => [e]) v])
  | _ => Raise ValueError
  end.

(** *** Joining and reshaping *)

(** Append along the last axis of a matrix, and along the last and the
    middle axis of a rank 3 tensor. *)
Definition app2 (a b : list (list K)) : result (list (list K)) :=
  zipM (fun r s => Ok (r ++ s)) a b.

Definition app3_last (x y : list (list (list K))) : result (list (list (list K))) :=
  zipM app2 x y.

Definition app3_mid (x y : list (list (list K))) : result (list (list (list K))) :=
  zipM (fun a b => if rect2 (a ++ b) then Ok (a ++ b) else Raise ValueError) x y.

(** [tf.concat([x, y], axis=0)]. *)
Definition concat0 (x y : t) : result t :=
  match x, y with
  | T1 v, T1 w => Ok (T1 (v ++ w))
  | T2 a, T2 b => if rect2 (a ++ b) then Ok (T2 (a ++ b)) else Raise ValueError
  | T3 a, T3 b => if rect3 (a ++ b) then Ok (T3 (a ++ b)) else Raise ValueError
  | _, _ => Raise ValueError
  end.

(** [tf.concat([x, y], axis=1)]. *)
Definition concat1 (x y : t) : result t :=
  match x, y with
  | T2 a, T2 b => c <- app2 a b ;; Ok (T2 c)
  | T3 a, T3 b => c <- app3_mid a b ;; Ok (T3 c)
  | _, _ => Raise ValueError
  end.

(** [tf.concat(l, axis=-1)] for rank 3 tensors. *)
Fixpoint concat_last3 (acc : list (list (list K))) (l : list t)
  : result (list (list (list K))) :=
  match l with
  | [] => Ok acc
  | T3 b :: l' => acc' <- app3_last acc b ;; concat_last3 acc' l'
  | _ :: _ => Raise ValueError
  end.

Definition concat_last (l : list t) : result t :=
  match l with
  | T3 b :: l' => c <- concat_last3 b l' ;; Ok (T3 c)
  | _ => Raise ValueError
  end.

Definition flatten (x : t) : list K := List.concat (List.concat (up3 x)).

Fixpoint chunks (fuel n : nat) (l : list K) : list (list K) :=
  match fuel, l with
  | 0, _ | _, [] => []
  | S fuel', _ => firstn n l :: chunks fuel' n (skipn n l)
  end.

(** [tf.reshape(x, [9])]. *)
Definition reshape9 (x : t) : result t :=
  if Nat.eqb (length (flatten x)) 9 then Ok (T1 (flatten x)) else Raise ValueError.

(** [tf.reshape(x, [-1, 9])]. *)
Definition reshape_rows9 (x : t) : result t :=
  if Nat.eqb (Nat.modulo (length (flatten x)) 9) 0
  then Ok (T2 (chunks (length (flatten x)) 9 (flatten x)))
  else Raise ValueError.

(** *** Transposition *)

Definition column (j : nat) (a : list (list K)) : list K :=
  List.map (fun r => nth j r k0) a.

Definition transpose2 (a : list (list K)) : list (list K) :=
  List.map (fun j => column j a) (seq 0 (length (hd [] a))).

(** [tf.transpose(x, perm=(1, 0))]. *)
Definition transpose_10 (x : t) : result t :=
  match x with
  | T2 a => Ok (T2 (transpose2 a))
  | _ => Raise ValueError
  end.

(** [tf.transpose(x, perm=(0, 2, 1))]. *)
Definition transpose_021 (x : t) : result t :=
  match x with
  | T3 b => Ok (T3 (List.map transpose2 b))
  | _ => Raise ValueError
  end.

(** [tf.transpose(x, perm=(1, 0, 2))]. *)
Definition transpose_102 (x : t) : result t :=
  match x with
  | T3 b => Ok (T3 (List.map (fun i => List.map (fun a => nth i a []) b)
                             (seq 0 (length (hd [] b)))))
  | _ => Raise ValueError
  end.

(** [tf.transpose(x)]: all the axes reversed. *)
Definition transpose (x : t) : t :=
  match x with
  | T0 _ | T1 _ => x
  | T2 a => T2 (transpose2 a)
  | T3 b =>
      T3 (List.map (fun k =>
            List.map (fun j => List.map (fun a => nth k (nth j a []) k0) b)
                     (seq 0 (length (hd [] b))))
          (seq 0 (length (hd [] (hd [] b)))))
  end.

(** *** Products *)

Fixpoint dot (v w : list K) : K :=
  match v, w with
  | a :: v', b :: w' => kadd (kmul a b) (dot v' w')
  | _, _ => k0
  end.

(** Matrix times vector and matrix times matrix; the inner extents must
    agree. *)
Definition mv (a : list (list K)) (v : list K) : result (list K) :=
  mapM (fun r => if Nat.eqb (length r) (length v) then Ok (dot r v)
                 else Raise ValueError) a.

Definition mm (a b : list (list K)) : result (list (list K)) :=
  mapM (fun r => if Nat.eqb (length r) (length b)
                 then Ok (List.map (dot r) (transpose2 b))
                 else Raise ValueError) a.

(** [tf.matmul(x, y, transpose_a)]: both operands have rank 2, or both
    have rank 3 and the same batch size. *)
Definition matmul (x y : t) (transpose_a : bool) : result t :=
  match x, y with
  | T2 a, T2 b =>
      c <- mm (if transpose_a then transpose2 a else a) b ;; Ok (T2 c)
  | T3 a, T3 b =>
      c <- zipM (fun a' b' => mm (if transpose_a then transpose2 a' else a') b') a b ;;
      Ok (T3 c)
  | _, _ => Raise ValueError
  end.

Definition cross3 (v w : list K) : result (list K) :=
  match v, w with
  | [a1; a2; a3], [b1; b2; b3] =>
      Ok [ksub (kmul a2 b3) (kmul a3 b2);
          ksub (kmul a3 b1) (kmul a1 b3);
          ksub (kmul a1 b2) (kmul a2 b1)]
  | _, _ => Raise ValueError
  end.

(** [tf.cross(x, y)]: the operands have the same shape, with a last axis
    of extent 3. *)
Definition cross (x y : t) : result t :=
  match x, y with
  | T1 v, T1 w => c <- cross3 v w ;; Ok (T1 c)
  | T2 a, T2 b => c <- zipM cross3 a b ;; Ok (T2 c)
  | T3 a, T3 b => c <- zipM (zipM cross3) a b ;; Ok (T3 c)
  | _, _ => Raise ValueError
  end.

(** *** Stacking and reduction *)

Definition as0 (x : t) : result K :=
  match x with T0 a => Ok a | _ => Raise ValueError end.
Definition as1 (x : t) : result (list K) :=
  match x with T1 v => Ok v | _ => Raise ValueError end.
Definition as2 (x : t) : result (list (list K)) :=
  match x with T2 a => Ok a | _ => Raise ValueError end.

(** [tf.stack(l)]: the tensors have one shape; a new first axis. *)
Definition stack (l : list t) : result t :=
  match l with
  | [] => Raise ValueError
  | T0 _ :: _ => v <- mapM as0 l ;; Ok (T1 v)
  | T1 _ :: _ => a <- mapM as1 l ;;
                 if rect2 a then Ok (T2 a) else Raise ValueError
  | T2 _ :: _ => b <- mapM as2 l ;;
                 if rect3 b then Ok (T3 b) else Raise ValueError
  | T3 _ :: _ => Raise ValueError
  end.

Definition sum (v : list K) : K := fold_right kadd k0 v.

(** The sum of the rows of a matrix. *)
Definition sum_rows (a : list (list K)) : list K :=
  List.map sum (transpose2 a).

(** [tf.reduce_sum(x, axis=-2)]. *)
Definition reduce_sum_rows (x : t) : result t :=
  match x with
  | T0 _ | T1 _ => Raise ValueError
  | T2 a => Ok (T1 (sum_rows a))
  | T3 b => Ok (T2 (List.map sum_rows b))
  end.

(** [tf.reduce_sum(l, axis=0)] for a Python list of tensors. *)
Fixpoint reduce_sum_list (l : list t) : result t :=
  match l with
  | [] => Ok (T0 k0)
  | [x] => Ok x
  | x :: l' => s <- reduce_sum_list l' ;;
               if list_eq_dec Nat.eq_dec (shape x) (shape s) then add x s
               else Raise ValueError
  end.

End Defs.
End Tensor.

Abbreviation tensor := Tensor.t.
Abbreviation T0 := Tensor.T0.
Abbreviation T1 := Tensor.T1.
Abbreviation T2 := Tensor.T2.
Abbreviation T3 := Tensor.T3.

(** ** [utils]: layouts and tensor helpers *)

(** Modelled from the spec: the layout tags of [utils.FkLayout], whose
    declaration is not among the source files; the five members are the
    ones [chain.py] and [frame.py] name ([x] position only, [xq] position
    and quaternion, [xm] and [xmv] position and flattened rotation matrix,
    row-major and transposed, [f] the frame itself). *)
Module FkLayout.

Inductive t : Type := x | xq | xm | xmv | f.

Definition eqb (a b : t) : bool :=
  match a, b with
  | x, x | xq, xq | xm, xm | xmv, xmv | f, f => true
  | _, _ => false
  end.

End FkLayout.

Module tf_utils.
Section Defs.
Context {SC : Scalars}.

(** Modelled from the spec: [utils.tf_utils.matvecmul] is not among the
    source files.  Rotation times vector; an unbatched operand is
    broadcast across the batch of the other, two batches are combined
    pointwise. *)
Definition matvecmul (mat vec : tensor) : result tensor :=
  match mat, vec with
  | T2 a, T1 v => w <- Tensor.mv a v ;; Ok (T1 w)
  | T2 a, T2 vs => ws <- mapM (Tensor.mv a) vs ;; Ok (T2 ws)
  | T3 b, T1 v => ws <- mapM (fun a => Tensor.mv a v) b ;; Ok (T2 ws)
  | T3 b, T2 vs => ws <- zipM Tensor.mv b vs ;; Ok (T2 ws)
  | _, _ => Raise NotImplementedError
  end.

(** Modelled from the spec: [utils.tf_utils.matmatmul] is not among the
    source files.  Rotation times rotation, with the same batching rule as
    [matvecmul]. *)
Definition matmatmul (mat1 mat2 : tensor) : result tensor :=
  match mat1, mat2 with
  | T2 a, T2 b => c <- Tensor.mm a b ;; Ok (T2 c)
  | T3 a, T2 b => c <- mapM (fun a' => Tensor.mm a' b) a ;; Ok (T3 c)
  | T2 a, T3 b => c <- mapM (Tensor.mm a) b ;; Ok (T3 c)
  | T3 a, T3 b => c <- zipM Tensor.mm a b ;; Ok (T3 c)
  | _, _ => Raise NotImplementedError
  end.

Definition skew3 (w : list K) : result (list (list K)) :=
  match w with
  | [w1; w2; w3] =>
      Ok [[k0; kopp w3; w2]; [w3; k0; kopp w1]; [kopp w2; w1; k0]]
  | _ => Raise ValueError
  end.

(** Modelled from the spec: [utils.tf_utils.angular_vel_tensor] is not
    among the source files.  The skew-symmetric matrix of an angular
    velocity, per configuration of a batch. *)
Definition angular_vel_tensor (w : tensor) : result tensor :=
  match w with
  | T1 v => a <- skew3 v ;; Ok (T2 a)
  | T2 vs => b <- mapM skew3 vs ;; Ok (T3 b)
  | _ => Raise NotImplementedError
  end.

End Defs.
End tf_utils.

(** ** [frame.py]: [Twist] *)

Module Twist.
Section Defs.
Context {SC : Scalars}.

Record t : Type := Twist { dx : tensor }.

(** [Twist()]: the default argument [tf.zeros(6)]. *)
Definition default : t := Twist (Tensor.zeros 6).

Definition is_batch (self : t) : bool := Nat.eqb (Tensor.ndims (dx self)) 2.

Definition vel (self : t) : result tensor :=
  if is_batch self then Tensor.upto1 3 (dx self) else Tensor.upto0 3 (dx self).

Definition rot (self : t) : result tensor :=
  if is_batch self then Tensor.from1 3 (dx self) else Tensor.from0 3 (dx self).

(** [Twist.ref_point]: the twist about the point displaced by [v]. *)
Definition ref_point (self : t) (v : tensor) : result t :=
  r0 <- rot self ;;
  ' (vel', rot') <-
    (if Nat.ltb (Tensor.ndims r0) (Tensor.ndims v) then
       r <- Tensor.expand0 r0 ;;
       rot' <- Tensor.mul r (Tensor.add_scalar (Tensor.zeros_like v) k1) ;;
       v0 <- vel self ;;
       c <- Tensor.cross rot' v ;;
       vel' <- Tensor.add v0 c ;;
       Ok (vel', rot')
     else if Nat.ltb (Tensor.ndims v) (Tensor.ndims r0) then
       n <- match Tensor.shape r0 with n :: _ => Ok n | [] => Raise IndexError end ;;
       v0 <- vel self ;;
       vn <- Tensor.expand0 v ;;
       vb <- Tensor.mul vn (Tensor.ones2 n 1) ;;
       c <- Tensor.cross r0 vb ;;
       vel' <- Tensor.add v0 c ;;
       Ok (vel', r0)
     else
       v0 <- vel self ;;
       c <- Tensor.cross r0 v ;;
       vel' <- Tensor.add v0 c ;;
       Ok (vel', r0)) ;;
  if is_batch self || Nat.eqb (Tensor.ndims v) 2 then
    d <- Tensor.concat1 vel' rot' ;; Ok (Twist d)
  else
    d <- Tensor.concat0 vel' rot' ;; Ok (Twist d).

(** [Twist.__rmul__] for a tensor on the left: [other * self] rotates
    both halves of the twist by the matrix [other]. *)
Definition rmul (self : t) (other : tensor) : result t :=
  r0 <- rot self ;;
  rot' <- tf_utils.matvecmul other r0 ;;
  v0 <- vel self ;;
  vel' <- tf_utils.matvecmul other v0 ;;
  if is_batch self || Nat.eqb (Tensor.ndims rot') 2 then
    d <- Tensor.concat1 vel' rot' ;; Ok (Twist d)
  else
    d <- Tensor.concat0 vel' rot' ;; Ok (Twist d).

(** [Twist.dx_mat]: the derivative of the pose in the layout [xm] or
    [xmv], for the rotation matrix [m]. *)
Definition dx_mat (self : t) (m : tensor) (layout : FkLayout.t) : result tensor :=
  r0 <- rot self ;;
  w <- tf_utils.angular_vel_tensor r0 ;;
  dm_dphi <- tf_utils.matmatmul w m ;;
  if FkLayout.eqb layout FkLayout.xmv then
    if is_batch self then
      v0 <- vel self ;;
      tr <- Tensor.transpose_021 dm_dphi ;;
      flat <- Tensor.reshape_rows9 tr ;;
      Tensor.concat1 v0 flat
    else
      v0 <- vel self ;;
      tr <- Tensor.transpose_10 dm_dphi ;;
      flat <- Tensor.reshape9 tr ;;
      Tensor.concat0 v0 flat
  else
    if is_batch self then
      v0 <- vel self ;;
      flat <- Tensor.reshape_rows9 dm_dphi ;;
      Tensor.concat1 v0 flat
    else
      v0 <- vel self ;;
      flat <- Tensor.reshape9 dm_dphi ;;
      Tensor.concat0 v0 flat.

End Defs.
End Twist.

(** ** [frame.py]: [Frame] *)

Module Frame.
Section Defs.
Context {SC : Scalars}.

Record t : Type := Frame { p : tensor; m : tensor }.

(** [Frame.__init__(p, m, batch_shape)]. *)
Definition init (p0 m0 : option tensor) (batch_shape : option nat) : t :=
  match batch_shape with
  | None =>
      Frame (match p0 with None => Tensor.zeros 3 | Some p' => p' end)
            (match m0 with None => Tensor.eye | Some m' => m' end)
  | Some n =>
      Frame (match p0 with None => Tensor.zeros2 n 3 | Some p' => p' end)
            (match m0 with None => Tensor.eye_batch n | Some m' => m' end)
  end.

(** [Frame()]: the identity transform. *)
Definition identity : t := init None None None.

Definition is_batch (self : t) : bool := Nat.eqb (Tensor.ndims (m self)) 3.

Definition xm (self : t) : result tensor :=
  if is_batch self then
    flat <- Tensor.reshape_rows9 (m self) ;; Tensor.concat1 (p self) flat
  else
    flat <- Tensor.reshape9 (m self) ;; Tensor.concat0 (p self) flat.

Definition xmv (self : t) : result tensor :=
  if is_batch self then
    tr <- Tensor.transpose_021 (m self) ;;
    flat <- Tensor.reshape_rows9 tr ;; Tensor.concat1 (p self) flat
  else
    tr <- Tensor.transpose_10 (m self) ;;
    flat <- Tensor.reshape9 tr ;; Tensor.concat0 (p self) flat.

Definition xq (self : t) : result tensor := Raise NotImplementedError.

Definition inv (self : t) : result t :=
  e <- Tensor.expand1 (p self) ;;
  mp <- Tensor.matmul (m self) e true ;;
  c <- Tensor.get1 mp 0 ;;
  Ok (Frame (Tensor.neg c) (Tensor.transpose (m self))).

(** [Frame.__mul__] for a frame on the right: composition. *)
Definition mul (self other : t) : result t :=
  mp <- tf_utils.matvecmul (m self) (p other) ;;
  p' <- Tensor.add mp (p self) ;;
  m' <- tf_utils.matmatmul (m self) (m other) ;;
  Ok (Frame p' m').

(** [Frame.__mul__] for a twist on the right. *)
Definition mul_twist (self : t) (other : Twist.t) : result Twist.t :=
  r0 <- Twist.rot other ;;
  rot' <- tf_utils.matvecmul (m self) r0 ;;
  v0 <- Twist.vel other ;;
  mvel <- tf_utils.matvecmul (m self) v0 ;;
  c <- Tensor.cross (p self) rot' ;;
  vel' <- Tensor.add mvel c ;;
  d <- Tensor.concat0 vel' rot' ;;
  Ok (Twist.Twist d).

End Defs.
End Frame.


(** ** Joints, links and segments *)

(** Modelled from the spec: [joint.JointType] is not among the source
    files; [NoneT] is the fixed joint, the only member the sources name,
    and the spec lists rotational and prismatic joints beside it. *)
Module JointType.

Inductive t : Type := NoneT | Rotational | Prismatic.

Definition eqb (a b : t) : bool :=
  match a, b with
  | NoneT, NoneT | Rotational, Rotational | Prismatic, Prismatic => true
  | _, _ => false
  end.

End JointType.

Module Segment.
Section Defs.
Context {SC : Scalars}.

Record Joint : Type := { type : JointType.t }.

Record Link : Type := { mass : K; frame : Frame.t }.

(** Modelled from the spec: the classes of [segment.py] and [joint.py] are
    not among the source files.  A segment carries its joint, its optional
    link, the name of its child, the local pose [pose(q)] of its tip for a
    joint value, the twist [twist(q, qdot)] of its motion axis, and
    [pose_0], its constant pose; the two functions are those the chain
    calls, and like any call they may raise. *)
Record t : Type := {
  joint : Joint;
  link : option Link;
  child_name : string;
  pose : tensor -> result Frame.t;
  twist : tensor -> K -> result Twist.t;
  pose_0 : Frame.t
}.

(** [seg.joint.type != JointType.NoneT]. *)
Definition actuated (seg : t) : bool :=
  negb (JointType.eqb (type (joint seg)) JointType.NoneT).

End Defs.
End Segment.

(** ** Python values *)

Section Values.
Context {SC : Scalars}.

(** What [return_frame] and [stack_batch] return: a tensor, a frame, a
    list of frames, or the class [NotImplementedError] itself, which
    [stack_batch] returns instead of raising. *)
Inductive value : Type :=
| VTensor (x : tensor)
| VFrame (fr : Frame.t)
| VFrames (l : list Frame.t)
| VNotImplementedError.

(** What [Chain.xs] returns: the poses, or the tuple of the poses, the
    link poses and the center of mass. *)
Inductive xs_value : Type :=
| Poses (poses : value)
| PosesLinksCom (poses links : value) (com : tensor).


(** The joint values given to a chain: a tensor, or a Python list with
    one tensor per joint. *)
Inductive qarg : Type :=
| QTensor (x : tensor)
| QList (l : list tensor).

(** The [floating_base] argument: absent, a pair [(p, m)], a frame, or
    anything else. *)
Inductive floating_base : Type :=
| FbNone
| FbPair (p m : tensor)
| FbFrame (fr : Frame.t)
| FbOther.

(** The first argument of [return_frame]: a frame or a list of frames. *)
Inductive frames : Type :=
| Single (fr : Frame.t)
| Listed (l : list Frame.t).

(** [holds_poses n v]: the value [v] is a list of [n] frames, or a
    tensor that stacks [n] poses, per configuration when batched. *)
Definition holds_poses (n : nat) (v : value) : Prop :=
  match v with
  | VFrames l => length l = n
  | VTensor (T2 a) => length a = n
  | VTensor (T3 b) => Forall (fun a => length a = n) b
  | _ => False
  end.

End Values.

(** ** [chain.py]: module functions *)

Section ChainFunctions.
Context {SC : Scalars}.

(** [stack_batch(vecs)]. *)
Definition stack_batch (vecs : list tensor) : result value :=
  first <- py_index vecs 0 ;;
  last <- py_last vecs ;;
  vecs' <-
    (if Nat.ltb (Tensor.ndims first) (Tensor.ndims last) then
       n <- match Tensor.shape last with n :: _ => Ok n | [] => Raise IndexError end ;;
       v0 <- Tensor.mul (Tensor.ones2 n 1) first ;;
       py_setitem vecs 0 v0
     else Ok vecs) ;;
  last' <- py_last vecs' ;;
  if Nat.eqb (Tensor.ndims last') 1 then
    s <- Tensor.stack vecs' ;; Ok (VTensor s)
  else if Nat.eqb (Tensor.ndims last') 2 then
    s <- Tensor.stack vecs' ;;
    tr <- Tensor.transpose_102 s ;; Ok (VTensor tr)
  else Ok VNotImplementedError.

(** [return_frame(p, layout)]. *)
Definition return_frame (p : frames) (layout : FkLayout.t) : result value :=
  match layout with
  | FkLayout.x =>
      match p with
      | Listed l => stack_batch (List.map Frame.p l)
      | Single fr => Ok (VTensor (Frame.p fr))
      end
  | FkLayout.xq =>
      match p with
      | Listed l => vs <- mapM Frame.xq l ;; stack_batch vs
      | Single fr => v <- Frame.xq fr ;; Ok (VTensor v)
      end
  | FkLayout.xm =>
      match p with
      | Listed l => vs <- mapM Frame.xm l ;; stack_batch vs
      | Single fr => v <- Frame.xm fr ;; Ok (VTensor v)
      end
  | FkLayout.xmv =>
      match p with
      | Listed l => vs <- mapM Frame.xmv l ;; stack_batch vs
      | Single fr => v <- Frame.xmv fr ;; Ok (VTensor v)
      end
  | FkLayout.f =>
      match p with
      | Listed l => Ok (VFrames l)
      | Single fr => Ok (VFrame fr)
      end
  end.

(** The base frame chosen from [floating_base], in [Chain.xs] and
    [Chain.jacobian]. *)
Definition base_frame (fb : floating_base) : result Frame.t :=
  match fb with
  | FbNone => Ok Frame.identity
  | FbPair p m => Ok (Frame.init (Some p) (Some m) None)
  | FbFrame fr => Ok fr
  | FbOther => Raise ValueError
  end.

(** [tf.transpose(v, (0, 2, 1))] on what [stack_batch] returned. *)
Definition transpose_stacked (v : value) : result tensor :=
  match v with
  | VTensor s => Tensor.transpose_021 s
  | _ => Raise TypeError
  end.

End ChainFunctions.

(** ** [chain.py]: [Chain] *)

Module Chain.
Section Defs.
Context {SC : Scalars}.

Record t : Type := Chain { segments : list Segment.t }.

Definition nb_segm (self : t) : nat := length (segments self).

Definition nb_joint (self : t) : nat :=
  length (filter Segment.actuated (segments self)).

(** The masses of the segments that have a link. *)
Definition link_masses (self : t) : list K :=
  flat_map (fun seg => match Segment.link seg with
                       | Some l => [Segment.mass l]
                       | None => []
                       end) (segments self).

(** [Chain.masses]: [tf.constant] of the link masses. *)
Definition masses (self : t) : tensor := T1 (link_masses self).

(** [Chain.mass]: Python's [sum], which starts from 0. *)
Definition mass (self : t) : K := fold_left kadd (link_masses self) k0.

(** The joint value read at index [j]: [q[j]] for a list or a rank 1
    tensor, [q[:, j]] for a rank 2 tensor. *)
Definition xs_joint_value (q : qarg) (j : nat) : result tensor :=
  match q with
  | QList l => py_index l j
  | QTensor x =>
      if Nat.eqb (Tensor.ndims x) 1 then Tensor.get0 x j
      else if Nat.eqb (Tensor.ndims x) 2 then Tensor.get1 x j
      else Raise NotImplementedError
  end.

(** The state of the loop of [Chain.xs]: the joint index [j], the poses
    [p] and the link poses [links]. *)
Definition xs_state : Type := (nat * list Frame.t * list Frame.t)%type.

(** The local pose of a segment in [Chain.xs]: [pose(q[j])] when its
    joint is actuated, [pose(0.)] when it is fixed. *)
Definition local_pose (q : qarg) (j : nat) (seg : Segment.t) : result Frame.t :=
  if Segment.actuated seg
  then qj <- xs_joint_value q j ;; Segment.pose seg qj
  else Segment.pose seg (T0 k0).

(** One iteration of the loop of [Chain.xs], for the segment [seg]. *)
Definition xs_body (q : qarg) (get_links : bool) (st : xs_state) (seg : Segment.t)
  : result xs_state :=
  let '(j, p, links) := st in
  prev <- py_last p ;;
  local <- local_pose q j seg ;;
  cur <- Frame.mul prev local ;;
  links' <- (if get_links then
               match Segment.link seg with
               | Some l => fl <- Frame.mul cur (Segment.frame l) ;; Ok (links ++ [fl])
               | None => Ok links
               end
             else Ok links) ;;
  Ok (if Segment.actuated seg then S j else j, p ++ [cur], links').

(** The loop of [Chain.xs] over all the segments, from the base frame. *)
Definition xs_loop (self : t) (q : qarg) (fb : floating_base) (get_links : bool)
  : result xs_state :=
  base <- base_frame fb ;;
  foldM (xs_body q get_links) (segments self) (0, [base], [base]).

(** [links_stacked[..., 1:, :3]]. *)
Definition link_positions (links_stacked : value) : result tensor :=
  match links_stacked with
  | VTensor s => Tensor.tail_rows_xyz s
  | _ => Raise TypeError
  end.

(** [tf.reduce_sum(self.masses[None, :, None] * links_stacked[..., 1:, :3],
    axis=-2)]: the mass-weighted sum of the link positions. *)
Definition weighted_positions (self : t) (links_stacked : value) : result tensor :=
  ms <- Tensor.expand02 (masses self) ;;
  pos <- link_positions links_stacked ;;
  weighted <- Tensor.mul ms pos ;;
  Tensor.reduce_sum_rows weighted.

(** [Chain.xs(q, layout, floating_base, get_links)], with
    [get_collision_samples] at its default [False]. *)
Definition xs (self : t) (q : qarg) (layout : FkLayout.t) (fb : floating_base)
  (get_links : bool) : result xs_value :=
  ' (_, p, links) <- xs_loop self q fb get_links ;;
  if get_links then
    links_stacked <- return_frame (Listed links) layout ;;
    total <- weighted_positions self links_stacked ;;
    let com := Tensor.div_scalar total (mass self) in
    poses <- return_frame (Listed p) layout ;;
    Ok (PosesLinksCom poses links_stacked com)
  else
    poses <- return_frame (Listed p) layout ;;
    Ok (Poses poses).

(** [range(lo, hi)]. *)
Definition range (lo hi : nat) : list nat := seq lo (hi - lo).

(** [nb_segm - n], the bound of the loops of [ee_frame] and [jacobian];
    a range with a negative bound is empty. *)
Definition segments_kept (self : t) (n : Z) : nat :=
  Z.to_nat (Z.of_nat (nb_segm self) - n).

(** [q.shape] in [Chain.ee_frame]: a Python list has no such attribute. *)
Definition q_tensor (q : qarg) : result tensor :=
  match q with
  | QTensor x => Ok x
  | QList _ => Raise AttributeError
  end.

(** The local [p] of [Chain.ee_frame] and [total] of [Chain.jacobian],
    which may be unbound. *)
Definition bound (p : option Frame.t) : result Frame.t :=
  match p with
  | Some fr => Ok fr
  | None => Raise UnboundLocalError
  end.

(** One iteration of the loop of [Chain.ee_frame], for the index [i]. *)
Definition ee_body (self : t) (x : tensor) (st : nat * option Frame.t) (i : nat)
  : result (nat * option Frame.t) :=
  let '(j, p) := st in
  seg <- py_index (segments self) i ;;
  if Segment.actuated seg then
    if Nat.eqb (Tensor.ndims x) 1 then
      prev <- bound p ;;
      qj <- Tensor.get0 x j ;;
      local <- Segment.pose seg qj ;;
      cur <- Frame.mul prev local ;;
      Ok (S j, Some cur)
    else if Nat.eqb (Tensor.ndims x) 2 then
      prev <- bound p ;;
      qj <- Tensor.get1 x j ;;
      local <- Segment.pose seg qj ;;
      cur <- Frame.mul prev local ;;
      Ok (S j, Some cur)
    else Raise NotImplementedError
  else
    prev <- bound p ;;
    local <- Segment.pose seg (T0 k0) ;;
    cur <- Frame.mul prev local ;;
    Ok (j, Some cur).

(** [Chain.ee_frame(q, n, layout)]: the first segment is composed before
    the loop, with [q[0]], and the loop starts at [j = 1]. *)
Definition ee_frame (self : t) (q : qarg) (n : Z) (layout : FkLayout.t)
  : result value :=
  x <- q_tensor q ;;
  p0 <- (if Nat.eqb (Tensor.ndims x) 1 then
           seg0 <- py_index (segments self) 0 ;;
           q0 <- Tensor.get0 x 0 ;;
           fr <- Segment.pose seg0 q0 ;; Ok (Some fr)
         else if Nat.eqb (Tensor.ndims x) 2 then
           seg0 <- py_index (segments self) 0 ;;
           q0 <- Tensor.get1 x 0 ;;
           fr <- Segment.pose seg0 q0 ;; Ok (Some fr)
         else Ok None) ;;
  ' (_, p) <- foldM (ee_body self x) (range 1 (segments_kept self n)) (1, p0) ;;
  fr <- bound p ;;
  return_frame (Single fr) layout.

(** [is_batch] of [Chain.jacobian]. *)
Definition q_is_batch (q : qarg) : bool :=
  match q with
  | QList _ => false
  | QTensor x => Nat.eqb (Tensor.ndims x) 2
  end.

(** [q[:, j] if is_batch else q[j]]. *)
Definition jacobian_joint_value (q : qarg) (j : nat) : result tensor :=
  match q with
  | QList l => py_index l j
  | QTensor x => if q_is_batch q then Tensor.get1 x j else Tensor.get0 x j
  end.

(** The state of the loop of [Chain.jacobian]: the joint index [j], the
    twist columns [jac], the running pose [T_tmp] and the last [total]. *)
Record jacobian_state : Type := {
  j : nat;
  jac : list Twist.t;
  T_tmp : Frame.t;
  total : option Frame.t
}.

(** One iteration of the loop of [Chain.jacobian], for the index [i]. *)
Definition jacobian_body (self : t) (q : qarg) (st : jacobian_state) (i : nat)
  : result jacobian_state :=
  seg <- py_index (segments self) i ;;
  ' (total', t_tmp) <-
    (if Segment.actuated seg then
       _q <- jacobian_joint_value q (j st) ;;
       local <- Segment.pose seg _q ;;
       total' <- Frame.mul (T_tmp st) local ;;
       tw <- Segment.twist seg _q k1 ;;
       t_tmp <- Twist.rmul tw (Frame.m (T_tmp st)) ;;
       Ok (total', Some t_tmp)
     else
       total' <- Frame.mul (T_tmp st) (Segment.pose_0 seg) ;;
       Ok (total', None)) ;;
  jac' <-
    match jac st with
    | [] => Ok []
    | _ => mapM (fun _t => d <- Tensor.sub (Frame.p total') (Frame.p (T_tmp st)) ;;
                           Twist.ref_point _t d) (jac st)
    end ;;
  match t_tmp with
  | Some tw => Ok {| j := S (j st); jac := jac' ++ [tw]; T_tmp := total'; total := Some total' |}
  | None => Ok {| j := j st; jac := jac'; T_tmp := total'; total := Some total' |}
  end.

(** The loop of [Chain.jacobian], run over [range(k)]. *)
Definition jacobian_steps (self : t) (q : qarg) (fb : floating_base) (k : nat)
  : result jacobian_state :=
  base <- base_frame fb ;;
  foldM (jacobian_body self q) (range 0 k)
        {| j := 0; jac := []; T_tmp := base; total := None |}.

(** The loop of [Chain.jacobian], over [range(nb_segm - n)]. *)
Definition jacobian_loop (self : t) (q : qarg) (n : Z) (fb : floating_base)
  : result jacobian_state :=
  jacobian_steps self q fb (segments_kept self n).

(** [Chain.jacobian(q, n, layout, floating_base)]. *)
Definition jacobian (self : t) (q : qarg) (n : Z) (layout : FkLayout.t)
  (fb : floating_base) : result tensor :=
  st <- jacobian_loop self q n fb ;;
  match layout with
  | FkLayout.xm | FkLayout.xmv =>
      cols <- mapM (fun _t => tot <- bound (total st) ;;
                              Twist.dx_mat _t (Frame.m tot) layout) (jac st) ;;
      stacked <- stack_batch cols ;;
      transpose_stacked stacked
  | FkLayout.xq =>
      stacked <- stack_batch (List.map Twist.dx (jac st)) ;;
      transpose_stacked stacked
  | FkLayout.x =>
      stacked <- stack_batch (List.map Twist.dx (jac st)) ;;
      tr <- transpose_stacked stacked ;;
      Tensor.upto1 3 tr
  | FkLayout.f => Raise NotImplementedError
  end.

(** The number of actuated segments before the segment of index [i]:
    the index of its joint value. *)
Definition joints_before (self : t) (i : nat) : nat :=
  length (filter Segment.actuated (firstn i (segments self))).

End Defs.
End Chain.

(** ** [chain.py]: [ChainDict] *)

Module ChainDict.
Section Defs.
Context {SC : Scalars}.

(** An [OrderedDict] from chain names to chains: its items, in order. *)
Definition t : Type := list (string * Chain.t).

(** The child names of the actuated segments of a chain. *)
Definition chain_joint_names (chain : Chain.t) : list string :=
  List.map Segment.child_name (filter Segment.actuated (Chain.segments chain)).

(** The loop of [actuated_joint_names]: [_names] and [_unique_names].
    The names a chain adds to [_unique_names] are filtered against the
    list as it was before that chain. *)
Definition names_body (st : list string * list string) (chain : Chain.t)
  : list string * list string :=
  let '(names, unique_names) := st in
  (names ++ chain_joint_names chain,
   unique_names ++ filter (fun name => negb (py_in name unique_names))
                          (chain_joint_names chain)).

Definition actuated_joint_names (self : t) : list string :=
  fst (fold_left names_body (List.map snd self) ([], [])).

Definition unique_names (self : t) : list string :=
  snd (fold_left names_body (List.map snd self) ([], [])).

(** [ChainDict.nb_joint]. *)
Definition nb_joint (self : t) : nat := length (unique_names self).

(** [Chain.mass] summed over the chains. *)
Definition mass (self : t) : K :=
  fold_left kadd (List.map (fun item => Chain.mass (snd item)) self) k0.

(** [idx_chain]: for each chain, the positions of its joints in
    [_unique_names]. *)
Definition idx_chain (self : t) : result (list (string * list nat)) :=
  mapM (fun item =>
          idx <- mapM (fun name => list_index name (unique_names self))
                      (chain_joint_names (snd item)) ;;
          Ok (fst item, idx)) self.

(** [q_chains]: for each chain, the columns [q[:, i]] of its joints. *)
Definition q_chains (q : tensor) (idx : list (string * list nat))
  : result (list (string * list tensor)) :=
  mapM (fun item =>
          cols <- mapM (fun i => Tensor.get1 q i) (snd item) ;;
          Ok (fst item, cols)) idx.

(** The assembly of one chain's full-width Jacobian from [jac], the
    Jacobian of the chain, and [idx], the positions of its joints. *)
Definition augment (width : nat) (jac : tensor) (idx : list nat) : result tensor :=
  jacs <- mapM (fun _ => c <- Tensor.get2 jac 0 ;;
                         Tensor.expand2 (Tensor.zeros_like c)) (seq 0 width) ;;
  jacs' <- foldM (fun jacs ji =>
                    c <- Tensor.get2 jac (fst ji) ;;
                    e <- Tensor.expand2 c ;;
                    py_setitem jacs (snd ji) e)
                 (combine (seq 0 (length idx)) idx) jacs ;;
  Tensor.concat_last jacs'.

(** [ChainDict.jacobian(q, n, layout, floating_base, name)]: a
    dictionary when no name is given, one Jacobian otherwise. *)
Definition jacobian (self : t) (q : tensor) (n : Z) (layout : FkLayout.t)
  (fb : floating_base) (name : option string)
  : result (list (string * tensor) + tensor) :=
  idx <- idx_chain self ;;
  qs <- q_chains q idx ;;
  match name with
  | None =>
      xs_chains <- mapM (fun item =>
                           qc <- dict_get qs (fst item) ;;
                           jc <- Chain.jacobian (snd item) (QList qc) n layout fb ;;
                           Ok (fst item, jc)) self ;;
      xs_chains_aug <- mapM (fun item =>
                               jc <- dict_get xs_chains (fst item) ;;
                               ic <- dict_get idx (fst item) ;;
                               aug <- augment (nb_joint self) jc ic ;;
                               Ok (fst item, aug)) xs_chains ;;
      Ok (inl xs_chains_aug)
  | Some name' =>
      chain <- dict_get self name' ;;
      qc <- dict_get qs name' ;;
      jc <- Chain.jacobian chain (QList qc) n layout fb ;;
      Ok (inr jc)
  end.

(** What [ChainDict.xs] returns: a dictionary of poses, the tuple of two
    dictionaries and the common center of mass, or one chain's result. *)
Inductive xs_result : Type :=
| AllPoses (d : list (string * xs_value))
| AllPosesLinksCom (poses links : list (string * value)) (com : tensor)
| OneChain (v : xs_value).

(** [xs_chains[name][k]] for [k] = 0, 1, 2: the result is a tuple only
    when links were asked for. *)
Definition tuple_parts (v : xs_value) : result (value * value * tensor) :=
  match v with
  | PosesLinksCom poses links com => Ok (poses, links, com)
  | Poses _ => Raise TypeError
  end.

(** [ChainDict.xs(q, layout, floating_base, name, get_links)]. *)
Definition xs (self : t) (q : tensor) (layout : FkLayout.t) (fb : floating_base)
  (name : option string) (get_links : bool) : result xs_result :=
  idx <- idx_chain self ;;
  qs <- q_chains q idx ;;
  match name with
  | None =>
      xs_chains <- mapM (fun item =>
                           qc <- dict_get qs (fst item) ;;
                           v <- Chain.xs (snd item) (QList qc) layout fb get_links ;;
                           Ok (fst item, v)) self ;;
      if negb get_links then Ok (AllPoses xs_chains)
      else
        weighted <- mapM (fun item =>
                            v <- dict_get xs_chains (fst item) ;;
                            ' (_, _, com) <- tuple_parts v ;;
                            chain <- dict_get self (fst item) ;;
                            Ok (Tensor.map (fun a => kmul a (Chain.mass chain)) com))
                         self ;;
        total <- Tensor.reduce_sum_list weighted ;;
        let com := Tensor.div_scalar total (mass self) in
        poses <- mapM (fun item =>
                         v <- dict_get xs_chains (fst item) ;;
                         ' (ps, _, _) <- tuple_parts v ;; Ok (fst item, ps)) self ;;
        links <- mapM (fun item =>
                         v <- dict_get xs_chains (fst item) ;;
                         ' (_, ls, _) <- tuple_parts v ;; Ok (fst item, ls)) self ;;
        Ok (AllPosesLinksCom poses links com)
  | Some name' =>
      chain <- dict_get self name' ;;
      qc <- dict_get qs name' ;;
      v <- Chain.xs chain (QList qc) layout fb get_links ;;
      Ok (OneChain v)
  end.


(** No two entries of the list are equal. *)
Fixpoint distinct (l : list string) : bool :=
  match l with
  | [] => true
  | name :: l' => negb (py_in name l') && distinct l'
  end.

(** [last_width w x]: the last axis of the rank 3 tensor [x] has extent
    [w]. *)
Definition last_width (w : nat) (x : tensor) : Prop :=
  match x with
  | T3 b => Forall (Forall (fun row => length row = w)) b
  | _ => False
  end.

End Defs.
End ChainDict.

(** ** Example segments and chains *)

Section Examples.
Context {SC : Scalars}.

(** A sliding joint along [axis]: the local pose for the joint value [q]
    is the translation [q * axis], per configuration when [q] is a batch;
    its twist is the linear velocity [qdot * axis]. *)
Definition prismatic_pose (axis : list K) (q : tensor) : result Frame.t :=
  match q with
  | T0 v => Ok (Frame.Frame (T1 (List.map (kmul v) axis)) Tensor.eye)
  | T1 vs => Ok (Frame.Frame (T2 (List.map (fun v => List.map (kmul v) axis) vs))
                             (Tensor.eye_batch (length vs)))
  | _ => Raise ValueError
  end.

Definition prismatic_twist (axis : list K) (q : tensor) (qdot : K) : result Twist.t :=
  match q with
  | T0 _ => Ok (Twist.Twist (T1 (List.map (kmul qdot) axis ++ [k0; k0; k0])))
  | T1 vs => Ok (Twist.Twist (T2 (List.map (fun _ => List.map (kmul qdot) axis ++ [k0; k0; k0]) vs)))
  | _ => Raise ValueError
  end.

Definition prismatic (axis : list K) (name : string) (lk : option Segment.Link)
  : Segment.t :=
  {| Segment.joint := {| Segment.type := JointType.Prismatic |};
     Segment.link := lk;
     Segment.child_name := name;
     Segment.pose := prismatic_pose axis;
     Segment.twist := prismatic_twist axis;
     Segment.pose_0 := Frame.Frame (T1 [k0; k0; k0]) Tensor.eye |}.

(** A fixed joint with a constant offset of its tip. *)
Definition fixed (offset : list K) (name : string) (lk : option Segment.Link)
  : Segment.t :=
  {| Segment.joint := {| Segment.type := JointType.NoneT |};
     Segment.link := lk;
     Segment.child_name := name;
     Segment.pose := fun _ => Ok (Frame.Frame (T1 offset) Tensor.eye);
     Segment.twist := fun _ _ => Ok Twist.default;
     Segment.pose_0 := Frame.Frame (T1 offset) Tensor.eye |}.

Definition slide_x := prismatic [k1; k0; k0].
Definition slide_y := prismatic [k0; k1; k0].
Definition slide_z := prismatic [k0; k0; k1].
Definition mount := fixed [k0; k0; k1].

(** Two sliding joints with a fixed mount between them. *)
Definition two_slides : Chain.t :=
  Chain.Chain [slide_x "a"%string None; mount "m"%string None; slide_y "b"%string None].

(** A fixed base followed by one sliding joint. *)
Definition mounted_slide : Chain.t :=
  Chain.Chain [mount "m"%string None; slide_x "a"%string None].

(** A chain of fixed joints only. *)
Definition mounts : Chain.t :=
  Chain.Chain [mount "m"%string None; mount "n"%string None].

(** One fixed segment whose link has no mass. *)
Definition massless : Chain.t :=
  Chain.Chain [mount "m"%string (Some {| Segment.mass := k0; Segment.frame := Frame.identity |})].

(** A second arm, whose first joint has the name of the first joint of
    [two_slides]. *)
Definition right_arm : Chain.t :=
  Chain.Chain [slide_x "a"%string None; slide_z "c"%string None].

(** Two arms that share one joint name. *)
Definition two_arms : ChainDict.t :=
  [("left"%string, two_slides); ("right"%string, right_arm)].

End Examples.

(** ** The transport law, as the spec words it *)

Section TransportSpec.
Context {SC : Scalars}.

(** Pointwise combination of two lists, up to the shorter one. *)
Definition zip_with {A B C} (g : A -> B -> C) (la : list A) (lb : list B) : list C :=
  List.map (fun ab => g (fst ab) (snd ab)) (combine la lb).

(** The cross product of two vectors of three entries. *)
Definition cross_vec (a b : list K) : list K :=
  match a, b with
  | [a1; a2; a3], [b1; b2; b3] =>
      [ksub (kmul a2 b3) (kmul a3 b2);
       ksub (kmul a3 b1) (kmul a1 b3);
       ksub (kmul a1 b2) (kmul a2 b1)]
  | _, _ => []
  end.

(** [changeReferencePoint] on one twist, linear part then angular part,
    and one displacement: linear' = linear + angular x displacement,
    angular' = angular. *)
Definition transport_row (tw d : list K) : list K :=
  zip_with kadd (firstn 3 tw) (cross_vec (skipn 3 tw) d) ++ skipn 3 tw.

(** The same law on tensors: an unbatched twist or displacement is
    repeated across the batch of the other. *)
Definition transport (dx d : tensor) : tensor :=
  match dx, d with
  | T1 tw, T1 v => T1 (transport_row tw v)
  | T1 tw, T2 vs => T2 (List.map (transport_row tw) vs)
  | T2 tws, T1 v => T2 (List.map (fun tw => transport_row tw v) tws)
  | T2 tws, T2 vs => T2 (zip_with transport_row tws vs)
  | _, _ => dx
  end.

Definition rows_ok (w : nat) (a : list (list K)) : bool :=
  forallb (fun r => Nat.eqb (length r) w) a.

(** [vec_batch w x]: [Some None] when [x] is one vector of [w] entries,
    [Some (Some n)] when it is a batch of [n] such vectors. *)
Definition vec_batch (w : nat) (x : tensor) : option (option nat) :=
  match x with
  | T1 v => if Nat.eqb (length v) w then Some None else None
  | T2 a => if rows_ok w a then Some (Some (length a)) else None
  | _ => None
  end.

(** Two batch sizes that can meet in one operation. *)
Definition batch_compatible (a b : option nat) : bool :=
  match a, b with
  | Some n, Some n' => Nat.eqb n n'
  | _, _ => true
  end.

(** The batch size of the result of combining two operands. *)
Definition batch_join (a b : option nat) : option nat :=
  match b with
  | Some n => Some n
  | None => a
  end.

End TransportSpec.

(** ** Rotations *)

Section Rotations.
Context {SC : Scalars}.

(** A 3 x 3 matrix whose rows are orthonormal: [a * transpose a] is the
    identity. *)
Definition orthonormal (a : list (list K)) : Prop :=
  length a = 3 /\ rows_ok 3 a = true /\
  Tensor.mm a (Tensor.transpose2 a) = Ok Tensor.eye3.

End Rotations.

(** ** Shapes of frames *)

Section Shapes.
Context {SC : Scalars}.

(** A 3 x 3 matrix. *)
Definition mat3 (a : list (list K)) : bool :=
  Nat.eqb (length a) 3 && rows_ok 3 a.

(** [single_frame fr]: one frame, a translation of 3 entries and a
    3 x 3 rotation. *)
Definition single_frame (fr : Frame.t) : bool :=
  match Frame.p fr, Frame.m fr with
  | T1 v, T2 a => Nat.eqb (length v) 3 && mat3 a
  | _, _ => false
  end.

(** [batch_frame n fr]: a batch of [n] frames. *)
Definition batch_frame (n : nat) (fr : Frame.t) : bool :=
  match Frame.p fr, Frame.m fr with
  | T2 ps, T3 ms =>
      Nat.eqb (length ps) n && rows_ok 3 ps &&
      Nat.eqb (length ms) n && forallb mat3 ms
  | _, _ => false
  end.

End Shapes.

(** ** The steps of the Jacobian, as the spec words them *)

Section PropagationSpec.
Context {SC : Scalars}.





End PropagationSpec.

(** ** Example segments that turn *)

Section Hinges.

Local Open Scope Z_scope.









End Hinges.

(** ** [frame.py]: a frame applied to points *)

Module FrameOps.
Section Defs.
Context {SC : Scalars}.

(** The points given to [Frame.__mul__]: one point, a tensor of rank 1,
    or a list of points, a tensor of rank 2. *)
Inductive points : Type :=
| Point (v : list K)
| Points (pts : list (list K)).

(** [other.shape[-1].value]. *)
Definition last_extent (other : points) : nat :=
  match other with
  | Point v => length v
  | Points pts => length (hd [] pts)
  end.

(** [tf.linalg.LinearOperatorFullMatrix(m).matvec(other)] for one matrix:
    the matrix is applied to every point. *)
Definition matvec (m : tensor) (other : points) : result tensor :=
  a <- Tensor.as2 m ;;
  match other with
  | Point v => w <- Tensor.mv a v ;; Ok (T1 w)
  | Points pts => ws <- mapM (Tensor.mv a) pts ;; Ok (T2 ws)
  end.

(** [tf.linalg.LinearOperatorFullMatrix(m[:, None]).matvec(other[None])]
    for a batch of matrices: the batch shapes (N, 1) of the operator and
    (1,) or (1, K) of the points broadcast, every matrix is applied to
    every point. *)
Definition matvec_batch (m : tensor) (other : points) : result tensor :=
  match m with
  | T3 ms =>
      match other with
      | Point v => r <- mapM (fun a => w <- Tensor.mv a v ;; Ok [w]) ms ;; Ok (T3 r)
      | Points pts => r <- mapM (fun a => mapM (Tensor.mv a) pts) ms ;; Ok (T3 r)
      end
  | _ => Raise ValueError
  end.

(** [Frame.__mul__] for a tensor on the right, of rank 1 or 2: the frame
    applied to points.  In both branches the translation is added as
    [self.p[None]]. *)
Definition mul_points (self : Frame.t) (other : points) : result tensor :=
  if Nat.eqb (last_extent other) 3 then
    if Frame.is_batch self then
      r <- matvec_batch (Frame.m self) other ;;
      pn <- Tensor.expand0 (Frame.p self) ;;
      Tensor.add r pn
    else
      r <- matvec (Frame.m self) other ;;
      pn <- Tensor.expand0 (Frame.p self) ;;
      Tensor.add r pn
  else Raise NotImplementedError.

End Defs.
End FrameOps.

(** ** Scalar functions beside the ring operations *)

(** [tf.nn.relu] and [tf.abs] on one entry. *)
Class ScalarFunctions (SC : Scalars) : Type := {
  krelu : K -> K;
  kabs : K -> K
}.

#[export] Instance Z_scalar_functions : ScalarFunctions Z_scalars :=
  {| krelu := Z.max 0; kabs := Z.abs |}.

(** Python's [d[k] = v] on a dictionary: the value of an existing key
    is replaced, a new key is added at the end. *)
Fixpoint dict_set {A} (d : list (string * A)) (k : string) (v : A)
  : list (string * A) :=
  match d with
  | [] => [(k, v)]
  | (k', v') :: d' =>
      if String.eqb k' k then (k, v) :: d' else (k', v') :: dict_set d' k v
  end.

(** ** [chain.py]: joint limits and the cost of leaving them *)

Module Limits.
Section Defs.
Context {SC : Scalars} {SF : ScalarFunctions SC}.

(** Modelled from the spec: the joint limits [seg.joint.limits] of
    [joint.py], which is not among the source files: a dictionary with the
    optional keys [low], [up], [vel] and [effort], given here as a function
    of the segment. *)
Variable limits : Segment.t -> list (string * K).

(** [seg.joint.limits[key]]. *)
Definition limit (seg : Segment.t) (key : string) : result K :=
  dict_get (limits seg) key.

(** [[seg.joint.limits['low'], seg.joint.limits['up']]]. *)
Definition low_up (seg : Segment.t) : result (list K) :=
  low <- limit seg "low" ;; up <- limit seg "up" ;; Ok [low; up].

(** [np.mean([seg.joint.limits['low'], seg.joint.limits['up']])]. *)
Definition mean_low_up (seg : Segment.t) : result K :=
  low <- limit seg "low" ;; up <- limit seg "up" ;;
  Ok (kdiv (kadd low up) (kadd k1 k1)).

(** [Chain.joint_limits]. *)
Definition joint_limits (self : Chain.t) : result (list (list K)) :=
  mapM low_up (filter Segment.actuated (Chain.segments self)).

(** [Chain.mean_pose]. *)
Definition mean_pose (self : Chain.t) : result (list K) :=
  mapM mean_low_up (filter Segment.actuated (Chain.segments self)).

(** [tf.unstack(x, axis=-1)]: the entries along the last axis. *)
Definition unstack_last (x : tensor) : result (list tensor) :=
  match x with
  | T0 _ => Raise ValueError
  | T1 v => Ok (List.map T0 v)
  | T2 a => Ok (List.map T1 (Tensor.transpose2 a))
  | T3 b =>
      Ok (List.map (fun k => T2 (List.map (Tensor.column k) b))
                   (seq 0 (length (hd [] (hd [] b)))))
  end.

(** [tf.unstack(dq, axis=-1)] for an argument that may be [None]. *)
Definition unstack_optional (x : option tensor) : result (list tensor) :=
  match x with
  | Some x' => unstack_last x'
  | None => Raise ValueError
  end.

(** One of the three loops of [Chain.constraints]: the columns are
    paired with the segments by [zip], a fixed segment skips its column,
    an actuated one appends the terms [terms seg column]. *)
Definition cost_loop (terms : Segment.t -> tensor -> result (list tensor))
  (columns : list tensor) (self : Chain.t) (cost : list tensor)
  : result (list tensor) :=
  foldM (fun cost pair =>
           if Segment.actuated (snd pair)
           then ts <- terms (snd pair) (fst pair) ;; Ok (cost ++ ts)
           else Ok cost)
        (combine columns (Chain.segments self)) cost.

(** The terms of the joint values: [alpha * relu(_q - up)] and
    [alpha * relu(-_q + low)]. *)
Definition position_terms (alpha : K) (seg : Segment.t) (_q : tensor)
  : result (list tensor) :=
  up <- limit seg "up" ;;
  low <- limit seg "low" ;;
  Ok [Tensor.map (fun a => kmul alpha (krelu (ksub a up))) _q;
      Tensor.map (fun a => kmul alpha (krelu (kadd (kopp a) low))) _q].

(** The term of a velocity or torque: [alpha * relu(abs(_dq) - limit)]. *)
Definition bound_terms (key : string) (alpha : K) (seg : Segment.t) (_dq : tensor)
  : result (list tensor) :=
  bound <- limit seg key ;;
  Ok [Tensor.map (fun a => kmul alpha (krelu (ksub (kabs a) bound))) _dq].

(** [Chain.constraints(q, dq, tau, alpha)], with [r_q], [r_dq] and
    [r_tau] at their default [None]: no noise is added.  The loop of the
    torques unstacks [dq]. *)
Definition constraints (self : Chain.t) (q : tensor) (dq tau : option tensor)
  (alpha : K) : result tensor :=
  qs <- unstack_last q ;;
  cost <- cost_loop (position_terms alpha) qs self [] ;;
  cost <- match dq with
          | Some dq' =>
              dqs <- unstack_last dq' ;;
              cost_loop (bound_terms "vel" alpha) dqs self cost
          | None => Ok cost
          end ;;
  cost <- match tau with
          | Some _ =>
              dqs <- unstack_optional dq ;;
              cost_loop (bound_terms "effort" alpha) dqs self cost
          | None => Ok cost
          end ;;
  Tensor.reduce_sum_list cost.

(** *** The cached properties of [ChainDict] *)

(** The attributes that [ChainDict] fills on first use; [None] in the
    class. *)
Record cache : Type := {
  _names : option (list string);
  _unique_names : option (list string);
  _nb_joints : option nat;
  _joint_limits : option (list (list K));
  _mass : option K;
  _mean_pose : option (list K)
}.

(** The attributes of a new [ChainDict]. *)
Definition fresh : cache :=
  {| _names := None; _unique_names := None; _nb_joints := None;
     _joint_limits := None; _mass := None; _mean_pose := None |}.

(** A property read on a [ChainDict]: it returns a value and may fill
    the cache. *)
Definition method (A : Type) : Type := cache -> result (A * cache).

(** [ChainDict.actuated_joint_names]. *)
Definition actuated_joint_names (self : ChainDict.t) : method (list string) :=
  fun c =>
    match _names c, _unique_names c with
    | Some names, Some _ => Ok (names, c)
    | _, _ =>
        let st := fold_left ChainDict.names_body (List.map snd self) ([], []) in
        Ok (fst st,
            {| _names := Some (fst st); _unique_names := Some (snd st);
               _nb_joints := Some (length (snd st));
               _joint_limits := _joint_limits c; _mass := _mass c;
               _mean_pose := _mean_pose c |})
    end.

(** [ChainDict.nb_joint]: the attribute [_nb_joints], filled by
    [actuated_joint_names] when it is [None]. *)
Definition nb_joint (self : ChainDict.t) : method (option nat) :=
  fun c =>
    match _nb_joints c with
    | Some n => Ok (Some n, c)
    | None => ' (_, c') <- actuated_joint_names self c ;; Ok (_nb_joints c', c')
    end.

(** The dictionary [_joint_limits_all]: for every chain in order and
    every actuated segment of it, the value of the segment under its
    child name. *)
Definition limits_all {A} (value : Segment.t -> result A) (self : ChainDict.t)
  : result (list (string * A)) :=
  foldM (fun d item =>
           foldM (fun d seg =>
                    if Segment.actuated seg
                    then v <- value seg ;; Ok (dict_set d (Segment.child_name seg) v)
                    else Ok d)
                 (Chain.segments (snd item)) d)
        self [].

(** [for name in self._unique_names]: [None] is not iterable. *)
Definition iterate (l : option (list string)) : result (list string) :=
  match l with
  | Some names => Ok names
  | None => Raise TypeError
  end.

(** [ChainDict.joint_limits]. *)
Definition dict_joint_limits (self : ChainDict.t) : method (list (list K)) :=
  fun c =>
    match _joint_limits c with
    | Some l => Ok (l, c)
    | None =>
        ' (_, c1) <- actuated_joint_names self c ;;
        d <- limits_all low_up self ;;
        names <- iterate (_unique_names c1) ;;
        l <- mapM (dict_get d) names ;;
        Ok (l, {| _names := _names c1; _unique_names := _unique_names c1;
                  _nb_joints := _nb_joints c1; _joint_limits := Some l;
                  _mass := _mass c1; _mean_pose := _mean_pose c1 |})
    end.

(** [ChainDict.mean_pose]: the names are not computed first. *)
Definition dict_mean_pose (self : ChainDict.t) : method (list K) :=
  fun c =>
    match _mean_pose c with
    | Some l => Ok (l, c)
    | None =>
        d <- limits_all mean_low_up self ;;
        names <- iterate (_unique_names c) ;;
        l <- mapM (dict_get d) names ;;
        Ok (l, {| _names := _names c; _unique_names := _unique_names c;
                  _nb_joints := _nb_joints c; _joint_limits := _joint_limits c;
                  _mass := _mass c; _mean_pose := Some l |})
    end.

(** [ChainDict.mass]. *)
Definition dict_mass (self : ChainDict.t) : method K :=
  fun c =>
    match _mass c with
    | Some m => Ok (m, c)
    | None =>
        let m := ChainDict.mass self in
        Ok (m, {| _names := _names c; _unique_names := _unique_names c;
                  _nb_joints := _nb_joints c; _joint_limits := _joint_limits c;
                  _mass := Some m; _mean_pose := _mean_pose c |})
    end.

End Defs.
End Limits.

(** ** [distributions/poe.py]: the product of experts *)

Module Expert.
Section Defs.
Context {SC : Scalars}.

(** An expert, as [PoE] uses it: a distribution of TensorFlow
    Probability, which is no part of the repository.  [PoE] calls its
    [log_prob] or, when the expert has that attribute, its
    [_log_unnormalized_prob]; either call may raise. *)
Record t : Type := {
  log_prob : tensor -> result tensor;
  _log_unnormalized_prob : option (tensor -> result tensor)
}.

End Defs.
End Expert.

Module PoE.
Section Defs.
Context {SC : Scalars}.

(** [transfs]: a list of functions from the product space to the space
    of each expert, or one function of the point and of the index of the
    expert. *)
Inductive transforms : Type :=
| TransfList (l : list (tensor -> result tensor))
| TransfFun (f : tensor -> nat -> result tensor).

Record t : Type := PoE {
  product_shape : list nat;
  experts : list Expert.t;
  transfs : transforms;
  cost : option (tensor -> result tensor)
}.

(** [PoE.get_loc_prec]. *)
Definition get_loc_prec (self : t) : result (tensor * tensor) :=
  Raise NotImplementedError.

(** [PoE.nb_experts]. *)
Definition nb_experts (self : t) : nat := length (experts self).

(** One iteration of the loop of [PoE._experts_probs]: the log
    probability of the expert of index [i], and the indices printed.
    The line [Using unnormalized prob for expert i] is printed only when
    [transfs] is a list and the expert has the attribute
    [_log_unnormalized_prob]; with a function for [transfs] nothing is
    printed. *)
Definition expert_prob (self : t) (x : tensor) (i : nat) (exp : Expert.t)
  : result (tensor * list nat) :=
  match transfs self with
  | TransfList l =>
      match Expert._log_unnormalized_prob exp with
      | Some unnormalized =>
          f <- py_index l i ;; y <- f x ;; p <- unnormalized y ;; Ok (p, [i])
      | None =>
          f <- py_index l i ;; y <- f x ;; p <- Expert.log_prob exp y ;; Ok (p, [])
      end
  | TransfFun f =>
      match Expert._log_unnormalized_prob exp with
      | Some unnormalized => y <- f x i ;; p <- unnormalized y ;; Ok (p, [])
      | None => y <- f x i ;; p <- Expert.log_prob exp y ;; Ok (p, [])
      end
  end.

(** [PoE._experts_probs(x)]: the list [probs], with the indices printed
    on the way. *)
Definition _experts_probs (self : t) (x : tensor) : result (list tensor * list nat) :=
  foldM (fun st ie =>
           ' (p, pr) <- expert_prob self x (fst ie) (snd ie) ;;
           Ok (fst st ++ [p], snd st ++ pr))
        (combine (seq 0 (length (experts self))) (experts self)) ([], []).

(** [PoE._log_unnormalized_prob(x, wo_cost)]. *)
Definition _log_unnormalized_prob (self : t) (x : tensor) (wo_cost : bool)
  : result (tensor * list nat) :=
  x' <- (if Nat.eqb (Tensor.ndims x) 1 then Tensor.expand0 x else Ok x) ;;
  if wo_cost then
    ' (probs, printed) <- _experts_probs self x' ;;
    s <- Tensor.reduce_sum_list probs ;;
    Ok (s, printed)
  else
    c <- match cost self with
         | None => Ok None
         | Some f => v <- f x' ;; Ok (Some v)
         end ;;
    ' (probs, printed) <- _experts_probs self x' ;;
    s <- Tensor.reduce_sum_list probs ;;
    r <- match c with
         | None => Ok (Tensor.map (fun a => ksub a k0) s)
         | Some v => Tensor.sub s v
         end ;;
    Ok (r, printed).

(** The indices, from [a] on, of the experts that have the attribute
    [_log_unnormalized_prob]. *)
Fixpoint unnormalized_from (a : nat) (exps : list Expert.t) : list nat :=
  match exps with
  | [] => []
  | exp :: exps' =>
      match Expert._log_unnormalized_prob exp with
      | Some _ => a :: unnormalized_from (S a) exps'
      | None => unnormalized_from (S a) exps'
      end
  end.

(** [PoE.get_transformed(x)]: a function is not iterable. *)
Definition get_transformed (self : t) (x : tensor) : result (list tensor) :=
  match transfs self with
  | TransfList l => mapM (fun f => f x) l
  | TransfFun _ => Raise TypeError
  end.

End Defs.
End PoE.

(** * Properties *)

(** ** The result monad and its list combinators *)

Section ResultFacts.

Lemma bind_Ok_inv {A B} (r : result A) (k : A -> result B) (b : B) :
  bind r k = Ok b -> exists a, r = Ok a /\ k a = Ok b.
Proof.
  destruct r as [a|e]; cbn; intros H; [eauto | discriminate].
Qed.

Lemma mapM_length {A B} (g : A -> result B) (l : list A) (l' : list B) :
  mapM g l = Ok l' -> length l' = length l.
Proof.
  revert l'; induction l as [|a l IH]; cbn; intros l' H.
  - injection H as <-; reflexivity.
  - destruct (g a); cbn in H; [|discriminate].
    destruct (mapM g l); cbn in H; [|discriminate].
    injection H as <-; cbn; f_equal; auto.
Qed.

Lemma mapM_pure {A B} (g : A -> result B) (h : A -> B) (l : list A) :
  Forall (fun a => g a = Ok (h a)) l -> mapM g l = Ok (List.map h l).
Proof.
  induction 1 as [|a l Ha _ IH]; cbn; [reflexivity|].
  rewrite Ha, IH; reflexivity.
Qed.


Lemma zipM_length {A B C} (g : A -> B -> result C) la lb lc :
  zipM g la lb = Ok lc -> length la = length lb /\ length lc = length la.
Proof.
  revert lb lc; induction la as [|a la IH]; intros [|b lb] lc; cbn; intros H;
    try discriminate.
  - injection H as <-; auto.
  - destruct (g a b); cbn in H; [|discriminate].
    destruct (zipM g la lb) as [cs|] eqn:E; cbn in H; [|discriminate].
    injection H as <-. destruct (IH _ _ E). cbn; split; congruence.
Qed.

Lemma bcast_same_length {A B C} (g : A -> B -> result C) la lb :
  length la = length lb -> bcast g la lb = zipM g la lb.
Proof.
  intros H; unfold bcast; rewrite H, Nat.eqb_refl; reflexivity.
Qed.

Lemma bcast_single_l {A B C} (g : A -> B -> result C) a lb :
  bcast g [a] lb = mapM (g a) lb.
Proof.
  unfold bcast; destruct lb as [|b [|b' lb]]; cbn; reflexivity.
Qed.

Lemma bcast_single_r {A B C} (g : A -> B -> result C) la b :
  bcast g la [b] = mapM (fun a => g a b) la.
Proof.
  unfold bcast; destruct la as [|a [|a' la]]; cbn; reflexivity.
Qed.

Lemma foldM_app {A B} (body : A -> B -> result A) l1 l2 a :
  foldM body (l1 ++ l2) a = bind (foldM body l1 a) (foldM body l2).
Proof.
  revert a; induction l1 as [|b l1 IH]; intros a; cbn; [reflexivity|].
  destruct (body a b); cbn; auto.
Qed.

End ResultFacts.

(** Splits a hypothesis [bind r k = Ok b] into its two steps. *)
Ltac bind_inv H :=
  let a := fresh "a" in
  let E := fresh "E" in
  apply bind_Ok_inv in H; destruct H as [a [E H]].

(** ** Lists combined pointwise *)

Section ZipFacts.

Lemma zip_with_length {A B C} (h : A -> B -> C) la lb :
  length la = length lb -> length (zip_with h la lb) = length la.
Proof.
  intros H; unfold zip_with; rewrite length_map, length_combine, H.
  apply Nat.min_id.
Qed.

Lemma Forall2_zip {A B} (PA : A -> Prop) (PB : B -> Prop) (R : A -> B -> Prop) la lb :
  length la = length lb -> Forall PA la -> Forall PB lb ->
  (forall a b, PA a -> PB b -> R a b) -> Forall2 R la lb.
Proof.
  intros Hl Ha; revert lb Hl.
  induction Ha as [|a la Pa _ IH]; intros [|b lb] Hl Hb HR; try discriminate.
  - constructor.
  - inversion Hb; subst. constructor; auto.
Qed.

Lemma Forall_zip_with {A B C} (PA : A -> Prop) (PB : B -> Prop) (PC : C -> Prop)
  (h : A -> B -> C) la lb :
  Forall PA la -> Forall PB lb ->
  (forall a b, PA a -> PB b -> PC (h a b)) -> Forall PC (zip_with h la lb).
Proof.
  intros Ha; revert lb.
  induction Ha as [|a la Pa _ IH]; intros [|b lb] Hb HR; try constructor.
  - inversion Hb; subst; auto.
  - inversion Hb; subst. apply IH; auto.
Qed.

Lemma zipM_pure {A B C} (g : A -> B -> result C) (h : A -> B -> C) la lb :
  Forall2 (fun a b => g a b = Ok (h a b)) la lb ->
  zipM g la lb = Ok (zip_with h la lb).
Proof.
  induction 1 as [|a b la lb Hab _ IH]; cbn; [reflexivity|].
  rewrite Hab, IH; reflexivity.
Qed.

Lemma bcast_pure {A B C} (g : A -> B -> result C) (h : A -> B -> C) la lb :
  Forall2 (fun a b => g a b = Ok (h a b)) la lb ->
  bcast g la lb = Ok (zip_with h la lb).
Proof.
  intros H. rewrite bcast_same_length by (eapply Forall2_length; eauto).
  apply zipM_pure; assumption.
Qed.

Lemma zip_with_const_r {A B C} (h : A -> B -> C) (la : list A) (lb : list B) (c : B) :
  length la = length lb ->
  zip_with h la (List.map (fun _ => c) lb) = List.map (fun a => h a c) la.
Proof.
  revert lb; induction la as [|a la IH]; intros [|b lb] Hl; try discriminate;
    [reflexivity|].
  unfold zip_with in *; cbn. f_equal. apply IH. injection Hl; auto.
Qed.

End ZipFacts.

(** ** Reference-point transport *)

Section TransportFacts.
Context {SC : Scalars} {SR : ScalarRing SC}.

Add Ring K_ring_transport : scalar_ring.

Lemma rows_ok_Forall w (a : list (list K)) :
  rows_ok w a = true <-> Forall (fun r => length r = w) a.
Proof.
  unfold rows_ok; rewrite forallb_forall, Forall_forall.
  split; intros H r Hr; specialize (H r Hr); apply Nat.eqb_eq; assumption.
Qed.

Lemma rows_ok_cons w (r : list K) a :
  rows_ok w (r :: a) = true -> length r = w /\ rows_ok w a = true.
Proof.
  cbn; intros H; apply andb_prop in H as [H1 H2].
  apply Nat.eqb_eq in H1; auto.
Qed.

Lemma bc1_same_length (g : K -> K -> K) (r s : list K) :
  length r = length s -> Tensor.bc1 g r s = Ok (zip_with g r s).
Proof.
  intros H; apply bcast_pure.
  apply Forall2_zip with (PA := fun _ => True) (PB := fun _ => True); auto;
    apply Forall_forall; auto.
Qed.

Lemma cross3_pure (w v : list K) :
  length w = 3 -> length v = 3 -> Tensor.cross3 w v = Ok (cross_vec w v).
Proof.
  intros Hw Hv.
  do 4 (destruct w as [|? w]; try discriminate Hw).
  do 4 (destruct v as [|? v]; try discriminate Hv).
  reflexivity.
Qed.

Lemma cross_vec_length (w v : list K) :
  length w = 3 -> length v = 3 -> length (cross_vec w v) = 3.
Proof.
  intros Hw Hv.
  do 4 (destruct w as [|? w]; try discriminate Hw).
  do 4 (destruct v as [|? v]; try discriminate Hv).
  reflexivity.
Qed.

Lemma add_T2_T2 (g : K -> K -> K) (a b : list (list K)) :
  Tensor.binop g (T2 a) (T2 b) = (c <- Tensor.bc2 g a b ;; Ok (T2 c)).
Proof.
  unfold Tensor.binop, Tensor.bc3; cbn.
  destruct (Tensor.bc2 g a b); reflexivity.
Qed.

Lemma ref_point_single (tw v : list K) :
  length tw = 6 -> length v = 3 ->
  Twist.ref_point (Twist.Twist (T1 tw)) (T1 v)
  = Ok (Twist.Twist (T1 (transport_row tw v))).
Proof.
  intros Ht Hv.
  do 7 (destruct tw as [|? tw]; try discriminate Ht).
  do 4 (destruct v as [|? v]; try discriminate Hv).
  reflexivity.
Qed.

Lemma ref_point_batch_batch (tws vs : list (list K)) :
  rows_ok 6 tws = true -> rows_ok 3 vs = true -> length tws = length vs ->
  Twist.ref_point (Twist.Twist (T2 tws)) (T2 vs)
  = Ok (Twist.Twist (T2 (zip_with transport_row tws vs))).
Proof.
  intros Ht Hv Hl.
  apply rows_ok_Forall in Ht, Hv.
  unfold Twist.ref_point, Twist.rot, Twist.vel.
  cbn [Twist.is_batch Twist.dx Tensor.ndims Nat.eqb Tensor.from1 Tensor.upto1 bind
       Nat.ltb Nat.leb orb].
  unfold Tensor.cross, Tensor.add.
  rewrite (zipM_pure _ cross_vec).
  2:{ apply Forall2_zip with (PA := fun r => length r = 3) (PB := fun r => length r = 3);
      [rewrite length_map; assumption | | assumption | apply cross3_pure].
      apply Forall_map; eapply Forall_impl; [|exact Ht].
      cbn beta; intros r Hr; rewrite length_skipn, Hr; reflexivity. }
  cbn [bind]. rewrite add_T2_T2. unfold Tensor.bc2.
  rewrite (bcast_pure _ (zip_with kadd)).
  2:{ apply Forall2_zip with (PA := fun r => length r = 3) (PB := fun r => length r = 3).
      - rewrite length_map, zip_with_length; rewrite length_map; auto.
      - apply Forall_map; eapply Forall_impl; [|exact Ht].
        cbn beta; intros r Hr; rewrite length_firstn, Hr; reflexivity.
      - apply Forall_zip_with with (PA := fun r => length r = 3) (PB := fun r => length r = 3);
          [| assumption | apply cross_vec_length].
        apply Forall_map; eapply Forall_impl; [|exact Ht].
        cbn beta; intros r Hr; rewrite length_skipn, Hr; reflexivity.
      - intros a b Ha Hb; apply bc1_same_length; congruence. }
  cbn [bind Tensor.concat1]. unfold Tensor.app2.
  rewrite (zipM_pure _ (@app K)).
  2:{ apply Forall2_zip with (PA := fun _ => True) (PB := fun _ => True);
        try (apply Forall_forall; auto); auto.
      rewrite zip_with_length; rewrite !length_map; auto.
      rewrite zip_with_length; rewrite !length_map; auto. }
  cbn [bind]. do 3 f_equal.
  clear Ht Hv. revert vs Hl.
  induction tws as [|tw tws IH]; intros [|v vs] Hl; try discriminate; [reflexivity|].
  unfold zip_with in *; cbn [List.map combine fst snd].
  f_equal. apply IH. injection Hl; auto.
Qed.


(** Closes an equation between two lists of scalars of the same length,
    entry by entry. *)
Ltac list_ring :=
  repeat (apply (f_equal2 (@cons K)); [ring|]); try reflexivity.

Lemma add_T1_T2 (g : K -> K -> K) (a : list K) (b : list (list K)) :
  Tensor.binop g (T1 a) (T2 b) = (c <- mapM (Tensor.bc1 g a) b ;; Ok (T2 c)).
Proof.
  unfold Tensor.binop, Tensor.bc3, Tensor.bc2; cbn.
  rewrite bcast_single_l.
  destruct (mapM (Tensor.bc1 g a) b); reflexivity.
Qed.

Lemma ref_point_single_batch (tw : list K) (vs : list (list K)) :
  length tw = 6 -> rows_ok 3 vs = true ->
  Twist.ref_point (Twist.Twist (T1 tw)) (T2 vs)
  = Ok (Twist.Twist (T2 (List.map (transport_row tw) vs))).
Proof.
  intros Ht Hv. apply rows_ok_Forall in Hv.
  assert (Hw : length (skipn 3 tw) = 3) by (rewrite length_skipn, Ht; reflexivity).
  assert (Hf : length (firstn 3 tw) = 3) by (rewrite length_firstn, Ht; reflexivity).
  unfold Twist.ref_point, Twist.rot, Twist.vel.
  cbn [Twist.is_batch Twist.dx Tensor.ndims Nat.eqb Tensor.from0 Tensor.upto0 bind
       Nat.ltb Nat.leb orb Tensor.expand0].
  unfold Tensor.mul, Tensor.add, Tensor.cross, Tensor.add_scalar, Tensor.zeros_like.
  cbn [Tensor.map]. rewrite add_T2_T2. unfold Tensor.bc2. rewrite bcast_single_l.
  rewrite (mapM_pure _ (zip_with kmul (skipn 3 tw))).
  2:{ rewrite !Forall_map. eapply Forall_impl; [|exact Hv].
      cbn beta; intros r Hr. apply bc1_same_length. rewrite !length_map; congruence. }
  cbn [bind].
  rewrite (zipM_pure _ cross_vec).
  2:{ apply Forall2_zip with (PA := fun r => length r = 3) (PB := fun r => length r = 3);
        [rewrite !length_map; reflexivity | | assumption | apply cross3_pure].
      rewrite !Forall_map. eapply Forall_impl; [|exact Hv].
      cbn beta; intros r Hr. rewrite zip_with_length; rewrite ?length_map; congruence. }
  cbn [bind]. rewrite add_T1_T2.
  rewrite (mapM_pure _ (zip_with kadd (firstn 3 tw))).
  2:{ apply Forall_zip_with with (PA := fun r => length r = 3) (PB := fun r => length r = 3);
        [| assumption |].
      - rewrite !Forall_map. eapply Forall_impl; [|exact Hv].
        cbn beta; intros r Hr. rewrite zip_with_length; rewrite ?length_map; congruence.
      - intros a b Ha Hb. apply bc1_same_length.
        rewrite cross_vec_length; auto. }
  cbn [bind Tensor.concat1]. unfold Tensor.app2.
  rewrite (zipM_pure _ (@app K)).
  2:{ apply Forall2_zip with (PA := fun _ => True) (PB := fun _ => True);
        try (apply Forall_forall; auto); auto.
      rewrite length_map, zip_with_length; rewrite !length_map; auto. }
  cbn [bind]. do 3 f_equal.
  do 7 (destruct tw as [|? tw]; try discriminate Ht). clear Ht Hw Hf.
  induction Hv as [|v vs Hv1 _ IH]; [reflexivity|].
  unfold zip_with in *; cbn [List.map combine fst snd] in *.
  f_equal; [|exact IH].
  do 4 (destruct v as [|? v]; try discriminate Hv1).
  cbn. list_ring.
Qed.

Lemma ref_point_batch_single (tws : list (list K)) (v : list K) :
  rows_ok 6 tws = true -> length v = 3 ->
  Twist.ref_point (Twist.Twist (T2 tws)) (T1 v)
  = Ok (Twist.Twist (T2 (List.map (fun tw => transport_row tw v) tws))).
Proof.
  intros Ht Hv. apply rows_ok_Forall in Ht.
  unfold Twist.ref_point, Twist.rot, Twist.vel.
  cbn [Twist.is_batch Twist.dx Tensor.ndims Nat.eqb Tensor.from1 Tensor.upto1 bind
       Nat.ltb Nat.leb orb Tensor.expand0 Tensor.shape].
  unfold Tensor.mul, Tensor.add, Tensor.cross, Tensor.ones2.
  rewrite add_T2_T2. unfold Tensor.bc2. rewrite bcast_single_l.
  rewrite (mapM_pure _ (fun _ => List.map (fun a => kmul a k1) v)).
  2:{ apply Forall_forall; intros r Hr. apply repeat_spec in Hr; subst r.
      unfold Tensor.bc1; cbn [repeat]. rewrite bcast_single_r.
      apply mapM_pure. apply Forall_forall; auto. }
  cbn [bind].
  rewrite zipM_pure with (h := cross_vec).
  2:{ apply Forall2_zip with (PA := fun r => length r = 3) (PB := fun r => length r = 3);
        [rewrite !length_map, repeat_length; reflexivity | | | apply cross3_pure].
      - apply Forall_map; eapply Forall_impl; [|exact Ht].
        cbn beta; intros r Hr; rewrite length_skipn, Hr; reflexivity.
      - apply Forall_map, Forall_forall; intros; rewrite length_map; assumption. }
  cbn [bind]. rewrite add_T2_T2. unfold Tensor.bc2.
  rewrite (bcast_pure _ (zip_with kadd)).
  2:{ apply Forall2_zip with (PA := fun r => length r = 3) (PB := fun r => length r = 3).
      - rewrite length_map, zip_with_length; rewrite !length_map, ?repeat_length; auto.
      - apply Forall_map; eapply Forall_impl; [|exact Ht].
        cbn beta; intros r Hr; rewrite length_firstn, Hr; reflexivity.
      - apply Forall_zip_with with (PA := fun r => length r = 3) (PB := fun r => length r = 3);
          [| | apply cross_vec_length].
        + apply Forall_map; eapply Forall_impl; [|exact Ht].
          cbn beta; intros r Hr; rewrite length_skipn, Hr; reflexivity.
        + apply Forall_map, Forall_forall; intros; rewrite length_map; assumption.
      - intros a b Ha Hb; apply bc1_same_length; congruence. }
  cbn [bind Tensor.concat1]. unfold Tensor.app2.
  rewrite (zipM_pure _ (@app K)).
  2:{ apply Forall2_zip with (PA := fun _ => True) (PB := fun _ => True);
        try (apply Forall_forall; auto); auto.
      rewrite zip_with_length; rewrite !length_map, ?repeat_length; auto.
      rewrite zip_with_length; rewrite !length_map, ?repeat_length; auto. }
  cbn [bind]. do 3 f_equal.
  rewrite zip_with_const_r by (rewrite !length_map, repeat_length; reflexivity).
  rewrite map_map.
  do 4 (destruct v as [|? v]; try discriminate Hv). clear Hv.
  induction Ht as [|tw tws Ht1 _ IH]; [reflexivity|].
  unfold zip_with in *; cbn [List.map combine fst snd] in *.
  f_equal; [|exact IH].
  do 7 (destruct tw as [|? tw]; try discriminate Ht1).
  cbn. list_ring.
Qed.


Lemma vec_batch_inv w (t : tensor) (b : option nat) :
  vec_batch w t = Some b ->
  (exists v, t = T1 v /\ length v = w /\ b = None) \/
  (exists a, t = T2 a /\ rows_ok w a = true /\ b = Some (length a)).
Proof.
  destruct t as [c|v|a|a]; cbn; try discriminate.
  - destruct (Nat.eqb (length v) w) eqn:E; [|discriminate].
    intros H; injection H as <-. left; exists v.
    apply Nat.eqb_eq in E; auto.
  - destruct (rows_ok w a) eqn:E; [|discriminate].
    intros H; injection H as <-. right; exists a; auto.
Qed.

Lemma transport_row_length (tw v : list K) :
  length tw = 6 -> length v = 3 -> length (transport_row tw v) = 6.
Proof.
  intros Ht Hv.
  do 7 (destruct tw as [|? tw]; try discriminate Ht).
  do 4 (destruct v as [|? v]; try discriminate Hv).
  reflexivity.
Qed.

Lemma transport_row_add (tw v1 v2 : list K) :
  length tw = 6 -> length v1 = 3 -> length v2 = 3 ->
  transport_row (transport_row tw v1) v2 = transport_row tw (zip_with kadd v1 v2).
Proof.
  intros Ht H1 H2.
  do 7 (destruct tw as [|? tw]; try discriminate Ht).
  do 4 (destruct v1 as [|? v1]; try discriminate H1).
  do 4 (destruct v2 as [|? v2]; try discriminate H2).
  cbn. list_ring.
Qed.

(** [Twist.ref_point] computes the transport law of the spec, whatever
    the batching of the twist and of the displacement. *)
Lemma ref_point_transport (T : Twist.t) (d : tensor) (bT bd : option nat) :
  vec_batch 6 (Twist.dx T) = Some bT -> vec_batch 3 d = Some bd ->
  batch_compatible bT bd = true ->
  Twist.ref_point T d = Ok (Twist.Twist (transport (Twist.dx T) d)) /\
  vec_batch 6 (transport (Twist.dx T) d) = Some (batch_join bT bd).
Proof.
  destruct T as [x]; cbn [Twist.dx]; intros HT Hd Hc.
  apply vec_batch_inv in HT as [(tw & -> & Ht & ->)|(tws & -> & Ht & ->)];
    apply vec_batch_inv in Hd as [(v & -> & Hv & ->)|(vs & -> & Hv & ->)];
    cbn [transport vec_batch batch_join].
  - split; [apply ref_point_single; assumption|].
    rewrite transport_row_length by assumption; reflexivity.
  - split; [apply ref_point_single_batch; assumption|].
    rewrite length_map.
    replace (rows_ok 6 (List.map (transport_row tw) vs)) with true; [reflexivity|].
    symmetry; apply rows_ok_Forall, Forall_map.
    apply rows_ok_Forall in Hv. eapply Forall_impl; [|exact Hv].
    cbn beta; intros; apply transport_row_length; assumption.
  - split; [apply ref_point_batch_single; assumption|].
    rewrite length_map.
    replace (rows_ok 6 (List.map (fun tw => transport_row tw v) tws)) with true;
      [reflexivity|].
    symmetry; apply rows_ok_Forall, Forall_map.
    apply rows_ok_Forall in Ht. eapply Forall_impl; [|exact Ht].
    cbn beta; intros; apply transport_row_length; assumption.
  - cbn in Hc; apply Nat.eqb_eq in Hc.
    split; [apply ref_point_batch_batch; assumption|].
    rewrite zip_with_length by assumption.
    replace (rows_ok 6 (zip_with transport_row tws vs)) with true;
      [rewrite Hc; reflexivity|].
    symmetry; apply rows_ok_Forall.
    apply rows_ok_Forall in Ht, Hv.
    eapply Forall_zip_with; [exact Ht | exact Hv |].
    cbn beta; intros; apply transport_row_length; assumption.
Qed.

(** The sum of two displacements of one batching. *)
Lemma add_displacements (d1 d2 : tensor) (bd : option nat) :
  vec_batch 3 d1 = Some bd -> vec_batch 3 d2 = Some bd ->
  exists d12, Tensor.add d1 d2 = Ok d12 /\ vec_batch 3 d12 = Some bd /\
    match d1, d2 with
    | T1 v1, T1 v2 => d12 = T1 (zip_with kadd v1 v2)
    | T2 a1, T2 a2 => d12 = T2 (zip_with (zip_with kadd) a1 a2) /\ length a1 = length a2
    | _, _ => False
    end.
Proof.
  intros H1 H2.
  apply vec_batch_inv in H1 as [(v1 & -> & Hv1 & ->)|(a1 & -> & Ha1 & ->)];
    apply vec_batch_inv in H2 as [(v2 & -> & Hv2 & E)|(a2 & -> & Ha2 & E)];
    try discriminate E.
  - exists (T1 (zip_with kadd v1 v2)). split; [|split; [|reflexivity]].
    + unfold Tensor.add, Tensor.binop, Tensor.bc3, Tensor.bc2; cbn.
      rewrite bc1_same_length by congruence. reflexivity.
    + cbn. rewrite zip_with_length by congruence. rewrite Hv1; reflexivity.
  - injection E as E.
    apply rows_ok_Forall in Ha1, Ha2.
    exists (T2 (zip_with (zip_with kadd) a1 a2)). split; [|split; [|split; auto]].
    + unfold Tensor.add. rewrite add_T2_T2. unfold Tensor.bc2.
      rewrite (bcast_pure _ (zip_with kadd)); [reflexivity|].
      apply Forall2_zip with (PA := fun r => length r = 3) (PB := fun r => length r = 3);
        auto.
      intros; apply bc1_same_length; congruence.
    + cbn. rewrite zip_with_length by auto.
      replace (rows_ok 3 (zip_with (zip_with kadd) a1 a2)) with true; [reflexivity|].
      symmetry; apply rows_ok_Forall.
      eapply Forall_zip_with; [exact Ha1 | exact Ha2 |].
      cbn beta; intros a b Ha Hb; rewrite zip_with_length; congruence.
Qed.


Lemma transport_add (X d1 d2 d12 : tensor) (bT bd : option nat) :
  vec_batch 6 X = Some bT -> vec_batch 3 d1 = Some bd -> vec_batch 3 d2 = Some bd ->
  batch_compatible bT bd = true ->
  match d1, d2 with
  | T1 v1, T1 v2 => d12 = T1 (zip_with kadd v1 v2)
  | T2 a1, T2 a2 => d12 = T2 (zip_with (zip_with kadd) a1 a2) /\ length a1 = length a2
  | _, _ => False
  end ->
  transport (transport X d1) d2 = transport X d12.
Proof.
  intros HX H1 H2 Hc Hd.
  apply vec_batch_inv in HX as [(tw & -> & Ht & ->)|(tws & -> & Ht & ->)];
    apply vec_batch_inv in H1 as [(v1 & -> & Hv1 & ->)|(a1 & -> & Ha1 & ->)];
    apply vec_batch_inv in H2 as [(v2 & -> & Hv2 & E)|(a2 & -> & Ha2 & E)];
    try discriminate E; try contradiction; cbn [transport].
  - subst d12; cbn [transport]. f_equal. apply transport_row_add; assumption.
  - destruct Hd as [-> Hl]; cbn [transport]. f_equal.
    apply rows_ok_Forall in Ha1, Ha2. clear E Hc.
    revert a2 Ha2 Hl.
    induction Ha1 as [|r1 a1 Hr1 _ IH]; intros [|r2 a2] Ha2 Hl; try discriminate;
      [reflexivity|].
    inversion Ha2; subst.
    unfold zip_with in *; cbn [List.map combine fst snd].
    f_equal; [apply transport_row_add; assumption|].
    apply IH; [assumption | injection Hl; auto].
  - subst d12; cbn [transport]. f_equal. rewrite map_map.
    apply rows_ok_Forall in Ht. clear Hc.
    induction Ht as [|tw tws Htw _ IH]; [reflexivity|].
    cbn [List.map]. f_equal; [apply transport_row_add; assumption | exact IH].
  - destruct Hd as [-> Hl]; cbn [transport]. f_equal.
    cbn in Hc; apply Nat.eqb_eq in Hc.
    apply rows_ok_Forall in Ht, Ha1, Ha2. clear E.
    revert a1 a2 Ha1 Ha2 Hl Hc.
    induction Ht as [|tw tws Htw _ IH]; intros [|r1 a1] [|r2 a2] Ha1 Ha2 Hl Hc;
      try discriminate; [reflexivity|].
    inversion Ha1; inversion Ha2; subst.
    unfold zip_with in *; cbn [List.map combine fst snd].
    f_equal; [apply transport_row_add; assumption|].
    apply IH; try assumption; [injection Hl; auto | injection Hc; auto].
Qed.

(** C9. Transporting a twist by [d1] and then by [d2] is transporting it
    once by [d1 + d2], for displacements of one batching that fits the
    twist's: both calls return the same twist, whose value is the transport
    law of the spec (the linear part gains angular x displacement, the
    angular part is unchanged). *)
Theorem ref_point_twice_is_sum (T : Twist.t) (d1 d2 : tensor) (bT bd : option nat) :
  vec_batch 6 (Twist.dx T) = Some bT ->
  vec_batch 3 d1 = Some bd ->
  vec_batch 3 d2 = Some bd ->
  batch_compatible bT bd = true ->
  exists d12 R,
    Tensor.add d1 d2 = Ok d12 /\
    (T' <- Twist.ref_point T d1 ;; Twist.ref_point T' d2) = Ok R /\
    Twist.ref_point T d12 = Ok R /\
    Twist.dx R = transport (Twist.dx T) d12.
Proof.
  intros HT H1 H2 Hc.
  destruct (add_displacements _ _ _ H1 H2) as (d12 & Hadd & H12 & Hform).
  destruct (ref_point_transport _ _ _ _ HT H1 Hc) as [E1 B1].
  assert (Hc' : batch_compatible (batch_join bT bd) bd = true).
  { destruct bd as [n|]; cbn; [apply Nat.eqb_refl | destruct bT; reflexivity]. }
  destruct (ref_point_transport (Twist.Twist (transport (Twist.dx T) d1))
              _ _ _ B1 H2 Hc') as [E2 _].
  destruct (ref_point_transport _ _ _ _ HT H12 Hc) as [E3 _].
  exists d12, (Twist.Twist (transport (Twist.dx T) d12)).
  repeat split; try assumption.
  rewrite E1; cbn [bind]. rewrite E2; cbn [Twist.dx].
  do 2 f_equal. eapply transport_add; eassumption.
Qed.

End TransportFacts.

(** The theorem [ref_point_twice_is_sum] at a batch of two integer twists
    and two batches of displacements. *)
Lemma ref_point_twice_is_sum_witness :
  let T := Twist.Twist (T2 [[1; 2; 3; 4; 5; 6]; [0; 1; 0; 1; 0; 2]]%Z) in
  let d1 := T2 [[1; 0; 0]; [0; 1; 0]]%Z in
  let d2 := T2 [[0; 0; 1]; [2; 2; 2]]%Z in
  vec_batch 6 (Twist.dx T) = Some (Some 2) /\
  vec_batch 3 d1 = Some (Some 2) /\
  vec_batch 3 d2 = Some (Some 2) /\
  batch_compatible (Some 2) (Some 2) = true /\
  exists d12 R,
    Tensor.add d1 d2 = Ok d12 /\
    (T' <- Twist.ref_point T d1 ;; Twist.ref_point T' d2) = Ok R /\
    Twist.ref_point T d12 = Ok R /\
    Twist.dx R = transport (Twist.dx T) d12.
Proof.
  cbv zeta.
  split; [reflexivity|]. split; [reflexivity|]. split; [reflexivity|].
  split; [reflexivity|].
  apply (@ref_point_twice_is_sum Z_scalars Z_scalar_ring _ _ _ (Some 2) (Some 2));
    reflexivity.
Defined.
(** ** Shapes, displacements and rotated twists *)

Section ShapeFacts.
Context {SC : Scalars}.

Lemma vec3_inv (v : list K) :
  length v = 3 -> exists x y z, v = [x; y; z].
Proof.
  intros H. do 4 (destruct v as [|? v]; try discriminate H). eauto.
Qed.

Lemma mat3_inv (a : list (list K)) :
  mat3 a = true ->
  exists a11 a12 a13 a21 a22 a23 a31 a32 a33,
    a = [[a11; a12; a13]; [a21; a22; a23]; [a31; a32; a33]].
Proof.
  unfold mat3; intros H. apply andb_true_iff in H as [Hl Hr].
  apply Nat.eqb_eq in Hl.
  destruct a as [|r1 [|r2 [|r3 [|r4 a]]]]; try discriminate Hl.
  apply rows_ok_cons in Hr as [H1 Hr].
  apply rows_ok_cons in Hr as [H2 Hr].
  apply rows_ok_cons in Hr as [H3 _].
  destruct (vec3_inv _ H1) as (? & ? & ? & ->).
  destruct (vec3_inv _ H2) as (? & ? & ? & ->).
  destruct (vec3_inv _ H3) as (? & ? & ? & ->).
  repeat eexists.
Qed.

Lemma mv_pure (a : list (list K)) (v : list K) :
  mat3 a = true -> length v = 3 ->
  Tensor.mv a v = Ok (List.map (fun r => Tensor.dot r v) a).
Proof.
  intros Ha Hv.
  destruct (mat3_inv _ Ha) as (? & ? & ? & ? & ? & ? & ? & ? & ? & ->).
  destruct (vec3_inv _ Hv) as (? & ? & ? & ->).
  reflexivity.
Qed.








End ShapeFacts.


(** ** Inverse of a frame *)

Section InverseFacts.
Context {SC : Scalars} {SR : ScalarRing SC}.

Add Ring K_ring_inverse : scalar_ring.

(** Closes [x = 0] for an entry [x] of the translation of [A * inv A],
    from three of the equations of orthonormality. *)
Ltac ortho_entry Ea Eb Ec p1 p2 p3 pi :=
  match type of Ea with
  | ?La = _ =>
      match type of Eb with
      | ?Lb = _ =>
          match type of Ec with
          | ?Lc = _ =>
              transitivity
                (kadd (kopp (kadd (kmul La p1) (kadd (kmul Lb p2) (kmul Lc p3)))) pi);
              [ring | rewrite Ea, Eb, Ec; ring]
          end
      end
  end.

(** X3. On one frame with an orthonormal rotation, composing the frame
    with its inverse, [A * A.inv()], gives the identity frame: the zero
    translation and the identity rotation. *)
Lemma inv_unbatched_compose (v : list K) (a : list (list K)) :
  length v = 3 -> orthonormal a ->
  (i <- Frame.inv (Frame.Frame (T1 v) (T2 a)) ;;
   Frame.mul (Frame.Frame (T1 v) (T2 a)) i) = Ok Frame.identity.
Proof.
  intros Hv (Ha & Hr & Ho).
  do 4 (destruct v as [|? v]; try discriminate Hv).
  do 4 (destruct a as [|? a]; try discriminate Ha).
  apply rows_ok_cons in Hr as [H1 Hr].
  apply rows_ok_cons in Hr as [H2 Hr].
  apply rows_ok_cons in Hr as [H3 _].
  do 4 (destruct l as [|? l]; try discriminate H1).
  do 4 (destruct l0 as [|? l0]; try discriminate H2).
  do 4 (destruct l1 as [|? l1]; try discriminate H3).
  cbn in Ho. injection Ho as E11 E12 E13 E21 E22 E23 E31 E32 E33.
  cbn.
  match goal with
  | |- Ok {| Frame.p := T1 [?x1; ?x2; ?x3]; Frame.m := _ |} = _ =>
      assert (X1 : x1 = k0) by ortho_entry E11 E12 E13 k k2 k3 k;
      assert (X2 : x2 = k0) by ortho_entry E21 E22 E23 k k2 k3 k2;
      assert (X3 : x3 = k0) by ortho_entry E31 E32 E33 k k2 k3 k3
  end.
  rewrite X1, X2, X3, E11, E12, E13, E21, E22, E23, E31, E32, E33.
  reflexivity.
Qed.

(** C2, on a batch.  [Frame.inv] is written for one frame: on a batch
    of frames with 3 x 3 rotations its [tf.matmul] multiplies the
    transposed rotations, of shape (N, 3, 3), by the translations expanded
    to (N, 1, 3), and raises; composing a batched frame with its inverse
    therefore raises instead of giving the identity. *)
Theorem inv_compose_batched_raises (v : list K) (ps : list (list K))
  (a : list (list K)) (ms : list (list (list K))) :
  length a = 3 -> rows_ok 3 a = true ->
  (i <- Frame.inv (Frame.Frame (T2 (v :: ps)) (T3 (a :: ms))) ;;
   Frame.mul (Frame.Frame (T2 (v :: ps)) (T3 (a :: ms))) i) = Raise ValueError.
Proof.
  intros Ha Hr.
  destruct a as [|r1 [|r2 [|r3 [|r4 a]]]]; try discriminate Ha.
  apply rows_ok_cons in Hr as [H1 Hr].
  apply rows_ok_cons in Hr as [H2 Hr].
  apply rows_ok_cons in Hr as [H3 _].
  destruct r1 as [|x1 [|x2 [|x3 [|x4 r1]]]]; try discriminate H1.
  destruct r2 as [|y1 [|y2 [|y3 [|y4 r2]]]]; try discriminate H2.
  destruct r3 as [|z1 [|z2 [|z3 [|z4 r3]]]]; try discriminate H3.
  reflexivity.
Qed.

End InverseFacts.

(** ** Forward kinematics *)

Section ForwardKinematics.
Context {SC : Scalars}.

Lemma py_last_snoc {A} (l : list A) (a : A) : py_last (l ++ [a]) = Ok a.
Proof.
  unfold py_last; rewrite rev_unit; reflexivity.
Qed.

Lemma py_last_nth_error {A} (l : list A) (a : A) :
  py_last l = Ok a -> nth_error l (length l - 1) = Some a.
Proof.
  destruct l as [|x l] using rev_ind; [discriminate|].
  rewrite py_last_snoc; intros H; injection H as <-.
  rewrite length_app; cbn [length].
  replace (length l + 1 - 1) with (length l) by lia.
  rewrite nth_error_app2 by lia. rewrite Nat.sub_diag; reflexivity.
Qed.

(** The loop of [Chain.xs] from any state: one pose is appended per
    segment, each is the previous one composed with the segment's local
    pose, and the joint index advances at the actuated segments only. *)
Lemma xs_fold_spec (q : qarg) (gl : bool) (segs : list Segment.t) :
  forall j0 p0 l0 j p links,
  foldM (Chain.xs_body q gl) segs (j0, p0, l0) = Ok (j, p, links) ->
  j = j0 + length (filter Segment.actuated segs) /\
  exists ps,
    p = p0 ++ ps /\ length ps = length segs /\
    forall i seg, nth_error segs i = Some seg ->
      exists prev local cur,
        nth_error p (length p0 - 1 + i) = Some prev /\
        nth_error p (length p0 + i) = Some cur /\
        Chain.local_pose q (j0 + length (filter Segment.actuated (firstn i segs))) seg
          = Ok local /\
        Frame.mul prev local = Ok cur.
Proof.
  induction segs as [|seg0 segs IH]; intros j0 p0 l0 j p links H.
  - cbn in H; injection H as <- <- <-.
    split; [cbn; lia|]. exists []. rewrite app_nil_r.
    repeat split; intros i seg Hi; destruct i; discriminate.
  - cbn [foldM] in H. bind_inv H. destruct a as [[j1 p1] l1].
    unfold Chain.xs_body in E.
    bind_inv E. rename a into prev, E0 into Hprev.
    bind_inv E. rename a into local, E0 into Hlocal.
    bind_inv E. rename a into cur, E0 into Hcur.
    bind_inv E. injection E as <- <- <-.
    apply IH in H as (Hj & ps & -> & Hlen & Hstep).
    split.
    { subst j; cbn [filter]. destruct (Segment.actuated seg0); cbn [length]; lia. }
    exists (cur :: ps). rewrite <- app_assoc. cbn [app length].
    repeat split; [lia|].
    assert (Hp0 : length p0 >= 1).
    { destruct p0; [discriminate Hprev | cbn; lia]. }
    intros i seg Hi. destruct i as [|i].
    + cbn in Hi; injection Hi as <-.
      exists prev, local, cur. rewrite !Nat.add_0_r. cbn [firstn filter length].
      repeat split; try assumption.
      * rewrite nth_error_app1 by lia. apply py_last_nth_error; assumption.
      * rewrite nth_error_app2 by lia. rewrite Nat.sub_diag; reflexivity.
    + cbn [nth_error] in Hi. destruct (Hstep i seg Hi) as (pv & lc & cr & H1 & H2 & H3 & H4).
      exists pv, lc, cr.
      rewrite length_app in H1, H2; cbn [length] in H1, H2.
      rewrite <- app_assoc in H1, H2. cbn [app] in H1, H2.
      repeat split; try assumption.
      * replace (length p0 - 1 + S i) with (length p0 + 1 - 1 + i) by lia; assumption.
      * replace (length p0 + S i) with (length p0 + 1 + i) by lia; assumption.
      * cbn [firstn filter].
        destruct (Segment.actuated seg0); cbn [length];
          [rewrite Nat.add_succ_r|]; assumption.
Qed.


Lemma xs_loop_spec (self : Chain.t) (q : qarg) (fb : floating_base) (gl : bool)
  (j : nat) (p links : list Frame.t) :
  Chain.xs_loop self q fb gl = Ok (j, p, links) ->
  j = Chain.nb_joint self /\
  exists base,
    base_frame fb = Ok base /\
    length p = S (Chain.nb_segm self) /\
    nth_error p 0 = Some base /\
    forall i seg, nth_error (Chain.segments self) i = Some seg ->
      exists prev local cur,
        nth_error p i = Some prev /\
        nth_error p (S i) = Some cur /\
        Chain.local_pose q (Chain.joints_before self i) seg = Ok local /\
        Frame.mul prev local = Ok cur.
Proof.
  unfold Chain.xs_loop; intros H. bind_inv H. rename a into base.
  apply xs_fold_spec in H as (Hj & ps & -> & Hlen & Hstep).
  split; [exact Hj|]. exists base.
  split; [assumption|].
  split; [cbn [app length]; unfold Chain.nb_segm; lia|].
  split; [reflexivity|].
  intros i seg Hi. destruct (Hstep i seg Hi) as (pv & lc & cr & H1 & H2 & H3 & H4).
  exists pv, lc, cr. cbn [length] in H1, H2.
  repeat split; assumption.
Qed.

Lemma mapM_Forall {A B} (g : A -> result B) (l : list A) (l' : list B) :
  mapM g l = Ok l' -> Forall (fun a => exists b, g a = Ok b) l.
Proof.
  revert l'; induction l as [|a l IH]; intros l' H; [constructor|].
  cbn in H. bind_inv H. bind_inv H. constructor; eauto.
Qed.

Lemma py_last_In {A} (l : list A) (a : A) : py_last l = Ok a -> In a l.
Proof.
  destruct l as [|x l] using rev_ind; [discriminate|].
  rewrite py_last_snoc; intros H; injection H as <-.
  apply in_or_app; right; left; reflexivity.
Qed.

Lemma py_setitem_length {A} (l : list A) (i : nat) (v : A) (l' : list A) :
  py_setitem l i v = Ok l' -> length l' = length l.
Proof.
  revert i l'; induction l as [|a l IH]; intros [|i] l' H; cbn in H;
    try discriminate.
  - injection H as <-; reflexivity.
  - bind_inv H. injection H as <-. cbn; f_equal; eauto.
Qed.

(** [tf.stack] keeps one entry per stacked tensor. *)
Lemma stack_entries (l : list tensor) (s last : tensor) :
  Tensor.stack l = Ok s -> py_last l = Ok last ->
  match Tensor.ndims last with
  | 1 => exists a, s = T2 a /\ length a = length l
  | 2 => exists b, s = T3 b /\ length b = length l
  | _ => True
  end.
Proof.
  intros Hs Hl. apply py_last_In in Hl.
  destruct l as [|x0 l]; [discriminate|].
  destruct x0 as [c|v|a|b]; cbn [Tensor.stack] in Hs; try discriminate;
    bind_inv Hs;
    pose proof (mapM_length _ _ _ E) as Hlen;
    apply mapM_Forall in E; rewrite Forall_forall in E;
    destruct (E _ Hl) as [y Hy];
    destruct last; try discriminate Hy; cbn [Tensor.ndims]; auto.
  - destruct (Tensor.rect2 a); [|discriminate]. injection Hs as <-; eauto.
  - destruct (Tensor.rect3 a0); [|discriminate]. injection Hs as <-; eauto.
Qed.

(** [stack_batch] stacks one pose per entry of its list. *)
Lemma stack_batch_entries (vecs : list tensor) (v : value) :
  stack_batch vecs = Ok v -> v <> VNotImplementedError ->
  holds_poses (length vecs) v.
Proof.
  unfold stack_batch; intros H Hv.
  bind_inv H. bind_inv H. rename a into first, a0 into last.
  bind_inv H. rename a into vecs'.
  assert (Hlen : length vecs' = length vecs).
  { destruct (Nat.ltb (Tensor.ndims first) (Tensor.ndims last)).
    - bind_inv E1. bind_inv E1. eapply py_setitem_length; eauto.
    - injection E1 as <-; reflexivity. }
  bind_inv H. rename a into last'.
  destruct (Nat.eqb (Tensor.ndims last') 1) eqn:N1.
  - bind_inv H. injection H as <-. apply Nat.eqb_eq in N1.
    pose proof (stack_entries _ _ _ E3 E2) as Hs. rewrite N1 in Hs.
    destruct Hs as (a' & -> & Ha). cbn. congruence.
  - destruct (Nat.eqb (Tensor.ndims last') 2) eqn:N2.
    + bind_inv H. bind_inv H. injection H as <-. apply Nat.eqb_eq in N2.
      pose proof (stack_entries _ _ _ E3 E2) as Hs. rewrite N2 in Hs.
      destruct Hs as (b & -> & Hb). cbn in E4. injection E4 as <-. cbn.
      apply Forall_map, Forall_forall; intros i _.
      rewrite length_map; congruence.
    + injection H as <-. contradiction.
Qed.




Lemma firstn_S_nth {A} (l : list A) :
  forall k x, nth_error l k = Some x -> firstn (S k) l = firstn k l ++ [x].
Proof.
  induction l as [|a l IH]; intros [|k] x Hk; try discriminate.
  - cbn in Hk; injection Hk as ->; reflexivity.
  - cbn in Hk. cbn [firstn app]. f_equal. apply IH; assumption.
Qed.

Lemma joints_before_S (self : Chain.t) (k : nat) (seg : Segment.t) :
  nth_error (Chain.segments self) k = Some seg ->
  Chain.joints_before self (S k)
  = if Segment.actuated seg then S (Chain.joints_before self k)
    else Chain.joints_before self k.
Proof.
  intros Hk. unfold Chain.joints_before.
  rewrite (firstn_S_nth _ _ _ Hk), filter_app, length_app. cbn [filter].
  destruct (Segment.actuated seg); cbn [length]; lia.
Qed.

(** The loop of [Chain.ee_frame] on a rank 1 joint vector: the joint
    index advances by one per actuated segment, and the last value read
    lies inside the vector. *)
Lemma ee_fold_joint_index (self : Chain.t) (v : list K) (len : nat) :
  forall a j0 p0 j p,
  foldM (Chain.ee_body self (T1 v)) (seq a len) (j0, p0) = Ok (j, p) ->
  let read := length (filter Segment.actuated
                        (firstn len (skipn a (Chain.segments self)))) in
  j = j0 + read /\ (read > 0 -> j <= length v).
Proof.
  induction len as [|len IH]; intros a j0 p0 j p H; cbn zeta.
  - cbn in H; injection H as <- <-. cbn. split; lia.
  - cbn [seq foldM] in H. bind_inv H. destruct a0 as [j1 p1].
    unfold Chain.ee_body in E. bind_inv E. rename a0 into seg.
    unfold py_index in E0.
    destruct (nth_error (Chain.segments self) a) as [seg'|] eqn:Hn; [|discriminate].
    injection E0 as ->.
    assert (Hs : skipn a (Chain.segments self)
                 = seg :: skipn (S a) (Chain.segments self)).
    { clear - Hn. revert a Hn.
      induction (Chain.segments self) as [|s l IHl]; intros [|a] Hn;
        try discriminate; cbn in *.
      - injection Hn as ->; reflexivity.
      - apply IHl; assumption. }
    rewrite Hs; cbn [firstn filter].
    apply IH in H; cbn zeta in H. destruct H as [Hj Hle].
    destruct (Segment.actuated seg).
    + cbn [Tensor.ndims Nat.eqb] in E.
      bind_inv E. bind_inv E. bind_inv E. bind_inv E. injection E as <- <-.
      cbn [Tensor.get0] in E1.
      destruct (nth_error v j0) eqn:Hq; [|discriminate].
      assert (j0 < length v) by (apply nth_error_Some; congruence).
      cbn [length]. split; [lia|]. intros _.
      destruct (length (filter Segment.actuated
                          (firstn len (skipn (S a) (Chain.segments self))))); lia.
    + bind_inv E. bind_inv E. bind_inv E. injection E as <- <-.
      split; [lia | exact Hle].
Qed.

(** C6. [Chain.ee_frame] gives [q[0]] to the first segment whatever its
    joint and starts its loop at index 1: for a chain that starts with a
    fixed segment and has an actuated one, and a joint vector with one
    value per actuated segment, the last actuated segment reads past the
    end of the vector and the call raises. *)
Theorem ee_frame_fixed_first_raises (self : Chain.t) (seg0 : Segment.t)
  (rest : list Segment.t) (v : list K) (layout : FkLayout.t) :
  Chain.segments self = seg0 :: rest ->
  Segment.actuated seg0 = false ->
  Chain.nb_joint self >= 1 ->
  length v = Chain.nb_joint self ->
  exists e, Chain.ee_frame self (QTensor (T1 v)) 0 layout = Raise e.
Proof.
  intros Hsegs Hfix Hnb Hv.
  destruct (Chain.ee_frame self (QTensor (T1 v)) 0 layout) as [r|e] eqn:H;
    [exfalso | eauto].
  unfold Chain.ee_frame in H. cbn [Chain.q_tensor bind Tensor.ndims Nat.eqb] in H.
  bind_inv H. bind_inv H. destruct a0 as [j p].
  unfold Chain.range, Chain.segments_kept, Chain.nb_segm in E0.
  rewrite Z.sub_0_r, Nat2Z.id in E0.
  apply ee_fold_joint_index in E0; cbn zeta in E0. destruct E0 as [Hj Hle].
  unfold Chain.nb_joint in Hnb, Hv. rewrite Hsegs in Hnb, Hv, Hj, Hle.
  cbn [skipn length filter] in Hnb, Hv, Hj, Hle. rewrite Hfix in Hnb, Hv.
  replace (S (length rest) - 1) with (length rest) in Hj, Hle by lia.
  rewrite firstn_all in Hj, Hle. lia.
Qed.

End ForwardKinematics.

(** ** The Jacobian by twist propagation *)

Section JacobianFacts.
Context {SC : Scalars} {SR : ScalarRing SC}.

Lemma mapM_Forall2 {A B} (g : A -> result B) (l : list A) (l' : list B) :
  mapM g l = Ok l' -> Forall2 (fun a b => g a = Ok b) l l'.
Proof.
  revert l'; induction l as [|a l IH]; intros l' H; cbn in H.
  - injection H as <-; constructor.
  - bind_inv H. bind_inv H. injection H as <-. constructor; auto.
Qed.

Lemma jacobian_steps_S (self : Chain.t) (q : qarg) (fb : floating_base) (k : nat) :
  Chain.jacobian_steps self q fb (S k)
  = (st <- Chain.jacobian_steps self q fb k ;; Chain.jacobian_body self q st k).
Proof.
  unfold Chain.jacobian_steps, Chain.range.
  rewrite !Nat.sub_0_r, seq_S. cbn [Nat.add].
  destruct (base_frame fb) as [base|e]; cbn [bind]; [|reflexivity].
  rewrite foldM_app. cbn [foldM].
  destruct (foldM _ _ _) as [st|e]; cbn [bind]; [|reflexivity].
  destruct (Chain.jacobian_body self q st k); reflexivity.
Qed.

(** The joint index of [Chain.jacobian] before the segment of index
    [k] is the number of actuated segments passed. *)
Lemma jacobian_steps_joint_index (self : Chain.t) (q : qarg) (fb : floating_base) :
  forall k st,
  Chain.jacobian_steps self q fb k = Ok st ->
  Chain.j st = Chain.joints_before self k.
Proof.
  induction k as [|k IH]; intros st H.
  - unfold Chain.jacobian_steps in H. bind_inv H. cbn in H.
    injection H as <-. reflexivity.
  - rewrite jacobian_steps_S in H. bind_inv H. rename a into st0.
    specialize (IH st0 E).
    unfold Chain.jacobian_body, py_index in H.
    destruct (nth_error (Chain.segments self) k) as [seg|] eqn:Hk; [|discriminate].
    cbn [bind] in H. rewrite (joints_before_S _ _ _ Hk).
    bind_inv H. destruct a as [tot t_tmp]. bind_inv H.
    destruct (Segment.actuated seg).
    + do 5 bind_inv E0. injection E0 as <- <-. injection H as <-. cbn. congruence.
    + bind_inv E0. injection E0 as <- <-. injection H as <-. cbn. congruence.
Qed.


(** With fixed segments only, no twist column is ever appended. *)
Lemma fixed_only_columns (self : Chain.t) (q : qarg) (idxs : list nat) :
  forallb (fun seg => negb (Segment.actuated seg)) (Chain.segments self) = true ->
  forall st st',
  Chain.jac st = [] ->
  foldM (Chain.jacobian_body self q) idxs st = Ok st' ->
  Chain.jac st' = [].
Proof.
  intros Hfix. rewrite forallb_forall in Hfix.
  induction idxs as [|i idxs IH]; intros st st' Hjac H; cbn [foldM] in H.
  - injection H as <-; assumption.
  - bind_inv H. rename a into st1. apply (IH st1); [|assumption].
    unfold Chain.jacobian_body, py_index in E.
    destruct (nth_error (Chain.segments self) i) as [seg|] eqn:Hn; [|discriminate].
    cbn [bind] in E. apply nth_error_In in Hn. apply Hfix in Hn.
    apply negb_true_iff in Hn. rewrite Hn, Hjac in E.
    bind_inv E. destruct a as [tot t_tmp].
    bind_inv E0. injection E0 as <- <-.
    cbn [bind] in E. injection E as <-. reflexivity.
Qed.

(** C8. For a chain of fixed segments only, [nb_joint] is 0 and
    [Chain.jacobian] never returns: in every layout it raises, and once
    the loop is through the error is the [IndexError] of [stack_batch]
    reading [vecs[0]] in an empty list of columns. *)
Theorem fixed_only_jacobian_raises (self : Chain.t) (q : qarg) (n : Z)
  (layout : FkLayout.t) (fb : floating_base) :
  forallb (fun seg => negb (Segment.actuated seg)) (Chain.segments self) = true ->
  Chain.nb_joint self = 0 /\
  (exists e, Chain.jacobian self q n layout fb = Raise e) /\
  (forall st, Chain.jacobian_loop self q n fb = Ok st ->
     layout <> FkLayout.f ->
     Chain.jacobian self q n layout fb = Raise IndexError).
Proof.
  intros Hfix. split; [|].
  - unfold Chain.nb_joint.
    induction (Chain.segments self) as [|seg segs IH]; [reflexivity|].
    cbn in Hfix |- *. apply andb_prop in Hfix as [H1 H2].
    apply negb_true_iff in H1. rewrite H1. auto.
  - assert (Hloop : forall st, Chain.jacobian_loop self q n fb = Ok st ->
                               Chain.jac st = []).
    { intros st H. unfold Chain.jacobian_loop, Chain.jacobian_steps in H.
      bind_inv H. eapply fixed_only_columns; [exact Hfix | | exact H]. reflexivity. }
    assert (Hraise : forall st, Chain.jacobian_loop self q n fb = Ok st ->
              layout <> FkLayout.f ->
              Chain.jacobian self q n layout fb = Raise IndexError).
    { intros st H Hl. unfold Chain.jacobian. rewrite H. cbn [bind].
      rewrite (Hloop st H). destruct layout; try reflexivity. contradiction. }
    split; [|exact Hraise].
    destruct (Chain.jacobian_loop self q n fb) as [st|e] eqn:H.
    + destruct layout;
        try (exists IndexError; apply (Hraise st); [reflexivity | discriminate]).
      exists NotImplementedError. unfold Chain.jacobian. rewrite H. reflexivity.
    + exists e. unfold Chain.jacobian. rewrite H. reflexivity.
Qed.

End JacobianFacts.

(** ** Layouts and the center of mass *)

Section LayoutFacts.
Context {SC : Scalars}.

Lemma return_frame_xq_list (p : list Frame.t) :
  p <> [] -> return_frame (Listed p) FkLayout.xq = Raise NotImplementedError.
Proof.
  destruct p as [|fr p]; [contradiction | reflexivity].
Qed.

(** The lists of poses and of link poses of [Chain.xs] are never empty:
    both start with the base frame. *)
Lemma xs_fold_nonempty (q : qarg) (gl : bool) (segs : list Segment.t) :
  forall j0 p0 l0 j p links,
  foldM (Chain.xs_body q gl) segs (j0, p0, l0) = Ok (j, p, links) ->
  p0 <> [] -> l0 <> [] -> p <> [] /\ links <> [].
Proof.
  induction segs as [|seg segs IH]; intros j0 p0 l0 j p links H Hp Hl.
  - cbn in H; injection H as <- <- <-; auto.
  - cbn [foldM] in H. bind_inv H. destruct a as [[j1 p1] l1].
    unfold Chain.xs_body in E.
    bind_inv E. bind_inv E. bind_inv E. bind_inv E. injection E as <- <- <-.
    apply IH in H; [assumption | |].
    + destruct p0; discriminate.
    + destruct gl; [destruct (Segment.link seg)|].
      * bind_inv E3. injection E3 as <-. destruct l0; discriminate.
      * injection E3 as <-; assumption.
      * injection E3 as <-; assumption.
Qed.

Lemma bind_assoc {A B C} (r : result A) (g : A -> result B) (h : B -> result C) :
  bind (bind r g) h = bind r (fun a => bind (g a) h).
Proof.
  destruct r; reflexivity.
Qed.

(** C5, as the code has it.  The quaternion layout raises
    [NotImplementedError] in the serialization of a pose and, once the
    loop over the segments is through, in [Chain.xs]; [Chain.ee_frame]
    never returns a value for it.  [Chain.jacobian] does not raise for it:
    its [xq] branch returns the stacked twist columns, the matrix of which
    the layout [x] keeps the first three rows. *)
Theorem xq_layout_raises_except_in_jacobian (self : Chain.t) (q : qarg) (n : Z)
  (fb : floating_base) (get_links : bool) (fr : Frame.t) :
  return_frame (Single fr) FkLayout.xq = Raise NotImplementedError /\
  Chain.xs self q FkLayout.xq fb get_links
  = (_ <- Chain.xs_loop self q fb get_links ;; Raise NotImplementedError) /\
  is_ok (Chain.ee_frame self q n FkLayout.xq) = false /\
  Chain.jacobian self q n FkLayout.xq fb
  = (st <- Chain.jacobian_loop self q n fb ;;
     stacked <- stack_batch (List.map Twist.dx (Chain.jac st)) ;;
     transpose_stacked stacked) /\
  Chain.jacobian self q n FkLayout.x fb
  = (t <- Chain.jacobian self q n FkLayout.xq fb ;; Tensor.upto1 3 t).
Proof.
  split; [reflexivity|]. split; [|split; [|split]].
  - unfold Chain.xs.
    destruct (Chain.xs_loop self q fb get_links) as [[[j p] links]|e] eqn:H;
      cbn [bind]; [|reflexivity].
    unfold Chain.xs_loop in H. bind_inv H.
    apply xs_fold_nonempty in H as [Hp Hl]; try discriminate.
    destruct get_links; rewrite return_frame_xq_list by assumption; reflexivity.
  - unfold Chain.ee_frame.
    destruct (Chain.q_tensor q) as [x|]; cbn [bind]; [|reflexivity].
    match goal with |- is_ok (bind ?r _) = _ => destruct r as [p0|] end;
      cbn [bind]; [|reflexivity].
    destruct (foldM _ _ _) as [[j p]|]; cbn [bind]; [|reflexivity].
    destruct (Chain.bound p); reflexivity.
  - reflexivity.
  - unfold Chain.jacobian. rewrite bind_assoc.
    destruct (Chain.jacobian_loop self q n fb) as [st|]; cbn [bind]; [|reflexivity].
    rewrite bind_assoc. reflexivity.
Qed.

End LayoutFacts.

(** ** The center of mass of a chain without mass *)

Section MasslessChain.
Context {SC : Scalars} {SR : ScalarRing SC}.

Add Ring K_ring_mass : scalar_ring.

Local Abbreviation zero := (fun e : K => e = k0).

Lemma mapM_image {A B} (g : A -> result B) (Q : B -> Prop) (l : list A) (l' : list B) :
  (forall a b, In a l -> g a = Ok b -> Q b) -> mapM g l = Ok l' -> Forall Q l'.
Proof.
  revert l'; induction l as [|a l IH]; intros l' Hg H; cbn in H.
  - injection H as <-; constructor.
  - bind_inv H. bind_inv H. injection H as <-.
    constructor; [apply (Hg a); [left; reflexivity | assumption]|].
    apply IH; [|assumption]. intros; eapply Hg; [right|]; eauto.
Qed.

Lemma zipM_image {A B C} (g : A -> B -> result C) (Q : C -> Prop) la :
  forall lb lc,
  (forall a b c, In a la -> In b lb -> g a b = Ok c -> Q c) ->
  zipM g la lb = Ok lc -> Forall Q lc.
Proof.
  induction la as [|a la IH]; intros [|b lb] lc Hg H; cbn in H; try discriminate.
  - injection H as <-; constructor.
  - bind_inv H. bind_inv H. injection H as <-.
    constructor; [apply (Hg a b); [left | left |]; auto|].
    apply (IH lb); [|assumption]. intros; eapply Hg; [right | right |]; eauto.
Qed.

(** What a broadcast operation returns is made of results of the
    operation on entries of its operands. *)
Lemma bcast_image {A B C} (g : A -> B -> result C) (Q : C -> Prop) la lb lc :
  (forall a b c, In a la -> In b lb -> g a b = Ok c -> Q c) ->
  bcast g la lb = Ok lc -> Forall Q lc.
Proof.
  intros Hg. unfold bcast.
  destruct (Nat.eqb (length la) (length lb)); [apply zipM_image; assumption|].
  destruct la as [|a [|a' la]].
  - destruct lb as [|b [|b' lb]]; try discriminate.
    apply mapM_image. intros x c Hx Hc. destruct Hx.
  - apply mapM_image. intros b c Hb Hc. apply (Hg a b); [left| |]; auto.
  - destruct lb as [|b [|b' lb]]; try discriminate.
    apply mapM_image. intros x c Hx Hc. apply (Hg x b); [|left|]; auto.
Qed.

Lemma mul_zero_rows (r s t : list K) :
  Forall zero r -> Tensor.bc1 kmul r s = Ok t -> Forall zero t.
Proof.
  intros Hr. apply bcast_image. intros a b c Ha _ Hc.
  rewrite Forall_forall in Hr. rewrite (Hr a Ha) in Hc.
  injection Hc as <-. ring.
Qed.

Lemma mul_zero_matrices (a b c : list (list K)) :
  Forall (Forall zero) a -> Tensor.bc2 kmul a b = Ok c -> Forall (Forall zero) c.
Proof.
  intros Ha. apply bcast_image. intros r s t Hr _ Ht.
  rewrite Forall_forall in Ha.
  apply (mul_zero_rows r s t); [apply Ha; assumption | exact Ht].
Qed.

Lemma mul_zero_batches (a b c : list (list (list K))) :
  Forall (Forall (Forall zero)) a -> Tensor.bc3 kmul a b = Ok c ->
  Forall (Forall (Forall zero)) c.
Proof.
  intros Ha. apply bcast_image. intros r s t Hr _ Ht.
  rewrite Forall_forall in Ha.
  apply (mul_zero_matrices r s t); [apply Ha; assumption | exact Ht].
Qed.

Lemma sum_zero (v : list K) : Forall zero v -> Tensor.sum v = k0.
Proof.
  induction 1 as [|e v He _ IH]; [reflexivity|].
  cbn. unfold Tensor.sum in IH. rewrite IH, He. ring.
Qed.

Lemma sum_rows_zero (a : list (list K)) :
  Forall (Forall zero) a -> Forall zero (Tensor.sum_rows a).
Proof.
  intros Ha. unfold Tensor.sum_rows, Tensor.transpose2.
  rewrite map_map. apply Forall_map, Forall_forall. intros j _.
  apply sum_zero. unfold Tensor.column. apply Forall_map.
  eapply Forall_impl; [|exact Ha]. cbn beta. intros r Hr.
  destruct (nth_in_or_default j r k0) as [Hin|Hd]; [|assumption].
  rewrite Forall_forall in Hr. apply Hr; assumption.
Qed.

(** When every link of the chain has mass zero, each component of the
    center of mass that [Chain.xs] returns is the quotient 0 / 0. *)
Lemma massless_center_of_mass (self : Chain.t) (links_stacked : value)
  (total : tensor) :
  Forall zero (Chain.link_masses self) ->
  Chain.weighted_positions self links_stacked = Ok total ->
  Chain.mass self = k0 /\
  Forall (fun e => e = kdiv k0 k0)
         (Tensor.flatten (Tensor.div_scalar total (Chain.mass self))).
Proof.
  intros Hm H.
  assert (Hmass : Chain.mass self = k0).
  { unfold Chain.mass.
    assert (G : forall acc, acc = k0 ->
                fold_left kadd (Chain.link_masses self) acc = k0).
    { induction Hm as [|m ms Hm0 _ IH]; intros acc Hacc; [assumption|].
      cbn. apply IH. rewrite Hacc, Hm0. ring. }
    apply G; reflexivity. }
  split; [exact Hmass|]. rewrite Hmass.
  unfold Chain.weighted_positions, Chain.masses in H.
  cbn [Tensor.expand02 bind] in H.
  bind_inv H. rename a into pos.
  bind_inv H. rename a into weighted.
  unfold Tensor.mul, Tensor.binop in E0. bind_inv E0. injection E0 as <-.
  apply mul_zero_batches in E1.
  2:{ cbn [Tensor.up3]. repeat constructor.
      apply Forall_map. eapply Forall_impl; [|exact Hm].
      cbn beta; intros m Hm0; repeat constructor; assumption. }
  assert (Hsum : Tensor.reduce_sum_rows (T3 a) = Ok total)
    by (destruct pos; exact H).
  clear H. cbn [Tensor.reduce_sum_rows] in Hsum. injection Hsum as <-.
  unfold Tensor.flatten. cbn [Tensor.div_scalar Tensor.map Tensor.up3 List.concat].
  rewrite app_nil_r. apply Forall_concat.
  rewrite !Forall_map. eapply Forall_impl; [|exact E1].
  cbn beta. intros b Hb. apply Forall_map.
  eapply Forall_impl; [|exact (sum_rows_zero b Hb)].
  cbn beta. intros e He. rewrite He. reflexivity.
Qed.

(** C7, as the code has it.  [Chain.xs] with [get_links] makes no test of
    the total mass: for a chain whose total mass is zero, whenever the
    poses and the link poses stack and the weighted sum of the link
    positions is formed, the call returns, and its center of mass is that
    sum divided by zero; when every link has mass zero, each of its
    components is the quotient 0 / 0. *)
Theorem xs_links_divides_by_zero_mass (self : Chain.t) (q : qarg)
  (layout : FkLayout.t) (fb : floating_base) (j : nat) (p links : list Frame.t)
  (poses links_stacked : value) (total : tensor) :
  Chain.mass self = k0 ->
  Chain.xs_loop self q fb true = Ok (j, p, links) ->
  return_frame (Listed links) layout = Ok links_stacked ->
  Chain.weighted_positions self links_stacked = Ok total ->
  return_frame (Listed p) layout = Ok poses ->
  Chain.xs self q layout fb true
  = Ok (PosesLinksCom poses links_stacked (Tensor.map (fun a => kdiv a k0) total)) /\
  (Forall (fun m => m = k0) (Chain.link_masses self) ->
   Forall (fun e => e = kdiv k0 k0)
          (Tensor.flatten (Tensor.map (fun a => kdiv a k0) total))).
Proof.
  intros Hm Hloop Hl Hw Hp. split.
  - unfold Chain.xs.
    rewrite Hloop; cbn [bind]. rewrite Hl; cbn [bind]. rewrite Hw; cbn [bind].
    rewrite Hp; cbn [bind]. rewrite Hm. reflexivity.
  - intros Hzero.
    destruct (massless_center_of_mass self links_stacked total Hzero Hw) as [_ H].
    rewrite Hm in H. exact H.
Qed.

End MasslessChain.

(** ** Chains that share a joint vector *)

Section SharedJoints.
Context {SC : Scalars}.

Lemma py_in_In (x : string) (l : list string) : py_in x l = true <-> In x l.
Proof.
  unfold py_in; rewrite existsb_exists; split.
  - intros (y & Hy & E). apply String.eqb_eq in E; subst; assumption.
  - intros H; exists x; split; [assumption | apply String.eqb_refl].
Qed.

(** [l.index(x)] is the position of the first occurrence of [x]. *)
Lemma list_index_first (x : string) (l : list string) :
  In x l ->
  exists i, list_index x l = Ok i /\ nth_error l i = Some x /\
            forall k, k < i -> nth_error l k <> Some x.
Proof.
  induction l as [|y l IH]; intros H; [contradiction|].
  cbn [list_index]. destruct (String.eqb y x) eqn:E.
  - apply String.eqb_eq in E; subst y. exists 0.
    repeat split; [intros k Hk; lia].
  - apply String.eqb_neq in E. destruct H as [H|H]; [contradiction|].
    destruct (IH H) as (i & Hi & Hn & Hfirst). exists (S i). rewrite Hi.
    repeat split; [assumption|].
    intros [|k] Hk; cbn; [congruence | apply Hfirst; lia].
Qed.









End SharedJoints.

(** ** The full-width Jacobian of a chain *)

Section AugmentedJacobian.
Context {SC : Scalars}.

(** A column, as [augment] holds it before the concatenation. *)
Local Abbreviation wrap := (fun c : list (list K) => T3 (Tensor.cells c)).

Local Abbreviation width3 w := (Forall (Forall (fun row : list K => length row = w))).












End AugmentedJacobian.

(** ** [ChainDict.jacobian] *)

Section ChainDictJacobian.
Context {SC : Scalars}.

Lemma distinct_head (k : string) (ks : list string) (key : string) :
  ChainDict.distinct (k :: ks) = true -> In key ks -> String.eqb k key = false.
Proof.
  cbn; intros H Hin. apply andb_prop in H as [H _].
  apply negb_true_iff in H. apply String.eqb_neq; intros ->.
  assert (py_in key ks = true) by (apply py_in_In; assumption). congruence.
Qed.


Lemma dict_get_In {A} (d : list (string * A)) (key : string) (v : A) :
  dict_get d key = Ok v -> In (key, v) d.
Proof.
  induction d as [|[k a] d IH]; cbn; [discriminate|].
  destruct (String.eqb k key) eqn:E.
  - intros H; injection H as <-. apply String.eqb_eq in E; subst; left; reflexivity.
  - intros H; right; auto.
Qed.

(** A loop that builds a dictionary with the keys of another. *)
Lemma mapM_keyed {A B} (body : string * A -> result (string * B))
  (l : list (string * A)) (l' : list (string * B)) :
  (forall item r, body item = Ok r -> fst r = fst item) ->
  mapM body l = Ok l' ->
  List.map fst l' = List.map fst l /\
  (ChainDict.distinct (List.map fst l) = true ->
   forall key a, In (key, a) l ->
     exists v, body (key, a) = Ok (key, v) /\ dict_get l' key = Ok v).
Proof.
  intros Hkey. revert l'; induction l as [|[k a0] l IH]; intros l' H; cbn in H.
  - injection H as <-. split; [reflexivity|]. intros _ key a [].
  - bind_inv H. destruct a as [k' v0]. bind_inv H. injection H as <-.
    pose proof (Hkey _ _ E) as Hk; cbn in Hk; subst k'.
    destruct (IH _ E0) as [Hkeys Hget].
    split; [cbn; f_equal; assumption|].
    intros Hd key x [Hin|Hin].
    + injection Hin as <- <-. exists v0. cbn. rewrite String.eqb_refl. auto.
    + assert (Hne : String.eqb k key = false).
      { apply (distinct_head k (List.map fst l)); [assumption|].
        apply in_map_iff. exists (key, x); auto. }
      cbn in Hd. apply andb_prop in Hd as [_ Hd].
      destruct (Hget Hd key x Hin) as (v & Hv & Hg).
      exists v. cbn. rewrite Hne. auto.
Qed.

Lemma Forall2_nth_error_r {A B} (R : A -> B -> Prop) (l : list A) (l' : list B) :
  Forall2 R l l' ->
  forall k b, nth_error l' k = Some b -> exists a, nth_error l k = Some a /\ R a b.
Proof.
  induction 1 as [|a0 b0 l l' H0 _ IH]; intros [|k] b Hk; cbn in Hk;
    try discriminate.
  - injection Hk as <-. exists a0; auto.
  - cbn. eauto.
Qed.


End ChainDictJacobian.
(** ** The algebra of frames *)

(** Closes an equation between two lists, or two lists of lists, of ring
    expressions, entry by entry. *)
Ltac entries_ring :=
  repeat first
    [ reflexivity
    | apply (f_equal2 (@cons _)); [first [ring | entries_ring]|] ].

Section FrameAlgebra.
Context {SC : Scalars} {SR : ScalarRing SC}.

Add Ring K_ring_frames : scalar_ring.

(** Closes [y = c1 * p1 + c2 * p2 + c3 * p3] for a coordinate [y] of
    [a * (transpose a * p)], from three of the equations of
    orthonormality, whose right sides are [c1], [c2] and [c3]. *)
Ltac ortho_coord Ea Eb Ec p1 p2 p3 :=
  match type of Ea with
  | ?La = _ =>
      match type of Eb with
      | ?Lb = _ =>
          match type of Ec with
          | ?Lc = _ =>
              transitivity (kadd (kmul La p1) (kadd (kmul Lb p2) (kmul Lc p3)));
              [ring | rewrite Ea, Eb, Ec; ring]
          end
      end
  end.

Lemma single_frame_inv (A : Frame.t) :
  single_frame A = true ->
  exists v a, A = Frame.Frame (T1 v) (T2 a) /\ length v = 3 /\ mat3 a = true.
Proof.
  destruct A as [[| v | |] [| | a |]]; cbn; try discriminate.
  intros H. apply andb_true_iff in H as [Hv Ha]. apply Nat.eqb_eq in Hv. eauto.
Qed.

Lemma mv_eye (v : list K) : length v = 3 -> Tensor.mv Tensor.eye3 v = Ok v.
Proof.
  intros H. destruct (vec3_inv _ H) as (x & y & z & ->). cbn.
  f_equal. entries_ring.
Qed.

Lemma mv_zero (a : list (list K)) :
  mat3 a = true -> Tensor.mv a [k0; k0; k0] = Ok [k0; k0; k0].
Proof.
  intros H. destruct (mat3_inv _ H) as (? & ? & ? & ? & ? & ? & ? & ? & ? & ->).
  cbn. f_equal. entries_ring.
Qed.

Lemma mm_eye_l (a : list (list K)) : mat3 a = true -> Tensor.mm Tensor.eye3 a = Ok a.
Proof.
  intros H. destruct (mat3_inv _ H) as (? & ? & ? & ? & ? & ? & ? & ? & ? & ->).
  cbn. f_equal. entries_ring.
Qed.

Lemma mm_eye_r (a : list (list K)) : mat3 a = true -> Tensor.mm a Tensor.eye3 = Ok a.
Proof.
  intros H. destruct (mat3_inv _ H) as (? & ? & ? & ? & ? & ? & ? & ? & ? & ->).
  cbn. f_equal. entries_ring.
Qed.

Lemma batch_frame_inv (n : nat) (A : Frame.t) :
  batch_frame n A = true ->
  exists ps ms, A = Frame.Frame (T2 ps) (T3 ms) /\
    length ps = n /\ Forall (fun v => length v = 3) ps /\
    length ms = n /\ Forall (fun a => mat3 a = true) ms.
Proof.
  destruct A as [[| | ps |] [| | | ms]]; cbn; try discriminate.
  intros H. repeat (apply andb_true_iff in H as [H ?]).
  apply Nat.eqb_eq in H, H1. apply rows_ok_Forall in H2.
  rewrite forallb_forall, <- Forall_forall in H0. eauto 10.
Qed.

Lemma add_zero_r_vec (v : list K) :
  length v = 3 -> Tensor.bc1 kadd v [k0; k0; k0] = Ok v.
Proof.
  intros H. destruct (vec3_inv _ H) as (x & y & z & ->). cbn. f_equal. entries_ring.
Qed.

Lemma add_zero_l_vec (v : list K) :
  length v = 3 -> Tensor.bc1 kadd [k0; k0; k0] v = Ok v.
Proof.
  intros H. destruct (vec3_inv _ H) as (x & y & z & ->). cbn. f_equal. entries_ring.
Qed.

Lemma mapM_id {A} (g : A -> result A) (l : list A) :
  Forall (fun a => g a = Ok a) l -> mapM g l = Ok l.
Proof.
  intros H. rewrite (mapM_pure g (fun a => a)) by assumption.
  rewrite map_id. reflexivity.
Qed.

Lemma zipM_snd {A B} (g : A -> B -> result B) (la : list A) (lb : list B) :
  Forall2 (fun a b => g a b = Ok b) la lb -> zipM g la lb = Ok lb.
Proof.
  induction 1 as [|a b la lb Hab _ IH]; cbn; [reflexivity|].
  rewrite Hab, IH; reflexivity.
Qed.

Lemma Forall2_repeat_l {A B} (R : A -> B -> Prop) (a : A) (lb : list B) :
  Forall (R a) lb -> Forall2 R (repeat a (length lb)) lb.
Proof.
  induction 1; cbn; constructor; assumption.
Qed.

Lemma mul_identity_l (A : Frame.t) (n : nat) :
  single_frame A = true \/ batch_frame n A = true ->
  Frame.mul Frame.identity A = Ok A.
Proof.
  intros [H|H].
  - destruct (single_frame_inv _ H) as (v & a & -> & Hv & Ha).
    destruct (vec3_inv _ Hv) as (x & y & z & ->).
    destruct (mat3_inv _ Ha) as (? & ? & ? & ? & ? & ? & ? & ? & ? & ->).
    cbn; f_equal; f_equal; f_equal; entries_ring.
  - destruct (batch_frame_inv _ _ H) as (ps & ms & -> & Hp & Hps & Hm & Hms).
    unfold Frame.mul.
    change (Frame.p Frame.identity) with (T1 [k0; k0; k0]).
    change (Frame.m Frame.identity) with (T2 Tensor.eye3).
    cbn [Frame.p Frame.m tf_utils.matvecmul tf_utils.matmatmul].
    rewrite (mapM_id (Tensor.mv Tensor.eye3) ps)
      by (eapply Forall_impl; [|exact Hps]; apply mv_eye).
    cbn [bind]. unfold Tensor.add, Tensor.binop, Tensor.bc3, Tensor.zeros.
    cbn [Tensor.up3 Tensor.ndims Nat.max repeat].
    rewrite bcast_same_length by reflexivity. cbn [zipM].
    unfold Tensor.bc2 at 1. rewrite bcast_single_r.
    rewrite (mapM_id _ ps)
      by (eapply Forall_impl; [|exact Hps]; apply add_zero_r_vec).
    cbn [bind Tensor.down hd].
    rewrite (mapM_id (Tensor.mm Tensor.eye3) ms)
      by (eapply Forall_impl; [|exact Hms]; apply mm_eye_l).
    reflexivity.
Qed.

Lemma mul_identity_r (A : Frame.t) (n : nat) :
  single_frame A = true \/ batch_frame n A = true ->
  Frame.mul A Frame.identity = Ok A.
Proof.
  intros [H|H].
  - destruct (single_frame_inv _ H) as (v & a & -> & Hv & Ha).
    destruct (vec3_inv _ Hv) as (x & y & z & ->).
    destruct (mat3_inv _ Ha) as (? & ? & ? & ? & ? & ? & ? & ? & ? & ->).
    cbn; f_equal; f_equal; f_equal; entries_ring.
  - destruct (batch_frame_inv _ _ H) as (ps & ms & -> & Hp & Hps & Hm & Hms).
    unfold Frame.mul.
    change (Frame.p Frame.identity) with (T1 [k0; k0; k0]).
    change (Frame.m Frame.identity) with (T2 Tensor.eye3).
    cbn [Frame.p Frame.m tf_utils.matvecmul tf_utils.matmatmul].
    rewrite (mapM_pure _ (fun _ => [k0; k0; k0]) ms)
      by (eapply Forall_impl; [|exact Hms]; apply mv_zero).
    cbn [bind]. unfold Tensor.add, Tensor.binop, Tensor.bc3, Tensor.zeros.
    cbn [Tensor.up3 Tensor.ndims Nat.max repeat].
    rewrite bcast_same_length by reflexivity. cbn [zipM].
    unfold Tensor.bc2 at 1.
    rewrite bcast_same_length by (rewrite length_map; congruence).
    rewrite (zipM_snd _ _ ps).
    2:{ rewrite map_const, Hm, <- Hp.
        apply Forall2_repeat_l.
        eapply Forall_impl; [|exact Hps]. apply add_zero_l_vec. }
    cbn [bind Tensor.down hd].
    rewrite (mapM_id _ ms)
      by (eapply Forall_impl; [|exact Hms]; apply mm_eye_r).
    reflexivity.
Qed.

(** X1. The identity frame [Frame()] is neutral for the composition
    [Frame.__mul__], on either side, for one frame and for a batch, and
    composing it with itself gives the identity. *)
Theorem frame_identity_neutral (A : Frame.t) (n : nat) :
  single_frame A = true \/ batch_frame n A = true ->
  Frame.mul Frame.identity A = Ok A /\ Frame.mul A Frame.identity = Ok A /\
  Frame.mul Frame.identity Frame.identity = Ok Frame.identity.
Proof.
  intros H. split; [|split].
  - apply (mul_identity_l A n H).
  - apply (mul_identity_r A n H).
  - apply (mul_identity_l Frame.identity 0). left. unfold single_frame, mat3.
    cbn. reflexivity.
Qed.

(** X2. Composition of frames is associative: [(A * B) * C] and
    [A * (B * C)] are the same frame. *)
Theorem frame_mul_assoc (A B C : Frame.t) :
  single_frame A = true -> single_frame B = true -> single_frame C = true ->
  exists D,
    (ab <- Frame.mul A B ;; Frame.mul ab C) = Ok D /\
    (bc <- Frame.mul B C ;; Frame.mul A bc) = Ok D /\
    single_frame D = true.
Proof.
  intros HA HB HC.
  destruct (single_frame_inv _ HA) as (va & a & -> & Hva & Ha).
  destruct (single_frame_inv _ HB) as (vb & b & -> & Hvb & Hb).
  destruct (single_frame_inv _ HC) as (vc & c & -> & Hvc & Hc).
  destruct (vec3_inv _ Hva) as (? & ? & ? & ->).
  destruct (vec3_inv _ Hvb) as (? & ? & ? & ->).
  destruct (vec3_inv _ Hvc) as (? & ? & ? & ->).
  destruct (mat3_inv _ Ha) as (? & ? & ? & ? & ? & ? & ? & ? & ? & ->).
  destruct (mat3_inv _ Hb) as (? & ? & ? & ? & ? & ? & ? & ? & ? & ->).
  destruct (mat3_inv _ Hc) as (? & ? & ? & ? & ? & ? & ? & ? & ? & ->).
  eexists. split; [cbn; reflexivity|].
  split; [|reflexivity].
  cbn. f_equal. f_equal; f_equal; entries_ring.
Qed.

(** X4. On one frame with an orthonormal rotation, [Frame.inv] is an
    involution: the inverse of the inverse is the frame itself. *)
Theorem frame_inv_involutive (v : list K) (a : list (list K)) :
  length v = 3 -> orthonormal a ->
  (i <- Frame.inv (Frame.Frame (T1 v) (T2 a)) ;; Frame.inv i)
  = Ok (Frame.Frame (T1 v) (T2 a)).
Proof.
  intros Hv (Hl & Hr & Ho).
  assert (Ha : mat3 a = true).
  { unfold mat3. rewrite Hl, Hr. reflexivity. }
  destruct (vec3_inv _ Hv) as (p1 & p2 & p3 & ->).
  destruct (mat3_inv _ Ha) as (? & ? & ? & ? & ? & ? & ? & ? & ? & ->).
  cbn in Ho. injection Ho as E11 E12 E13 E21 E22 E23 E31 E32 E33.
  cbn. do 3 f_equal.
  match goal with
  | |- [?y1; ?y2; ?y3] = _ =>
      assert (Y1 : y1 = p1) by ortho_coord E11 E12 E13 p1 p2 p3;
      assert (Y2 : y2 = p2) by ortho_coord E21 E22 E23 p1 p2 p3;
      assert (Y3 : y3 = p3) by ortho_coord E31 E32 E33 p1 p2 p3
  end.
  rewrite Y1, Y2, Y3. reflexivity.
Qed.

Lemma mapM_ok {A B} (g : A -> result B) (P : A -> Prop) (Q : B -> Prop) (l : list A) :
  (forall a, P a -> exists b, g a = Ok b /\ Q b) -> Forall P l ->
  exists l', mapM g l = Ok l' /\ Forall Q l' /\ length l' = length l.
Proof.
  intros Hg. induction 1 as [|a l Ha _ (l' & E & HQ & Hl)]; cbn.
  - exists []; auto.
  - destruct (Hg a Ha) as (b & -> & Hb). rewrite E. cbn.
    exists (b :: l'); cbn; auto.
Qed.

Lemma zipM_ok {A B C} (g : A -> B -> result C) (P1 : A -> Prop) (P2 : B -> Prop)
  (Q : C -> Prop) (la : list A) (lb : list B) :
  (forall a b, P1 a -> P2 b -> exists c, g a b = Ok c /\ Q c) ->
  Forall P1 la -> Forall P2 lb -> length la = length lb ->
  exists lc, zipM g la lb = Ok lc /\ Forall Q lc /\ length lc = length la.
Proof.
  intros Hg Ha; revert lb.
  induction Ha as [|a la Pa _ IH]; intros [|b lb] Hb Hl; try discriminate; cbn.
  - exists []; auto.
  - apply Forall_cons_iff in Hb as [Pb Hb].
    destruct (Hg a b Pa Pb) as (c & -> & Hc).
    destruct (IH lb Hb) as (lc & -> & HQ & Hlc); [injection Hl; auto|].
    cbn. exists (c :: lc); cbn; auto.
Qed.

Lemma rect2_of_width (w : nat) (a : list (list K)) :
  Forall (fun r => length r = w) a -> Tensor.rect2 a = true.
Proof.
  intros H. unfold Tensor.rect2. apply forallb_forall. rewrite <- Forall_forall.
  destruct H as [|r0 l0 H0 H]; [constructor|].
  cbn [hd]. constructor; [apply Nat.eqb_refl|].
  eapply Forall_impl; [|exact H]. cbn beta; intros r Hr.
  apply Nat.eqb_eq; congruence.
Qed.

Lemma mv_ok (a : list (list K)) (v : list K) :
  mat3 a = true -> length v = 3 ->
  exists w, Tensor.mv a v = Ok w /\ length w = 3.
Proof.
  intros Ha Hv.
  destruct (mat3_inv _ Ha) as (? & ? & ? & ? & ? & ? & ? & ? & ? & ->).
  destruct (vec3_inv _ Hv) as (? & ? & ? & ->).
  cbn. eauto.
Qed.

Lemma cross3_ok (v w : list K) :
  length v = 3 -> length w = 3 ->
  exists c, Tensor.cross3 v w = Ok c /\ length c = 3.
Proof.
  intros Hv Hw. rewrite cross3_pure by assumption.
  eexists; split; [reflexivity|]. apply cross_vec_length; assumption.
Qed.

Lemma bc1_ok (g : K -> K -> K) (v w : list K) :
  length v = 3 -> length w = 3 ->
  exists c, Tensor.bc1 g v w = Ok c /\ length c = 3.
Proof.
  intros Hv Hw. rewrite bc1_same_length by congruence.
  eexists; split; [reflexivity|]. rewrite zip_with_length; congruence.
Qed.

(** X8. [Frame.__mul__] with a twist always joins the two halves of its
    result along the first axis.  On a batch of twists, one frame raises
    (its translation and the batch of rotated angular velocities have
    different shapes for [tf.cross]), and a batch of [n] frames returns a
    twist whose [dx] has [2 n] rows of 3 entries instead of [n] rows of
    6. *)
Theorem frame_times_twist_on_batch (A B : Frame.t) (tws : list (list K)) (n : nat) :
  length tws = n -> rows_ok 6 tws = true ->
  single_frame A = true -> batch_frame n B = true ->
  Frame.mul_twist A (Twist.Twist (T2 tws)) = Raise ValueError /\
  exists d, Frame.mul_twist B (Twist.Twist (T2 tws)) = Ok (Twist.Twist (T2 d)) /\
            length d = 2 * n /\ rows_ok 3 d = true.
Proof.
  intros Hn Ht HA HB. apply rows_ok_Forall in Ht.
  assert (Hrot : Forall (fun v => length v = 3) (List.map (skipn 3) tws)).
  { apply Forall_map. eapply Forall_impl; [|exact Ht].
    cbn beta; intros r Hr; rewrite length_skipn, Hr; reflexivity. }
  assert (Hvel : Forall (fun v => length v = 3) (List.map (firstn 3) tws)).
  { apply Forall_map. eapply Forall_impl; [|exact Ht].
    cbn beta; intros r Hr; rewrite length_firstn, Hr; reflexivity. }
  split.
  - destruct (single_frame_inv _ HA) as (v & a & -> & Hv & Ha).
    unfold Frame.mul_twist, Twist.rot, Twist.vel.
    cbn [Twist.is_batch Twist.dx Tensor.ndims Nat.eqb Tensor.from1 Tensor.upto1 bind
         Frame.m Frame.p tf_utils.matvecmul].
    destruct (mapM_ok (Tensor.mv a) _ (fun w => length w = 3) _
                (fun r Hr => mv_ok a r Ha Hr) Hrot) as (rot' & -> & _ & _).
    cbn [bind].
    destruct (mapM_ok (Tensor.mv a) _ (fun w => length w = 3) _
                (fun r Hr => mv_ok a r Ha Hr) Hvel) as (vel' & -> & _ & _).
    reflexivity.
  - destruct (batch_frame_inv _ _ HB) as (ps & ms & -> & Hp & Hps & Hm & Hms).
    unfold Frame.mul_twist, Twist.rot, Twist.vel.
    cbn [Twist.is_batch Twist.dx Tensor.ndims Nat.eqb Tensor.from1 Tensor.upto1 bind
         Frame.m Frame.p tf_utils.matvecmul].
    destruct (zipM_ok Tensor.mv _ _ (fun w => length w = 3) ms (List.map (skipn 3) tws)
                (fun a r Ha Hr => mv_ok a r Ha Hr) Hms Hrot)
      as (rot' & -> & Hrot' & Lrot'); [rewrite length_map; congruence|].
    cbn [bind].
    destruct (zipM_ok Tensor.mv _ _ (fun w => length w = 3) ms (List.map (firstn 3) tws)
                (fun a r Ha Hr => mv_ok a r Ha Hr) Hms Hvel)
      as (mvel & -> & Hmvel & Lmvel); [rewrite length_map; congruence|].
    cbn [bind Tensor.cross].
    destruct (zipM_ok Tensor.cross3 _ _ (fun w => length w = 3) ps rot'
                cross3_ok Hps Hrot') as (c & -> & Hc & Lc); [congruence|].
    cbn [bind]. unfold Tensor.add. rewrite add_T2_T2. unfold Tensor.bc2.
    rewrite bcast_same_length by congruence.
    destruct (zipM_ok (Tensor.bc1 kadd) _ _ (fun w => length w = 3) mvel c
                (bc1_ok kadd) Hmvel Hc) as (vel' & -> & Hvel' & Lvel'); [congruence|].
    cbn [bind Tensor.concat0].
    assert (Hall : Forall (fun r => length r = 3) (vel' ++ rot')).
    { apply Forall_app; split; assumption. }
    pose proof (rect2_of_width _ _ Hall) as Hrect.
    rewrite Hrect. cbn [bind]. eexists; split; [reflexivity|].
    split; [rewrite length_app; lia|]. apply rows_ok_Forall; assumption.
Qed.

End FrameAlgebra.
(** ** Frames applied to points *)

Section FramePoints.
Context {SC : Scalars} {SR : ScalarRing SC}.

Add Ring K_ring_points : scalar_ring.

(** The image [m x + p] of a point. *)
Local Abbreviation affine m p :=
  (fun x : list K => zip_with kadd (List.map (fun r => Tensor.dot r x) m) p).

Lemma affine_length (a : list (list K)) (p x : list K) :
  mat3 a = true -> length p = 3 -> length (affine a p x) = 3.
Proof.
  intros Ha Hp.
  destruct (mat3_inv _ Ha) as (? & ? & ? & ? & ? & ? & ? & ? & ? & ->).
  destruct (vec3_inv _ Hp) as (? & ? & ? & ->).
  reflexivity.
Qed.

(** One frame applied to a list of points: every point [x] becomes
    [m x + p]. *)
Lemma mul_points_single (p : list K) (a : list (list K)) (pts : list (list K)) :
  length p = 3 -> mat3 a = true -> rows_ok 3 pts = true -> pts <> [] ->
  FrameOps.mul_points (Frame.Frame (T1 p) (T2 a)) (FrameOps.Points pts)
  = Ok (T2 (List.map (affine a p) pts)).
Proof.
  intros Hp Ha Hpts Hne. apply rows_ok_Forall in Hpts.
  unfold FrameOps.mul_points.
  assert (Hw : FrameOps.last_extent (FrameOps.Points pts) = 3).
  { destruct pts as [|x pts]; [contradiction|].
    apply Forall_cons_iff in Hpts as [Hx _]. exact Hx. }
  rewrite Hw. cbn [Nat.eqb Frame.is_batch Frame.m Frame.p Tensor.ndims].
  unfold FrameOps.matvec. cbn [Tensor.as2 bind].
  rewrite (mapM_pure _ (fun x => List.map (fun r => Tensor.dot r x) a)).
  2:{ eapply Forall_impl; [|exact Hpts]. intros x Hx. apply mv_pure; assumption. }
  cbn [bind Tensor.expand0]. unfold Tensor.add. rewrite add_T2_T2.
  unfold Tensor.bc2. rewrite bcast_single_r.
  rewrite (mapM_pure _ (fun w => zip_with kadd w p)).
  2:{ apply Forall_map. eapply Forall_impl; [|exact Hpts]. intros x Hx. cbn beta.
      apply bc1_same_length. rewrite length_map.
      destruct (mat3_inv _ Ha) as (? & ? & ? & ? & ? & ? & ? & ? & ? & ->).
      cbn. congruence. }
  cbn [bind]. rewrite map_map. reflexivity.
Qed.

(** X5. Applying frames to points is compatible with their composition:
    [(A * B) * x] is [A * (B * x)] for a list [x] of points, and every
    result holds one point per point of [x]. *)
Theorem frame_acts_on_points (A B : Frame.t) (pts : list (list K)) :
  single_frame A = true -> single_frame B = true ->
  rows_ok 3 pts = true -> pts <> [] ->
  exists ys zs,
    FrameOps.mul_points B (FrameOps.Points pts) = Ok (T2 ys) /\
    FrameOps.mul_points A (FrameOps.Points ys) = Ok (T2 zs) /\
    (ab <- Frame.mul A B ;; FrameOps.mul_points ab (FrameOps.Points pts)) = Ok (T2 zs) /\
    length zs = length pts.
Proof.
  intros HA HB Hpts Hne.
  destruct (single_frame_inv _ HA) as (va & a & -> & Hva & Ha).
  destruct (single_frame_inv _ HB) as (vb & b & -> & Hvb & Hb).
  exists (List.map (affine b vb) pts), (List.map (affine a va) (List.map (affine b vb) pts)).
  split; [apply mul_points_single; assumption|].
  split.
  { apply mul_points_single; try assumption.
    - apply rows_ok_Forall, Forall_map, Forall_forall. intros x _.
      apply affine_length; assumption.
    - destruct pts; [contradiction | discriminate]. }
  split; [|rewrite !length_map; reflexivity].
  destruct (vec3_inv _ Hva) as (? & ? & ? & ->).
  destruct (vec3_inv _ Hvb) as (? & ? & ? & ->).
  destruct (mat3_inv _ Ha) as (? & ? & ? & ? & ? & ? & ? & ? & ? & ->).
  destruct (mat3_inv _ Hb) as (? & ? & ? & ? & ? & ? & ? & ? & ? & ->).
  cbn [Frame.mul Frame.m Frame.p tf_utils.matvecmul tf_utils.matmatmul Tensor.mv Tensor.mm
       mapM bind length Nat.eqb Tensor.transpose2 Tensor.column List.map seq hd nth
       Tensor.add Tensor.binop Tensor.up3 Tensor.down Tensor.ndims Nat.max
       Tensor.bc3 Tensor.bc2 Tensor.bc1 bcast zipM].
  rewrite mul_points_single; try assumption; try reflexivity.
  rewrite map_map. do 2 f_equal.
  apply map_ext_in. intros pt Hin.
  apply rows_ok_Forall in Hpts. rewrite Forall_forall in Hpts.
  destruct (vec3_inv _ (Hpts pt Hin)) as (? & ? & ? & ->).
  cbn. entries_ring.
Qed.

Lemma matvec_batch_pure (ms : list (list (list K))) (pts : list (list K)) :
  Forall (fun a => mat3 a = true) ms -> Forall (fun x => length x = 3) pts ->
  FrameOps.matvec_batch (T3 ms) (FrameOps.Points pts)
  = Ok (T3 (List.map (fun a => List.map (fun x => List.map (fun r => Tensor.dot r x) a) pts) ms)).
Proof.
  intros Hms Hpts. unfold FrameOps.matvec_batch.
  rewrite (mapM_pure _ (fun a => List.map (fun x => List.map (fun r => Tensor.dot r x) a) pts)).
  - reflexivity.
  - eapply Forall_impl; [|exact Hms]. intros a Ha. cbn beta.
    apply mapM_pure. eapply Forall_impl; [|exact Hpts]. intros x Hx.
    apply mv_pure; assumption.
Qed.

Lemma last_extent_points (pts : list (list K)) :
  Forall (fun x => length x = 3) pts -> pts <> [] ->
  FrameOps.last_extent (FrameOps.Points pts) = 3.
Proof.
  intros Hpts Hne. destruct pts as [|x pts]; [contradiction|].
  apply Forall_cons_iff in Hpts as [Hx _]. exact Hx.
Qed.

(** X6. A batch of [n] frames applied to [k] points adds its translations as
    [self.p[None]], of shape (1, n, 3), to the rotated points, of shape
    (n, k, 3): when [n] and [k] differ and neither is 1 the shapes do not
    broadcast and the call raises. *)
Theorem frame_batch_on_points_mismatch (A : Frame.t) (pts : list (list K)) (n k : nat) :
  batch_frame n A = true -> rows_ok 3 pts = true -> length pts = k ->
  1 < n -> 1 < k -> n <> k ->
  FrameOps.mul_points A (FrameOps.Points pts) = Raise ValueError.
Proof.
  intros HA Hpts Hk Hn1 Hk1 Hnk. apply rows_ok_Forall in Hpts.
  destruct (batch_frame_inv _ _ HA) as (ps & ms & -> & Hp & Hps & Hm & Hms).
  unfold FrameOps.mul_points.
  rewrite last_extent_points; [|assumption|intros ->; cbn in Hk; lia].
  cbn [Nat.eqb Frame.is_batch Frame.m Frame.p Tensor.ndims].
  rewrite matvec_batch_pure by assumption.
  cbn [bind Tensor.expand0]. unfold Tensor.add, Tensor.binop, Tensor.bc3.
  cbn [Tensor.up3]. rewrite bcast_single_r.
  destruct ms as [|a ms]; [cbn in Hm; lia|].
  cbn [List.map mapM]. unfold Tensor.bc2 at 1. unfold bcast at 1.
  rewrite length_map.
  replace (Nat.eqb (length pts) (length ps)) with false
    by (symmetry; apply Nat.eqb_neq; congruence).
  destruct pts as [|x1 [|x2 pts]]; cbn in Hk; try lia.
  destruct ps as [|p1 [|p2 ps]]; cbn in Hp; try lia.
  reflexivity.
Qed.

Lemma nth_error_zip_with {A B C} (h : A -> B -> C) (la : list A) (lb : list B) :
  forall i a b, nth_error la i = Some a -> nth_error lb i = Some b ->
  nth_error (zip_with h la lb) i = Some (h a b).
Proof.
  revert lb. induction la as [|a0 la IH]; intros [|b0 lb] [|i] a b Ha Hb;
    try discriminate.
  - cbn in *. congruence.
  - cbn in Ha, Hb. unfold zip_with in *. cbn. apply IH; assumption.
Qed.

(** X7. A batch of [n] frames applied to [n] points broadcasts: the entry
    at [a], [b] of the result is the point [b] rotated by the frame [a] and
    translated by the frame [b], which is the image of the point by a
    frame of the batch only where [a = b]. *)
Theorem frame_batch_on_points_square (ps : list (list K)) (ms : list (list (list K)))
  (pts : list (list K)) (n : nat) :
  batch_frame n (Frame.Frame (T2 ps) (T3 ms)) = true ->
  rows_ok 3 pts = true -> length pts = n -> 1 <= n ->
  exists r,
    FrameOps.mul_points (Frame.Frame (T2 ps) (T3 ms)) (FrameOps.Points pts) = Ok (T3 r) /\
    length r = n /\
    forall a b m_a p_b x_b,
      nth_error ms a = Some m_a -> nth_error ps b = Some p_b ->
      nth_error pts b = Some x_b ->
      exists y,
        FrameOps.mul_points (Frame.Frame (T1 p_b) (T2 m_a)) (FrameOps.Point x_b)
        = Ok (T2 [y]) /\
        (row <- py_index r a ;; py_index row b) = Ok y.
Proof.
  intros HA Hpts Hk Hn1. apply rows_ok_Forall in Hpts.
  destruct (batch_frame_inv _ _ HA) as (ps' & ms' & E & Hp & Hps & Hm & Hms).
  injection E as <- <-.
  set (rows := fun a : list (list K) => List.map (fun x => List.map (fun r => Tensor.dot r x) a) pts).
  exists (List.map (fun a => zip_with (zip_with kadd) (rows a) ps) ms).
  split; [|split; [rewrite length_map; assumption|]].
  - unfold FrameOps.mul_points.
    rewrite last_extent_points; [|assumption|intros ->; cbn in Hk; lia].
    cbn [Nat.eqb Frame.is_batch Frame.m Frame.p Tensor.ndims].
    rewrite matvec_batch_pure by assumption. fold rows.
    cbn [bind Tensor.expand0]. unfold Tensor.add, Tensor.binop, Tensor.bc3.
    cbn [Tensor.up3 Tensor.ndims Nat.max]. rewrite bcast_single_r.
    rewrite (mapM_pure _ (fun row => zip_with (zip_with kadd) row ps)).
    { cbn [bind Tensor.down]. rewrite map_map. reflexivity. }
    apply Forall_map, Forall_forall. intros a Ha. cbn beta.
    rewrite Forall_forall in Hms. specialize (Hms a Ha).
    unfold Tensor.bc2. apply bcast_pure.
    apply Forall2_zip with (PA := fun r => length r = 3) (PB := fun r => length r = 3).
    + unfold rows. rewrite length_map. congruence.
    + unfold rows. apply Forall_map, Forall_forall. intros x _.
      rewrite length_map. destruct (mat3_inv _ Hms) as (? & ? & ? & ? & ? & ? & ? & ? & ? & ->).
      reflexivity.
    + assumption.
    + intros v w Hv Hw. apply bc1_same_length; congruence.
  - intros a b m_a p_b x_b Ha Hb Hx.
    assert (Hma : mat3 m_a = true).
    { rewrite Forall_forall in Hms. apply Hms. eapply nth_error_In; eauto. }
    assert (Hpb : length p_b = 3).
    { rewrite Forall_forall in Hps. apply Hps. eapply nth_error_In; eauto. }
    assert (Hxb : length x_b = 3).
    { rewrite Forall_forall in Hpts. apply Hpts. eapply nth_error_In; eauto. }
    exists (affine m_a p_b x_b). split.
    + destruct (mat3_inv _ Hma) as (? & ? & ? & ? & ? & ? & ? & ? & ? & ->).
      destruct (vec3_inv _ Hpb) as (? & ? & ? & ->).
      destruct (vec3_inv _ Hxb) as (? & ? & ? & ->).
      reflexivity.
    + unfold py_index. rewrite nth_error_map, Ha. cbn [option_map bind].
      rewrite (nth_error_zip_with _ _ _ b (List.map (fun r => Tensor.dot r x_b) m_a) p_b).
      * reflexivity.
      * unfold rows. rewrite nth_error_map, Hx. reflexivity.
      * assumption.
Qed.

End FramePoints.
(** ** Twists *)

Section TwistFacts.
Context {SC : Scalars} {SR : ScalarRing SC}.

Add Ring K_ring_twists : scalar_ring.

Lemma transport_row_zero (tw : list K) :
  length tw = 6 -> transport_row tw [k0; k0; k0] = tw.
Proof.
  intros Ht. do 7 (destruct tw as [|? tw]; try discriminate Ht).
  cbn. entries_ring.
Qed.

(** X9. Changing the reference point of a twist by the zero displacement
    returns the twist itself, for one twist and for a batch. *)
Theorem ref_point_zero_displacement (T : Twist.t) (bT : option nat) :
  vec_batch 6 (Twist.dx T) = Some bT ->
  Twist.ref_point T (T1 [k0; k0; k0]) = Ok T.
Proof.
  destruct T as [x]; cbn [Twist.dx]; intros HT.
  apply vec_batch_inv in HT as [(tw & -> & Ht & ->)|(tws & -> & Ht & ->)].
  - rewrite ref_point_single by (assumption || reflexivity).
    rewrite transport_row_zero by assumption. reflexivity.
  - rewrite ref_point_batch_single by (assumption || reflexivity).
    do 3 f_equal. apply rows_ok_Forall in Ht.
    induction Ht as [|tw tws Ht1 _ IH]; [reflexivity|].
    cbn [List.map]. rewrite transport_row_zero by assumption. f_equal. exact IH.
Qed.

End TwistFacts.

Section TwistLayout.
Context {SC : Scalars}.

(** X10. [Twist.dx_mat] flattens the derivative of a pose exactly as
    [Frame.xm] and [Frame.xmv] flatten a pose: its result is the layout
    of the frame made of the linear velocity and of the derivative
    [w m] of the rotation, where [w] is the angular velocity tensor.
    This holds when the twist is a batch or the rotation is one matrix. *)
Theorem dx_mat_matches_frame_layout (tw : Twist.t) (m : tensor) (layout : FkLayout.t) :
  Twist.is_batch tw = true \/ Tensor.ndims m = 2 ->
  Twist.dx_mat tw m layout
  = (r0 <- Twist.rot tw ;;
     w <- tf_utils.angular_vel_tensor r0 ;;
     dm_dphi <- tf_utils.matmatmul w m ;;
     v0 <- Twist.vel tw ;;
     if FkLayout.eqb layout FkLayout.xmv
     then Frame.xmv (Frame.Frame v0 dm_dphi)
     else Frame.xm (Frame.Frame v0 dm_dphi)).
Proof.
  intros H. destruct tw as [[c|v|a|b]].
  - reflexivity.
  - destruct H as [H|H]; [discriminate H|].
    destruct m as [?|?|m|?]; try discriminate H.
    unfold Twist.dx_mat, Twist.rot, Twist.vel.
    cbn [Twist.is_batch Twist.dx Tensor.ndims Nat.eqb Tensor.from0 Tensor.upto0 bind
         tf_utils.angular_vel_tensor].
    destruct (tf_utils.skew3 (skipn 3 v)) as [w|e]; cbn [bind]; [|reflexivity].
    cbn [tf_utils.matmatmul].
    destruct (Tensor.mm w m) as [d|e]; cbn [bind]; [|reflexivity].
    destruct (FkLayout.eqb layout FkLayout.xmv); reflexivity.
  - unfold Twist.dx_mat, Twist.rot, Twist.vel.
    cbn [Twist.is_batch Twist.dx Tensor.ndims Nat.eqb Tensor.from1 Tensor.upto1 bind
         tf_utils.angular_vel_tensor].
    destruct (mapM tf_utils.skew3 (List.map (skipn 3) a)) as [w|e]; cbn [bind];
      [|reflexivity].
    destruct m as [?|?|m|m]; cbn [tf_utils.matmatmul]; try reflexivity.
    + destruct (mapM (fun a' => Tensor.mm a' m) w) as [d|e]; cbn [bind]; [|reflexivity].
      destruct (FkLayout.eqb layout FkLayout.xmv); reflexivity.
    + destruct (zipM Tensor.mm w m) as [d|e]; cbn [bind]; [|reflexivity].
      destruct (FkLayout.eqb layout FkLayout.xmv); reflexivity.
  - reflexivity.
Qed.

End TwistLayout.
(** ** [stack_batch] *)

Section StackBatch.
Context {SC : Scalars} {SR : ScalarRing SC}.

Add Ring K_ring_stack : scalar_ring.

(** [shaped n d a]: the matrix [a] has [n] rows of [d] entries. *)
Local Abbreviation shaped n d :=
  (fun a : list (list K) => length a = n /\ Forall (fun r => length r = d) a).

Lemma py_last_map_cons {A B} (g : A -> B) (a : A) (l : list A) :
  exists b, py_last (List.map g (a :: l)) = Ok (g b) /\ In b (a :: l).
Proof.
  destruct (exists_last (l := a :: l)) as (l' & b & E); [discriminate|].
  exists b. rewrite E, map_app. cbn [List.map]. rewrite py_last_snoc.
  split; [reflexivity|]. apply in_or_app; right; left; reflexivity.
Qed.

Lemma mapM_as1 (rows : list (list K)) :
  mapM Tensor.as1 (List.map T1 rows) = Ok rows.
Proof.
  induction rows as [|r rows IH]; cbn; [reflexivity|]. rewrite IH. reflexivity.
Qed.

Lemma mapM_as2 (mats : list (list (list K))) :
  mapM Tensor.as2 (List.map T2 mats) = Ok mats.
Proof.
  induction mats as [|a mats IH]; cbn; [reflexivity|]. rewrite IH. reflexivity.
Qed.

Lemma rect3_of_shape (n d : nat) (mats : list (list (list K))) :
  Forall (shaped n d) mats -> Tensor.rect3 mats = true.
Proof.
  intros H. unfold Tensor.rect3.
  destruct H as [|a0 mats [Ha0 Hr0] H]; [reflexivity|].
  cbn [hd].
  assert (Hall : Forall (shaped n d) (a0 :: mats)) by (constructor; auto).
  rewrite !andb_true_iff. repeat split; apply forallb_forall; rewrite <- Forall_forall;
    (eapply Forall_impl; [|exact Hall]); cbn beta; intros a [Ha Hr].
  - apply (rect2_of_width d); assumption.
  - apply Nat.eqb_eq; congruence.
  - apply forallb_forall. intros r Hin. apply Nat.eqb_eq.
    rewrite Forall_forall in Hr. rewrite (Hr r Hin).
    destruct a0 as [|r0 a0]; cbn [hd].
    + cbn in Ha0. subst n. destruct a; [destruct Hin | discriminate Ha].
    + apply Forall_cons_iff in Hr0 as [Hr0 _]. congruence.
Qed.

(** X11. [stack_batch] on unbatched vectors of one length stacks them as the
    rows of a matrix, in order. *)
Theorem stack_batch_vectors (rows : list (list K)) (d : nat) :
  rows <> [] -> Forall (fun r => length r = d) rows ->
  stack_batch (List.map T1 rows) = Ok (VTensor (T2 rows)).
Proof.
  intros Hne Hrows. destruct rows as [|r0 rows]; [contradiction|].
  unfold stack_batch.
  destruct (py_last_map_cons (@Tensor.T1 SC) r0 rows) as (rl & Hlast & _).
  cbn [List.map py_index nth_error bind]. cbn [List.map] in Hlast.
  rewrite Hlast. cbn [bind Tensor.ndims Nat.ltb Nat.leb]. rewrite Hlast.
  cbn [bind Tensor.ndims Nat.eqb Tensor.stack].
  change (T1 r0 :: List.map T1 rows) with (List.map (@Tensor.T1 SC) (r0 :: rows)).
  rewrite mapM_as1. cbn [bind].
  rewrite (rect2_of_width d) by assumption. reflexivity.
Qed.

(** [tf.stack] of batches of one shape, transposed to put the batch
    axis first. *)
Lemma stack_transposed (mats : list (list (list K))) (n d : nat) :
  mats <> [] -> Forall (shaped n d) mats ->
  (s <- Tensor.stack (List.map T2 mats) ;;
   tr <- Tensor.transpose_102 s ;; Ok (VTensor tr))
  = Ok (VTensor (T3 (List.map (fun b => List.map (fun a => nth b a []) mats) (seq 0 n)))).
Proof.
  intros Hne Hm. destruct mats as [|a0 mats]; [contradiction|].
  cbn [List.map Tensor.stack].
  change (T2 a0 :: List.map T2 mats) with (List.map (@Tensor.T2 SC) (a0 :: mats)).
  rewrite mapM_as2. cbn [bind].
  rewrite (rect3_of_shape n d) by assumption.
  cbn [bind Tensor.transpose_102 hd].
  apply Forall_cons_iff in Hm as [[Ha0 _] _]. rewrite Ha0. reflexivity.
Qed.

(** X12. [stack_batch] on batches of vectors, each of shape (n, d), returns
    the tensor of shape (n, number of batches, d): the entry [b] of its
    first axis holds the vector [b] of every batch, in order. *)
Theorem stack_batch_batches (mats : list (list (list K))) (n d : nat) :
  mats <> [] -> Forall (shaped n d) mats ->
  stack_batch (List.map T2 mats)
  = Ok (VTensor (T3 (List.map (fun b => List.map (fun a => nth b a []) mats) (seq 0 n)))).
Proof.
  intros Hne Hm. rewrite <- (stack_transposed mats n d Hne Hm).
  destruct mats as [|a0 mats]; [contradiction|].
  unfold stack_batch.
  destruct (py_last_map_cons (@Tensor.T2 SC) a0 mats) as (al & Hlast & _).
  cbn [List.map py_index nth_error bind]. cbn [List.map] in Hlast.
  rewrite Hlast. cbn [bind Tensor.ndims Nat.ltb Nat.leb]. rewrite Hlast.
  cbn [bind Tensor.ndims Nat.eqb]. reflexivity.
Qed.

Lemma ones_times_vector (v : list K) (n : nat) :
  Tensor.mul (Tensor.ones2 n 1) (T1 v) = Ok (T2 (repeat v n)).
Proof.
  unfold Tensor.mul, Tensor.binop, Tensor.bc3, Tensor.ones2.
  cbn [Tensor.up3 Tensor.ndims Nat.max repeat].
  rewrite bcast_same_length by reflexivity. cbn [zipM].
  unfold Tensor.bc2. rewrite bcast_single_r.
  rewrite (mapM_pure _ (fun _ => v)).
  - cbn [bind Tensor.down hd]. rewrite map_const, repeat_length. reflexivity.
  - apply Forall_forall. intros r Hr. apply repeat_spec in Hr. subst r.
    unfold Tensor.bc1. rewrite bcast_single_l.
    rewrite (mapM_pure _ (fun x => x)); [rewrite map_id; reflexivity|].
    apply Forall_forall. intros x _. f_equal. ring.
Qed.

(** X13. [stack_batch] repeats an unbatched first vector across the batch of
    the last one: next to batches of shape (n, d), the first vector
    stands at index 0 of every entry of the result. *)
Theorem stack_batch_broadcasts_first (v : list K) (rest : list (list (list K)))
  (n d : nat) :
  length v = d -> rest <> [] -> Forall (shaped n d) rest ->
  stack_batch (T1 v :: List.map T2 rest)
  = Ok (VTensor (T3 (List.map (fun b => v :: List.map (fun a => nth b a []) rest)
                              (seq 0 n)))).
Proof.
  intros Hv Hne Hrest. destruct rest as [|a0 rest]; [contradiction|].
  unfold stack_batch at 1.
  destruct (py_last_map_cons (@Tensor.T2 SC) a0 rest) as (al & Hlast & Hin).
  assert (Hal : length al = n).
  { rewrite Forall_forall in Hrest. apply (Hrest al Hin). }
  cbn [py_index nth_error bind].
  assert (Hl : py_last (T1 v :: List.map T2 (a0 :: rest)) = Ok (T2 al)).
  { cbn [List.map] in *. unfold py_last in *. cbn [rev] in *.
    destruct (rev (List.map T2 rest) ++ [T2 a0]) as [|x l] eqn:E; [discriminate Hlast|].
    cbn [app]. exact Hlast. }
  rewrite Hl. cbn [bind Tensor.ndims Nat.ltb Nat.leb Tensor.shape].
  rewrite Hal, ones_times_vector. cbn [bind py_setitem].
  assert (Hl' : py_last (T2 (repeat v n) :: List.map T2 (a0 :: rest)) = Ok (T2 al)).
  { cbn [List.map] in *. unfold py_last in *. cbn [rev] in *.
    destruct (rev (List.map T2 rest) ++ [T2 a0]) as [|x l] eqn:E; [discriminate Hlast|].
    cbn [app]. exact Hlast. }
  rewrite Hl'. cbn [bind Tensor.ndims Nat.eqb].
  change (T2 (repeat v n) :: List.map T2 (a0 :: rest))
    with (List.map (@Tensor.T2 SC) (repeat v n :: a0 :: rest)).
  rewrite (stack_transposed (repeat v n :: a0 :: rest) n d).
  - do 3 f_equal. apply map_ext_in. intros b Hb. apply in_seq in Hb.
    cbn [List.map]. f_equal. apply nth_repeat_lt. lia.
  - discriminate.
  - constructor; [|assumption]. split; [apply repeat_length|].
    apply Forall_forall. intros r Hr. apply repeat_spec in Hr. congruence.
Qed.

(** X14. When the last tensor has rank 3, or rank 0, [stack_batch] returns
    the class [NotImplementedError] instead of raising it. *)
Theorem stack_batch_returns_error_class (vecs : list tensor) (first last : tensor) :
  py_index vecs 0 = Ok first -> py_last vecs = Ok last ->
  Tensor.ndims last = 3 \/ Tensor.ndims last = 0 ->
  Tensor.ndims last <= Tensor.ndims first ->
  stack_batch vecs = Ok VNotImplementedError.
Proof.
  intros Hf Hl Hr Hle. unfold stack_batch. rewrite Hf, Hl. cbn [bind].
  replace (Nat.ltb (Tensor.ndims first) (Tensor.ndims last)) with false
    by (symmetry; apply Nat.ltb_ge; assumption).
  cbn [bind]. rewrite Hl. cbn [bind].
  destruct Hr as [-> | ->]; reflexivity.
Qed.

End StackBatch.
(** ** The joint values a chain reads *)

Section JointValues.
Context {SC : Scalars}.

Lemma xs_fold_agree (q q' : qarg) (gl : bool) (segs : list Segment.t) :
  forall j0 p l,
  (forall j, j0 <= j < j0 + length (filter Segment.actuated segs) ->
             Chain.xs_joint_value q j = Chain.xs_joint_value q' j) ->
  foldM (Chain.xs_body q gl) segs (j0, p, l) = foldM (Chain.xs_body q' gl) segs (j0, p, l).
Proof.
  induction segs as [|seg segs IH]; intros j0 p l Hq; [reflexivity|].
  cbn [foldM filter] in *.
  assert (Hbody : Chain.xs_body q gl (j0, p, l) seg = Chain.xs_body q' gl (j0, p, l) seg).
  { unfold Chain.xs_body, Chain.local_pose.
    destruct (Segment.actuated seg) eqn:Ha; [|reflexivity].
    rewrite (Hq j0) by (cbn [length]; lia). reflexivity. }
  rewrite Hbody.
  destruct (Chain.xs_body q' gl (j0, p, l) seg) as [[[j1 p1] l1]|e] eqn:E;
    cbn [bind]; [|reflexivity].
  assert (Hj1 : j1 = if Segment.actuated seg then S j0 else j0).
  { unfold Chain.xs_body in E.
    destruct (py_last p); cbn [bind] in E; [|discriminate].
    destruct (Chain.local_pose q' j0 seg); cbn [bind] in E; [|discriminate].
    destruct (Frame.mul a a0); cbn [bind] in E; [|discriminate].
    match type of E with
    | bind ?r _ = _ => destruct r; cbn [bind] in E; [|discriminate]
    end.
    injection E as <- _ _. reflexivity. }
  apply IH. intros j Hj. apply Hq.
  subst j1. destruct (Segment.actuated seg); cbn [length]; lia.
Qed.

(** X15. [Chain.xs] reads the joint values at the indices below [nb_joint]
    and no other: two arguments [q] that agree there give the same
    result, so that surplus joint values are ignored without an error. *)
Theorem xs_reads_first_joint_values (self : Chain.t) (q q' : qarg)
  (layout : FkLayout.t) (fb : floating_base) (get_links : bool) :
  (forall j, j < Chain.nb_joint self ->
             Chain.xs_joint_value q j = Chain.xs_joint_value q' j) ->
  Chain.xs self q layout fb get_links = Chain.xs self q' layout fb get_links.
Proof.
  intros Hq. unfold Chain.xs, Chain.xs_loop.
  destruct (base_frame fb) as [base|e]; cbn [bind]; [|reflexivity].
  rewrite (xs_fold_agree q q'); [reflexivity|].
  intros j Hj. apply Hq. unfold Chain.nb_joint. lia.
Qed.

Lemma joint_segment (segs : list Segment.t) :
  forall j, j < length (filter Segment.actuated segs) ->
  exists i seg,
    nth_error segs i = Some seg /\ Segment.actuated seg = true /\
    length (filter Segment.actuated (firstn i segs)) = j.
Proof.
  induction segs as [|s segs IH]; intros j Hj; [cbn in Hj; lia|].
  cbn [filter] in Hj. destruct (Segment.actuated s) eqn:Hs.
  - destruct j as [|j].
    + exists 0, s. cbn. auto.
    + cbn [length] in Hj. destruct (IH j) as (i & seg & Hi & Ha & Hc); [lia|].
      exists (S i), seg. cbn [nth_error firstn filter]. rewrite Hs. cbn [length].
      auto.
  - destruct (IH j Hj) as (i & seg & Hi & Ha & Hc).
    exists (S i), seg. cbn [nth_error firstn filter]. rewrite Hs. auto.
Qed.

(** X16. [Chain.xs] raises when a joint value is missing: if reading [q] at
    an index below [nb_joint] raises, so does the call; no default value
    stands in for the joint. *)
Theorem xs_missing_joint_value_raises (self : Chain.t) (q : qarg)
  (layout : FkLayout.t) (fb : floating_base) (get_links : bool) (j : nat) (e : exn) :
  j < Chain.nb_joint self ->
  Chain.xs_joint_value q j = Raise e ->
  exists e', Chain.xs self q layout fb get_links = Raise e'.
Proof.
  intros Hj Hq.
  destruct (Chain.xs self q layout fb get_links) as [v|e'] eqn:H; [exfalso | eauto].
  unfold Chain.xs in H. bind_inv H. destruct a as [[j1 p] links].
  apply xs_loop_spec in E as (_ & base & _ & _ & _ & Hstep).
  destruct (joint_segment _ j Hj) as (i & seg & Hi & Ha & Hc).
  destruct (Hstep i seg Hi) as (prev & local & cur & _ & _ & Hlocal & _).
  unfold Chain.local_pose, Chain.joints_before in Hlocal.
  rewrite Ha, Hc, Hq in Hlocal. discriminate Hlocal.
Qed.



End JointValues.

(** ** The shape of the Jacobian *)

Section JacobianShape.
Context {SC : Scalars}.

Lemma jacobian_body_length (self : Chain.t) (q : qarg) (st st' : Chain.jacobian_state)
  (i : nat) :
  Chain.jacobian_body self q st i = Ok st' ->
  length (Chain.jac st) = Chain.j st ->
  length (Chain.jac st') = Chain.j st' /\ i < Chain.nb_segm self.
Proof.
  intros H Hlen. unfold Chain.jacobian_body, py_index in H.
  destruct (nth_error (Chain.segments self) i) as [seg|] eqn:Hi; [|discriminate].
  assert (Hlt : i < Chain.nb_segm self).
  { apply nth_error_Some. congruence. }
  cbn [bind] in H. bind_inv H. destruct a as [tot t_tmp]. bind_inv H.
  rename a into moved.
  assert (Hm : length moved = length (Chain.jac st)).
  { destruct (Chain.jac st) as [|t0 ts].
    - injection E0 as <-. reflexivity.
    - apply mapM_length in E0. exact E0. }
  destruct t_tmp as [tw|]; injection H as <-; cbn [Chain.jac Chain.j].
  - rewrite length_app. cbn [length]. split; [lia | assumption].
  - split; [lia | assumption].
Qed.

Lemma jacobian_steps_length (self : Chain.t) (q : qarg) (fb : floating_base) :
  forall k st,
  Chain.jacobian_steps self q fb k = Ok st ->
  length (Chain.jac st) = Chain.j st /\ k <= Chain.nb_segm self.
Proof.
  induction k as [|k IH]; intros st H.
  - unfold Chain.jacobian_steps in H. bind_inv H. cbn in H.
    injection H as <-. cbn. split; [reflexivity | lia].
  - rewrite jacobian_steps_S in H. bind_inv H. rename a into st0.
    destruct (IH st0 E) as [Hlen Hk].
    destruct (jacobian_body_length _ _ _ _ _ H Hlen) as [Hlen' Hlt].
    split; [assumption | lia].
Qed.

Lemma in_firstn {A} (k : nat) (l : list A) (x : A) :
  In x (firstn k l) -> In x l.
Proof.
  revert l; induction k as [|k IH]; intros [|a l] H; cbn in H; try contradiction.
  destruct H as [H|H]; [left; assumption | right; auto].
Qed.

Lemma transpose_stacked_width (vecs : list tensor) (stacked : value) (tr : tensor) :
  stack_batch vecs = Ok stacked -> transpose_stacked stacked = Ok tr ->
  1 <= length vecs /\ ChainDict.last_width (length vecs) tr.
Proof.
  intros Hs Ht.
  assert (Hne : 1 <= length vecs).
  { destruct vecs; [discriminate Hs | cbn; lia]. }
  split; [assumption|].
  destruct stacked as [s| | |]; try discriminate Ht.
  pose proof (stack_batch_entries _ _ Hs) as Hh.
  destruct s as [c|v|a|b]; try discriminate Ht.
  cbn in Ht. injection Ht as <-.
  assert (Hb : Forall (fun a => length a = length vecs) b).
  { apply Hh. discriminate. }
  cbn. apply Forall_map. eapply Forall_impl; [|exact Hb].
  cbn beta; intros a Ha. unfold Tensor.transpose2.
  apply Forall_map, Forall_forall. intros j _.
  unfold Tensor.column. rewrite length_map. assumption.
Qed.

(** X20. When [Chain.jacobian] returns, [n] lies between 0 and
    [nb_segm - 1], and the result is a tensor of rank 3 whose last axis
    has one entry per actuated joint of the segments taken, of which
    there is at least one. *)
Theorem jacobian_one_column_per_joint (self : Chain.t) (q : qarg) (n : Z)
  (layout : FkLayout.t) (fb : floating_base) (J : tensor) :
  Chain.jacobian self q n layout fb = Ok J ->
  (0 <= n < Z.of_nat (Chain.nb_segm self))%Z /\
  1 <= Chain.joints_before self (Chain.segments_kept self n) /\
  ChainDict.last_width (Chain.joints_before self (Chain.segments_kept self n)) J.
Proof.
  intros H. unfold Chain.jacobian in H. bind_inv H. rename a into st.
  unfold Chain.jacobian_loop in E.
  pose proof (jacobian_steps_joint_index _ _ _ _ _ E) as Hj.
  destruct (jacobian_steps_length _ _ _ _ _ E) as [Hlen Hk].
  rewrite Hj in Hlen.
  assert (Hw : 1 <= length (Chain.jac st) /\
               ChainDict.last_width (length (Chain.jac st)) J).
  { destruct layout.
    - bind_inv H. bind_inv H.
      destruct (transpose_stacked_width _ _ _ E0 E1) as [H1 H2].
      rewrite length_map in H1, H2. split; [assumption|].
      destruct a0 as [c|v|a0|b]; try discriminate H;
        unfold ChainDict.last_width in H2; try contradiction.
      unfold Tensor.upto1 in H. injection H as <-.
      unfold ChainDict.last_width. apply Forall_map. eapply Forall_impl; [|exact H2].
      cbn beta; intros m Hm. apply Forall_forall. intros row Hrow.
      rewrite Forall_forall in Hm. apply Hm.
      apply (in_firstn 3). exact Hrow.
    - bind_inv H.
      destruct (transpose_stacked_width _ _ _ E0 H) as [H1 H2].
      rewrite length_map in H1, H2. auto.
    - bind_inv H. bind_inv H.
      destruct (transpose_stacked_width _ _ _ E1 H) as [H1 H2].
      rewrite (mapM_length _ _ _ E0) in H1, H2. auto.
    - bind_inv H. bind_inv H.
      destruct (transpose_stacked_width _ _ _ E1 H) as [H1 H2].
      rewrite (mapM_length _ _ _ E0) in H1, H2. auto.
    - discriminate H. }
  rewrite Hlen in Hw. destruct Hw as [H1 H2].
  split; [|split; assumption].
  assert (Hk1 : 1 <= Chain.segments_kept self n).
  { destruct (Chain.segments_kept self n) eqn:Ek; [|lia].
    unfold Chain.joints_before in H1. cbn in H1. lia. }
  unfold Chain.segments_kept in *. lia.
Qed.

End JacobianShape.

(** ** The end-effector frame *)

Section EndEffector.
Context {SC : Scalars} {SR : ScalarRing SC}.

Lemma foldM_raises_at {A B} (body : A -> B -> result A) (l : list B) (i : B) :
  In i l -> (forall st, exists e, body st i = Raise e) ->
  forall st, exists e, foldM body l st = Raise e.
Proof.
  intros Hin Hi. induction l as [|b l IH]; intros st; [destruct Hin|].
  cbn [foldM]. destruct Hin as [->|Hin].
  - destruct (Hi st) as (e & ->). cbn [bind]. eauto.
  - destruct (body st b) as [st'|e]; cbn [bind]; eauto.
Qed.

(** One iteration of the loop of [Chain.ee_frame] is one iteration of
    the loop of [Chain.xs]: the same local pose, composed on the right. *)
Lemma ee_body_local_pose (self : Chain.t) (x : tensor) (j i : nat) (prev : Frame.t)
  (seg : Segment.t) :
  Tensor.ndims x = 1 \/ Tensor.ndims x = 2 ->
  nth_error (Chain.segments self) i = Some seg ->
  Chain.ee_body self x (j, Some prev) i
  = (local <- Chain.local_pose (QTensor x) j seg ;;
     cur <- Frame.mul prev local ;;
     Ok (if Segment.actuated seg then S j else j, Some cur)).
Proof.
  intros Hx Hi. unfold Chain.ee_body, Chain.local_pose, py_index, Chain.xs_joint_value.
  rewrite Hi. cbn [bind Chain.bound].
  destruct (Segment.actuated seg).
  - destruct Hx as [-> | ->]; cbn [Nat.eqb].
    + destruct (Tensor.get0 x j); cbn [bind]; [|reflexivity].
      destruct (Segment.pose seg a); reflexivity.
    + destruct (Tensor.get1 x j); cbn [bind]; [|reflexivity].
      destruct (Segment.pose seg a); reflexivity.
  - destruct (Segment.pose seg (T0 k0)); reflexivity.
Qed.

Lemma ee_fold_follows_xs (self : Chain.t) (x : tensor) (p : list Frame.t)
  (p1 : Frame.t) :
  Tensor.ndims x = 1 \/ Tensor.ndims x = 2 ->
  Chain.joints_before self 1 = 1 ->
  nth_error p 1 = Some p1 ->
  (forall i seg, nth_error (Chain.segments self) i = Some seg ->
     exists prev local cur,
       nth_error p i = Some prev /\ nth_error p (S i) = Some cur /\
       Chain.local_pose (QTensor x) (Chain.joints_before self i) seg = Ok local /\
       Frame.mul prev local = Ok cur) ->
  forall len, S len <= Chain.nb_segm self ->
  exists fr,
    nth_error p (S len) = Some fr /\
    foldM (Chain.ee_body self x) (seq 1 len) (1, Some p1)
    = Ok (Chain.joints_before self (S len), Some fr).
Proof.
  intros Hx Hj1 Hp1 Hstep. induction len as [|len IH]; intros Hlen.
  - exists p1. cbn [seq foldM]. rewrite Hj1. auto.
  - destruct IH as (fr & Hfr & Hfold); [lia|].
    rewrite seq_S, foldM_app, Hfold. cbn [bind foldM Nat.add].
    destruct (nth_error (Chain.segments self) (S len)) as [seg|] eqn:Hseg.
    2:{ apply nth_error_None in Hseg. unfold Chain.nb_segm in Hlen. lia. }
    destruct (Hstep _ _ Hseg) as (prev & local & cur & H1 & H2 & H3 & H4).
    rewrite Hfr in H1. injection H1 as <-.
    rewrite (ee_body_local_pose self x _ _ fr seg Hx Hseg), H3. cbn [bind].
    rewrite H4. cbn [bind].
    exists cur. split; [exact H2|].
    rewrite (joints_before_S _ _ _ Hseg). reflexivity.
Qed.

(** X18. For a chain whose first segment is actuated, [Chain.ee_frame] with
    [n] between 0 and [nb_segm - 1] returns, in the layout asked for, the
    pose that [Chain.xs] lists at index [nb_segm - n]. *)
Theorem ee_frame_is_xs_pose (self : Chain.t) (x : tensor) (n : Z)
  (layout : FkLayout.t) (seg0 : Segment.t) (rest : list Segment.t)
  (local0 : Frame.t) (nb : nat) (p : list Frame.t) :
  Chain.segments self = seg0 :: rest ->
  Segment.actuated seg0 = true ->
  Tensor.ndims x = 1 \/ Tensor.ndims x = 2 ->
  Chain.local_pose (QTensor x) 0 seg0 = Ok local0 ->
  single_frame local0 = true \/ batch_frame nb local0 = true ->
  Chain.xs self (QTensor x) FkLayout.f FbNone false = Ok (Poses (VFrames p)) ->
  (0 <= n < Z.of_nat (Chain.nb_segm self))%Z ->
  exists fr,
    nth_error p (Chain.segments_kept self n) = Some fr /\
    Chain.ee_frame self (QTensor x) n layout = return_frame (Single fr) layout.
Proof.
  intros Hsegs Hact Hx Hlocal Hshape Hxs Hn.
  unfold Chain.xs in Hxs. bind_inv Hxs. destruct a as [[j p'] links].
  cbn [return_frame bind] in Hxs. injection Hxs as <-.
  apply xs_loop_spec in E as (_ & base & Hb & Hlen & H0 & Hstep).
  unfold base_frame in Hb. injection Hb as <-.
  assert (Hseg0 : nth_error (Chain.segments self) 0 = Some seg0)
    by (rewrite Hsegs; reflexivity).
  destruct (Hstep 0 seg0 Hseg0) as (prev & local & cur & H1 & H2 & H3 & H4).
  rewrite H0 in H1. injection H1 as <-.
  change (Chain.joints_before self 0) with 0 in H3.
  rewrite Hlocal in H3. injection H3 as <-.
  pose proof (mul_identity_l local0 nb Hshape) as Hid.
  rewrite Hid in H4. injection H4 as <-.
  assert (Hj1 : Chain.joints_before self 1 = 1).
  { unfold Chain.joints_before. rewrite Hsegs. cbn [firstn filter].
    rewrite Hact. reflexivity. }
  set (k := Chain.segments_kept self n).
  assert (Hk : 1 <= k <= Chain.nb_segm self).
  { unfold k, Chain.segments_kept. lia. }
  destruct (ee_fold_follows_xs self x p' local0 Hx Hj1 H2 Hstep (k - 1)) as (fr & Hfr & Hfold);
    [lia|].
  replace (S (k - 1)) with k in Hfr, Hfold by lia.
  exists fr. split; [exact Hfr|].
  unfold Chain.ee_frame. cbn [Chain.q_tensor bind].
  assert (Hp0 : (if Nat.eqb (Tensor.ndims x) 1
                 then s0 <- py_index (Chain.segments self) 0 ;;
                      q0 <- Tensor.get0 x 0 ;;
                      fr0 <- Segment.pose s0 q0 ;; Ok (Some fr0)
                 else if Nat.eqb (Tensor.ndims x) 2
                 then s0 <- py_index (Chain.segments self) 0 ;;
                      q0 <- Tensor.get1 x 0 ;;
                      fr0 <- Segment.pose s0 q0 ;; Ok (Some fr0)
                 else Ok None) = Ok (Some local0)).
  { unfold py_index. rewrite Hseg0. cbn [bind].
    unfold Chain.local_pose, Chain.xs_joint_value in Hlocal. rewrite Hact in Hlocal.
    destruct Hx as [Hx | Hx]; rewrite Hx in Hlocal |- *; cbn [Nat.eqb] in Hlocal |- *.
    - destruct (Tensor.get0 x 0); cbn [bind] in Hlocal |- *; [|discriminate].
      rewrite Hlocal. reflexivity.
    - destruct (Tensor.get1 x 0); cbn [bind] in Hlocal |- *; [|discriminate].
      rewrite Hlocal. reflexivity. }
  rewrite Hp0. cbn [bind]. fold k. unfold Chain.range. rewrite Hfold.
  cbn [bind Chain.bound]. reflexivity.
Qed.

(** X19. The bounds of [n] in [Chain.ee_frame]: a negative [n] makes the
    loop run past the last segment and the call raises; every [n] from
    [nb_segm - 1] on leaves the loop empty and gives the result for
    [nb_segm - 1], the pose of the first segment. *)
Theorem ee_frame_n_bounds (self : Chain.t) (q : qarg) (n : Z) (layout : FkLayout.t) :
  ((n < 0)%Z -> exists e, Chain.ee_frame self q n layout = Raise e) /\
  ((Z.of_nat (Chain.nb_segm self) - 1 <= n)%Z ->
   Chain.ee_frame self q n layout
   = Chain.ee_frame self q (Z.of_nat (Chain.nb_segm self) - 1) layout).
Proof.
  split; intros Hn.
  - destruct (Chain.ee_frame self q n layout) as [v|e] eqn:H; [exfalso | eauto].
    unfold Chain.ee_frame in H. bind_inv H. rename a into x.
    bind_inv H. rename a into p0. bind_inv H. destruct a as [j p].
    set (k := Chain.segments_kept self n) in *.
    assert (Hk : Chain.nb_segm self < k) by (unfold k, Chain.segments_kept; lia).
    destruct (Nat.eq_dec (Chain.nb_segm self) 0) as [Hz|Hz].
    + assert (Hsegs : Chain.segments self = []).
      { unfold Chain.nb_segm in Hz. destruct (Chain.segments self); [reflexivity|discriminate]. }
      assert (Hp0 : p0 = None).
      { rewrite Hsegs in E0. cbn [py_index nth_error bind] in E0.
        destruct (Nat.eqb (Tensor.ndims x) 1); [discriminate|].
        destruct (Nat.eqb (Tensor.ndims x) 2); [discriminate|].
        injection E0 as <-. reflexivity. }
      subst p0. unfold Chain.range in E1.
      destruct (k - 1) as [|len] eqn:Ek.
      * cbn in E1. injection E1 as <- <-. cbn in H. discriminate.
      * destruct (foldM_raises_at (Chain.ee_body self x) (seq 1 (S len)) 1) with (st := (1, @None Frame.t))
          as (e & He).
        -- left; reflexivity.
        -- intros [j' p']. unfold Chain.ee_body. rewrite Hsegs. cbn. eauto.
        -- rewrite He in E1. discriminate.
    + destruct (foldM_raises_at (Chain.ee_body self x) (Chain.range 1 k) (Chain.nb_segm self))
        with (st := (1, p0)) as (e & He).
      * unfold Chain.range. apply in_seq. lia.
      * intros [j' p']. unfold Chain.ee_body, py_index.
        replace (nth_error (Chain.segments self) (Chain.nb_segm self)) with (@None Segment.t)
          by (symmetry; apply nth_error_None; unfold Chain.nb_segm; lia).
        cbn. eauto.
      * rewrite He in E1. discriminate.
  - unfold Chain.ee_frame, Chain.range, Chain.segments_kept.
    replace (Z.to_nat (Z.of_nat (Chain.nb_segm self) - n) - 1) with 0 by lia.
    replace (Z.to_nat (Z.of_nat (Chain.nb_segm self) - (Z.of_nat (Chain.nb_segm self) - 1)) - 1)
      with 0 by lia.
    reflexivity.
Qed.

End EndEffector.
(** ** The joint names of a dictionary of chains *)

Section JointNames.
Context {SC : Scalars}.

Lemma distinct_NoDup (l : list string) : ChainDict.distinct l = true <-> NoDup l.
Proof.
  induction l as [|x l IH]; cbn [ChainDict.distinct].
  - split; [constructor | reflexivity].
  - rewrite andb_true_iff, negb_true_iff, IH. split.
    + intros [Hx Hl]. constructor; [|assumption].
      intros Hin. apply py_in_In in Hin. congruence.
    + intros H. inversion H as [|? ? Hx Hl]; subst. split; [|assumption].
      destruct (py_in x l) eqn:E; [|reflexivity].
      apply py_in_In in E. contradiction.
Qed.

(** The loop of [actuated_joint_names], from any state. *)
Lemma names_fold (chains : list Chain.t) :
  forall names uniq,
  let st := fold_left ChainDict.names_body chains (names, uniq) in
  fst st = names ++ flat_map ChainDict.chain_joint_names chains /\
  (forall x, In x (snd st) <->
             In x uniq \/ In x (flat_map ChainDict.chain_joint_names chains)) /\
  (NoDup uniq ->
   Forall (fun c => NoDup (ChainDict.chain_joint_names c)) chains ->
   NoDup (snd st)).
Proof.
  induction chains as [|c chains IH]; intros names uniq; cbn zeta.
  - cbn. rewrite app_nil_r. repeat split; auto. intros [H|[]]; assumption.
  - cbn [fold_left ChainDict.names_body flat_map].
    set (added := filter (fun name => negb (py_in name uniq))
                         (ChainDict.chain_joint_names c)).
    destruct (IH (names ++ ChainDict.chain_joint_names c) (uniq ++ added))
      as (Hn & Hu & Hd).
    cbn zeta in Hn, Hu, Hd. split; [|split].
    + rewrite Hn, app_assoc. reflexivity.
    + intros x. rewrite Hu, !in_app_iff. unfold added. rewrite filter_In.
      split.
      * intros [[H|[H _]]|H]; auto.
      * intros [H|[H|H]]; auto.
        destruct (py_in x uniq) eqn:E.
        -- apply py_in_In in E. auto.
        -- left; right. split; [assumption|]. reflexivity.
    + intros Hnd Hall. apply Forall_cons_iff in Hall as [Hc Hall].
      apply Hd; [|assumption].
      apply NoDup_app; [assumption | apply NoDup_filter; assumption |].
      intros x Hx Hin. unfold added in Hin. apply filter_In in Hin as [_ Hin].
      apply negb_true_iff in Hin.
      assert (py_in x uniq = true) by (apply py_in_In; assumption). congruence.
Qed.

(** X23. [actuated_joint_names] lists the joint names of the chains in
    order, with repetitions; the list of unique names holds the same
    names, and none of them twice when no chain has two joints of one
    name. *)
Theorem unique_names_invariant (self : ChainDict.t) :
  Forall (fun item => ChainDict.distinct (ChainDict.chain_joint_names (snd item)) = true)
         self ->
  ChainDict.actuated_joint_names self
  = flat_map (fun item => ChainDict.chain_joint_names (snd item)) self /\
  (forall x, In x (ChainDict.unique_names self) <->
             In x (ChainDict.actuated_joint_names self)) /\
  ChainDict.distinct (ChainDict.unique_names self) = true /\
  ChainDict.nb_joint self <= length (ChainDict.actuated_joint_names self).
Proof.
  intros Hall.
  unfold ChainDict.actuated_joint_names, ChainDict.unique_names, ChainDict.nb_joint.
  destruct (names_fold (List.map snd self) [] []) as (Hn & Hu & Hd).
  cbn zeta in Hn, Hu, Hd. cbn [app] in Hn.
  assert (Hflat : flat_map ChainDict.chain_joint_names (List.map snd self)
                  = flat_map (fun item => ChainDict.chain_joint_names (snd item)) self).
  { clear. induction self as [|item self IH]; [reflexivity|].
    cbn. rewrite IH. reflexivity. }
  assert (Hnd : NoDup (snd (fold_left ChainDict.names_body (List.map snd self) ([], [])))).
  { apply Hd; [constructor|]. apply Forall_map.
    eapply Forall_impl; [|exact Hall]. intros item H. apply distinct_NoDup. exact H. }
  split; [rewrite Hn; exact Hflat|]. split; [|split].
  - intros x. rewrite Hu, Hn. split; [intros [[]|H]; assumption | auto].
  - apply distinct_NoDup. exact Hnd.
  - apply NoDup_incl_length; [exact Hnd|].
    intros x Hx. apply Hu in Hx as [[]|Hx]. rewrite Hn. exact Hx.
Qed.

Lemma unique_names_complete (self : ChainDict.t) (item : string * Chain.t) (name : string) :
  In item self -> In name (ChainDict.chain_joint_names (snd item)) ->
  In name (ChainDict.unique_names self).
Proof.
  intros Hitem Hname. unfold ChainDict.unique_names.
  destruct (names_fold (List.map snd self) [] []) as (_ & Hu & _).
  apply Hu. right. apply in_flat_map. exists (snd item).
  split; [apply in_map; assumption | assumption].
Qed.

Lemma Forall2_In_r {A B} (R : A -> B -> Prop) (l : list A) (l' : list B) (b : B) :
  Forall2 R l l' -> In b l' -> exists a, In a l /\ R a b.
Proof.
  induction 1 as [|a0 b0 l l' H0 _ IH]; intros Hin; [destruct Hin|].
  destruct Hin as [<-|Hin].
  - exists a0. split; [left; reflexivity | assumption].
  - destruct (IH Hin) as (a & Ha & HR). exists a. split; [right; assumption | assumption].
Qed.

Lemma mapM_total {A B} (g : A -> result B) (R : A -> B -> Prop) (l : list A) :
  Forall (fun a => exists b, g a = Ok b /\ R a b) l ->
  exists l', mapM g l = Ok l' /\ Forall2 R l l'.
Proof.
  induction 1 as [|a l (b & Hb & Rb) _ (l' & Hl' & Rl')]; cbn.
  - exists []. split; [reflexivity | constructor].
  - rewrite Hb, Hl'. cbn. exists (b :: l'). split; [reflexivity | constructor; assumption].
Qed.

(** The search of the joint names in the list of unique names never
    fails. *)
Lemma idx_chain_positions (self : ChainDict.t) :
  exists idx,
    ChainDict.idx_chain self = Ok idx /\
    Forall2 (fun item entry =>
               fst entry = fst item /\
               Forall2 (fun name i =>
                          nth_error (ChainDict.unique_names self) i = Some name /\
                          i < ChainDict.nb_joint self)
                       (ChainDict.chain_joint_names (snd item)) (snd entry))
            self idx.
Proof.
  unfold ChainDict.idx_chain. apply mapM_total.
  apply Forall_forall. intros item Hitem.
  destruct (mapM_total (fun name => list_index name (ChainDict.unique_names self))
              (fun name i => nth_error (ChainDict.unique_names self) i = Some name /\
                             i < ChainDict.nb_joint self)
              (ChainDict.chain_joint_names (snd item))) as (ix & His & HR).
  - apply Forall_forall. intros name Hname.
    destruct (list_index_first name (ChainDict.unique_names self)) as (i & Hi & Hn & _).
    + eapply unique_names_complete; eassumption.
    + exists i. split; [assumption|]. split; [assumption|].
      unfold ChainDict.nb_joint. apply nth_error_Some. congruence.
  - rewrite His. cbn [bind]. eexists. split; [reflexivity|]. cbn. auto.
Qed.

Lemma get1_in_range (rows : list (list K)) (i : nat) :
  Forall (fun r => i < length r) rows ->
  exists col, Tensor.get1 (T2 rows) i = Ok col.
Proof.
  intros H. cbn [Tensor.get1].
  destruct (mapM_total (Tensor.nthM i) (fun _ _ => True) rows) as (v & Hv & _).
  - eapply Forall_impl; [|exact H]. cbn beta. intros r Hr. unfold Tensor.nthM.
    destruct (nth_error r i) eqn:E; [eauto|].
    apply nth_error_None in E. lia.
  - rewrite Hv. cbn. eauto.
Qed.

(** X24. The search of the joint names in the list of unique names never
    fails: [idx_chain] is defined for every dictionary of chains, has one
    entry per chain under the same key, and each index in it is the
    position, below [nb_joint], of the name of the joint in the list of
    unique names.  The columns [q[:, i]] of a batch [q] with at least
    [nb_joint] columns can therefore all be read. *)
Theorem idx_chain_total (self : ChainDict.t) (rows : list (list K)) :
  exists idx,
    ChainDict.idx_chain self = Ok idx /\
    List.map fst idx = List.map fst self /\
    Forall2 (fun item entry =>
               Forall2 (fun name i =>
                          nth_error (ChainDict.unique_names self) i = Some name /\
                          i < ChainDict.nb_joint self)
                       (ChainDict.chain_joint_names (snd item)) (snd entry))
            self idx /\
    (Forall (fun r => ChainDict.nb_joint self <= length r) rows ->
     exists qs, ChainDict.q_chains (T2 rows) idx = Ok qs /\
                List.map fst qs = List.map fst self).
Proof.
  destruct (idx_chain_positions self) as (idx & Hidx & HR).
  exists idx. split; [exact Hidx|].
  assert (Hkeys : List.map fst idx = List.map fst self).
  { clear Hidx. induction HR as [|item entry self' idx' [Hk _] _ IH]; [reflexivity|].
    cbn. rewrite Hk, IH. reflexivity. }
  split; [exact Hkeys|]. split.
  - eapply Forall2_impl; [|exact HR]. cbn beta. intros item entry [_ H]. exact H.
  - intros Hrows. rewrite <- Hkeys. unfold ChainDict.q_chains.
    destruct (mapM_total
                (fun item : string * list nat =>
                   cols <- mapM (fun i => Tensor.get1 (T2 rows) i) (snd item) ;;
                   Ok (fst item, cols))
                (fun item r => fst r = fst item) idx) as (qs & Hqs & Hfst).
    + apply Forall_forall. intros entry Hentry.
      destruct (Forall2_In_r _ _ _ _ HR Hentry) as (item & _ & _ & Hnames).
      destruct (mapM_total (fun i => Tensor.get1 (T2 rows) i) (fun _ _ => True)
                  (snd entry)) as (cols & Hcols & _).
      * apply Forall_forall. intros i Hi.
        destruct (Forall2_In_r _ _ _ _ Hnames Hi) as (name & _ & _ & Hlt).
        destruct (get1_in_range rows i) as (col & Hcol); [|eauto].
        eapply Forall_impl; [|exact Hrows]. cbn beta. intros r Hr. lia.
      * rewrite Hcols. cbn. eauto.
    + exists qs. split; [exact Hqs|].
      clear - Hfst. induction Hfst as [|entry r idx' qs' Hk _ IH]; [reflexivity|].
      cbn. rewrite Hk, IH. reflexivity.
Qed.

End JointNames.

(** ** Joint vectors and chain names given to a dictionary of chains *)

Section ChainDictCalls.
Context {SC : Scalars}.

Lemma mapM_first_raise {A B} (g : A -> result B) (e : exn) (l : list A) :
  Forall (fun a => g a = Raise e \/ exists b, g a = Ok b) l ->
  Exists (fun a => g a = Raise e) l ->
  mapM g l = Raise e.
Proof.
  induction 1 as [|a l Ha _ IH]; intros Hex; [inversion Hex|].
  cbn [mapM]. destruct Ha as [Ha | (b & Hb)]; [rewrite Ha; reflexivity|].
  rewrite Hb. cbn [bind]. rewrite IH; [reflexivity|].
  inversion Hex as [? ? H|? ? H]; subst; [congruence | assumption].
Qed.

Lemma nb_joint_chain (self : ChainDict.t) :
  1 <= ChainDict.nb_joint self ->
  Exists (fun item => ChainDict.chain_joint_names (snd item) <> []) self.
Proof.
  unfold ChainDict.nb_joint, ChainDict.unique_names. intros H.
  destruct (names_fold (List.map snd self) [] []) as (_ & Hu & _). cbn zeta in Hu.
  destruct (snd (fold_left ChainDict.names_body (List.map snd self) ([], [])))
    as [|x l] eqn:E; [cbn in H; lia|].
  destruct (proj1 (Hu x)) as [[]|Hx]; [left; reflexivity|].
  apply in_flat_map in Hx as (c & Hc & Hx). apply in_map_iff in Hc as (item & <- & Hitem).
  apply Exists_exists. exists item. split; [assumption|].
  intros Hnil. rewrite Hnil in Hx. destruct Hx.
Qed.

Lemma q_chains_unbatched (self : ChainDict.t) (v : list K)
  (idx : list (string * list nat)) :
  1 <= ChainDict.nb_joint self ->
  ChainDict.idx_chain self = Ok idx ->
  ChainDict.q_chains (T1 v) idx = Raise ValueError.
Proof.
  intros Hnb Hidx.
  destruct (idx_chain_positions self) as (idx' & Hidx' & HR).
  rewrite Hidx in Hidx'. injection Hidx' as <-.
  unfold ChainDict.q_chains. apply mapM_first_raise.
  - apply Forall_forall. intros [key ix] _. cbn [fst snd].
    destruct ix as [|i ix]; [right; eexists; reflexivity | left; reflexivity].
  - apply nb_joint_chain in Hnb. apply Exists_exists in Hnb as (item & Hitem & Hne).
    apply In_nth_error in Hitem as (k & Hk).
    assert (Hlen : length self = length idx) by (eapply Forall2_length; eassumption).
    destruct (nth_error idx k) as [entry|] eqn:Hentry.
    2:{ apply nth_error_None in Hentry.
        assert (k < length self) by (apply nth_error_Some; congruence). lia. }
    apply Exists_exists. exists entry. split; [eapply nth_error_In; eassumption|].
    destruct (Forall2_nth_error_r _ _ _ HR k entry Hentry) as (item' & Hk' & _ & Hnames).
    rewrite Hk in Hk'. injection Hk' as <-.
    destruct entry as [key ix]. cbn [fst snd] in *.
    destruct ix as [|i ix]; [|reflexivity].
    inversion Hnames as [Hn|]; subst. symmetry in Hn. contradiction.
Qed.

(** X25. A joint vector without a batch axis is refused: for a dictionary
    with at least one actuated joint, [ChainDict.xs] and
    [ChainDict.jacobian] read the columns [q[:, i]] and raise on a tensor
    of rank 1, whatever their other arguments. *)
Theorem chaindict_unbatched_q_raises (self : ChainDict.t) (v : list K) (n : Z)
  (layout : FkLayout.t) (fb : floating_base) (name : option string) (get_links : bool) :
  1 <= ChainDict.nb_joint self ->
  ChainDict.xs self (T1 v) layout fb name get_links = Raise ValueError /\
  ChainDict.jacobian self (T1 v) n layout fb name = Raise ValueError.
Proof.
  intros Hnb. destruct (idx_chain_positions self) as (idx & Hidx & _).
  unfold ChainDict.xs, ChainDict.jacobian. rewrite Hidx. cbn [bind].
  rewrite (q_chains_unbatched self v idx Hnb Hidx). split; reflexivity.
Qed.

Lemma dict_get_missing {A} (d : list (string * A)) (key : string) :
  ~ In key (List.map fst d) -> dict_get d key = Raise KeyError.
Proof.
  induction d as [|[k a] d IH]; intros H; [reflexivity|].
  cbn [dict_get]. destruct (String.eqb k key) eqn:E.
  - apply String.eqb_eq in E. subst k. exfalso. apply H. left; reflexivity.
  - apply IH. intros Hin. apply H. right; assumption.
Qed.

(** X26. A name that is no key of the dictionary: [ChainDict.xs] and
    [ChainDict.jacobian] raise, and once the joint columns are read the
    error is the [KeyError] of [self[name]]. *)
Theorem chaindict_unknown_name_raises (self : ChainDict.t) (q : tensor) (n : Z)
  (layout : FkLayout.t) (fb : floating_base) (name : string) (get_links : bool) :
  ~ In name (List.map fst self) ->
  (exists e, ChainDict.xs self q layout fb (Some name) get_links = Raise e) /\
  (exists e, ChainDict.jacobian self q n layout fb (Some name) = Raise e) /\
  (forall idx qs,
     ChainDict.idx_chain self = Ok idx -> ChainDict.q_chains q idx = Ok qs ->
     ChainDict.xs self q layout fb (Some name) get_links = Raise KeyError /\
     ChainDict.jacobian self q n layout fb (Some name) = Raise KeyError).
Proof.
  intros Hkey. pose proof (dict_get_missing self name Hkey) as Hget.
  unfold ChainDict.xs, ChainDict.jacobian.
  destruct (ChainDict.idx_chain self) as [idx|e]; cbn [bind].
  - destruct (ChainDict.q_chains q idx) as [qs|e] eqn:Eq; cbn [bind].
    + rewrite Hget. cbn [bind]. split; [|split]; eauto.
    + split; [|split]; eauto.
      intros idx' qs' H H'. injection H as <-. rewrite Eq in H'. discriminate H'.
  - split; [|split]; eauto. intros idx' qs' H. discriminate H.
Qed.

End ChainDictCalls.

(** ** The poses of a dictionary of chains *)

Section ChainDictPoses.
Context {SC : Scalars}.

Lemma distinct_keys_agree {A} (l : list (string * A)) (key : string) (a b : A) :
  ChainDict.distinct (List.map fst l) = true ->
  In (key, a) l -> In (key, b) l -> a = b.
Proof.
  induction l as [|[k x] l IH]; intros Hd Ha Hb; [destruct Ha|].
  cbn [List.map fst] in Hd.
  assert (Hk : forall y, In (k, y) l -> False).
  { intros y Hy. pose proof (distinct_head k (List.map fst l) k Hd) as H.
    rewrite String.eqb_refl in H. discriminate H.
    apply in_map_iff. exists (k, y). auto. }
  cbn in Hd. apply andb_prop in Hd as [_ Hd].
  destruct Ha as [Ha|Ha], Hb as [Hb|Hb].
  - congruence.
  - injection Ha as -> ->. exfalso. eapply Hk; eassumption.
  - injection Hb as -> ->. exfalso. eapply Hk; eassumption.
  - eapply IH; eassumption.
Qed.


Lemma Forall2_compose {A B C} (R : A -> B -> Prop) (S : B -> C -> Prop)
  (la : list A) (lb : list B) (lc : list C) :
  Forall2 R la lb -> Forall2 S lb lc ->
  Forall2 (fun a c => exists b, R a b /\ S b c) la lc.
Proof.
  intros H; revert lc. induction H as [|a b la lb Hab _ IH]; intros lc Hc;
    inversion Hc; subst; constructor; eauto.
Qed.

(** X27. [ChainDict.xs] without a chain name and without links returns one
    entry per chain, under the key of the chain and in the order of the
    dictionary: what [Chain.xs] of that chain returns for the list of the
    columns [q[:, i]] found at the positions [i] of the chain's joint
    names in the list of unique names. *)
Theorem chaindict_xs_per_chain (self : ChainDict.t) (q : tensor)
  (layout : FkLayout.t) (fb : floating_base) (d : list (string * xs_value)) :
  ChainDict.distinct (List.map fst self) = true ->
  ChainDict.xs self q layout fb None false = Ok (ChainDict.AllPoses d) ->
  List.map fst d = List.map fst self /\
  forall key chain, In (key, chain) self ->
    exists qc v,
      dict_get d key = Ok v /\
      Forall2 (fun name col =>
                 exists i, nth_error (ChainDict.unique_names self) i = Some name /\
                           Tensor.get1 q i = Ok col)
              (ChainDict.chain_joint_names chain) qc /\
      Chain.xs chain (QList qc) layout fb false = Ok v.
Proof.
  intros Hd H. destruct (idx_chain_positions self) as (idx & Hidx & HR).
  unfold ChainDict.xs in H. rewrite Hidx in H. cbn [bind] in H.
  bind_inv H. rename a into qs, E into Hqs.
  bind_inv H. rename a into xs_chains, E into Hxs.
  cbn [negb] in H. injection H as <-.
  destruct (mapM_keyed _ _ _
              (fun item r (Hr : (qc <- dict_get qs (fst item) ;;
                                 v <- Chain.xs (snd item) (QList qc) layout fb false ;;
                                 Ok (fst item, v)) = Ok r) =>
                 ltac:(bind_inv Hr; bind_inv Hr; injection Hr as <-; reflexivity))
              Hxs) as [Hkeys Hget].
  split; [assumption|].
  intros key chain Hin.
  destruct (Hget Hd key chain Hin) as (v & Hbody & Hv).
  cbn [fst snd] in Hbody. bind_inv Hbody. rename a into qc, E into Hqc.
  bind_inv Hbody. injection Hbody as ->. rename E into Hchain.
  exists qc, v. split; [assumption|]. split; [|assumption].
  apply dict_get_In in Hqc.
  unfold ChainDict.q_chains in Hqs. apply mapM_Forall2 in Hqs.
  destruct (Forall2_In_r _ _ _ _ Hqs Hqc) as ([key' ix] & Hix & Hcols).
  cbn [fst snd] in Hcols. bind_inv Hcols. injection Hcols as -> ->.
  rename E into Hcols.
  destruct (Forall2_In_r _ _ _ _ HR Hix) as ([key'' chain'] & Hin' & Hk & Hnames).
  cbn [fst snd] in Hk, Hnames. subst key''.
  assert (chain' = chain) by (eapply distinct_keys_agree; eassumption). subst chain'.
  apply mapM_Forall2 in Hcols.
  eapply Forall2_impl; [|exact (Forall2_compose _ _ _ _ _ Hnames Hcols)].
  cbn beta. intros name col (i & [Hi _] & Hcol). eauto.
Qed.

End ChainDictPoses.
(** ** Joint limits *)

Section Constraints.
Context {SC : Scalars} {SF : ScalarFunctions SC}.
Variable limits : Segment.t -> list (string * K).

(** X22. [Chain.constraints] never reads the torques: its third loop
    unstacks [dq], so that any two values of [tau] give the same cost, and
    a call with torques and without velocities raises. *)
Theorem constraints_never_reads_tau (self : Chain.t) (q : tensor)
  (dq : option tensor) (tau tau' : tensor) (alpha : K) :
  Limits.constraints limits self q dq (Some tau) alpha
  = Limits.constraints limits self q dq (Some tau') alpha /\
  (dq = None ->
   exists e, Limits.constraints limits self q None (Some tau) alpha = Raise e).
Proof.
  split; [reflexivity|]. intros _. unfold Limits.constraints.
  destruct (Limits.unstack_last q) as [qs|e]; cbn [bind]; [|eauto].
  destruct (Limits.cost_loop (Limits.position_terms limits alpha) qs self [])
    as [cost|e]; cbn [bind Limits.unstack_optional]; eauto.
Qed.

Lemma cost_loop_agree (terms : Segment.t -> tensor -> result (list tensor))
  (segs : list Segment.t) :
  forall cols cols' cost,
  (forall i seg, nth_error segs i = Some seg ->
     (nth_error cols i = None <-> nth_error cols' i = None) /\
     (Segment.actuated seg = true -> nth_error cols i = nth_error cols' i)) ->
  Limits.cost_loop terms cols (Chain.Chain segs) cost
  = Limits.cost_loop terms cols' (Chain.Chain segs) cost.
Proof.
  unfold Limits.cost_loop. cbn [Chain.segments].
  induction segs as [|seg segs IH]; intros cols cols' cost H.
  - destruct cols, cols'; reflexivity.
  - destruct (H 0 seg eq_refl) as [Hnone Hsame].
    destruct cols as [|c cols], cols' as [|c' cols']; cbn [nth_error] in Hnone, Hsame.
    + reflexivity.
    + exfalso. destruct Hnone as [Hn _]. discriminate (Hn eq_refl).
    + exfalso. destruct Hnone as [_ Hn]. discriminate (Hn eq_refl).
    + cbn [combine foldM fst snd].
      assert (Htail : forall i s, nth_error segs i = Some s ->
                (nth_error cols i = None <-> nth_error cols' i = None) /\
                (Segment.actuated s = true -> nth_error cols i = nth_error cols' i)).
      { intros i s Hi. exact (H (S i) s Hi). }
      destruct (Segment.actuated seg) eqn:Ha.
      * injection (Hsame eq_refl) as <-.
        destruct (terms seg c) as [ts|e]; cbn [bind]; [|reflexivity].
        apply IH; assumption.
      * cbn [bind]. apply IH; assumption.
Qed.

(** X21. [Chain.constraints] pairs the entries of [q] with the segments by
    position: the entry at index [i] is tested against the limits of the
    segment at index [i], and skipped when that segment is fixed.  The
    cost depends on [q] only through the entries at the positions of the
    actuated segments. *)
Theorem constraints_pairs_by_segment_index (self : Chain.t) (q q' : tensor)
  (cols cols' : list tensor) (dq tau : option tensor) (alpha : K) :
  Limits.unstack_last q = Ok cols -> Limits.unstack_last q' = Ok cols' ->
  (forall i seg, nth_error (Chain.segments self) i = Some seg ->
     (nth_error cols i = None <-> nth_error cols' i = None) /\
     (Segment.actuated seg = true -> nth_error cols i = nth_error cols' i)) ->
  Limits.constraints limits self q dq tau alpha
  = Limits.constraints limits self q' dq tau alpha.
Proof.
  intros Hq Hq' H. unfold Limits.constraints. rewrite Hq, Hq'. cbn [bind].
  destruct self as [segs]. cbn [Chain.segments] in H.
  rewrite (cost_loop_agree _ segs cols cols' [] H). reflexivity.
Qed.

End Constraints.

(** ** The cached properties of a dictionary of chains *)

Section CachedProperties.
Context {SC : Scalars} {SF : ScalarFunctions SC}.
Variable limits : Segment.t -> list (string * K).

(** [has_key d k]: the dictionary [d] has the key [k]. *)
Local Abbreviation has_key d k := (exists v, dict_get d k = Ok v).

Lemma dict_set_has_key {A} (d : list (string * A)) (k : string) (v : A) :
  has_key (dict_set d k v) k.
Proof.
  induction d as [|[k' v'] d IH]; cbn [dict_set].
  - exists v. cbn. rewrite String.eqb_refl. reflexivity.
  - destruct (String.eqb k' k) eqn:E.
    + exists v. cbn. rewrite String.eqb_refl. reflexivity.
    + cbn [dict_get]. rewrite E. exact IH.
Qed.

Lemma dict_set_keeps_keys {A} (d : list (string * A)) (k k0 : string) (v : A) :
  has_key d k0 -> has_key (dict_set d k v) k0.
Proof.
  induction d as [|[k' v'] d IH]; cbn [dict_set dict_get]; intros (v0 & H);
    [discriminate|].
  destruct (String.eqb k' k) eqn:E.
  - apply String.eqb_eq in E. subst k'. cbn [dict_get].
    destruct (String.eqb k k0); eauto.
  - cbn [dict_get]. destruct (String.eqb k' k0); eauto.
Qed.

(** The loop over the segments of one chain. *)
Lemma limits_chain_total {A} (value : Segment.t -> result A) (segs : list Segment.t) :
  Forall (fun seg => Segment.actuated seg = true -> exists v, value seg = Ok v) segs ->
  forall d,
  exists d',
    foldM (fun d seg =>
             if Segment.actuated seg
             then v <- value seg ;; Ok (dict_set d (Segment.child_name seg) v)
             else Ok d) segs d = Ok d' /\
    (forall k, has_key d k -> has_key d' k) /\
    (forall name,
       In name (List.map Segment.child_name (filter Segment.actuated segs)) ->
       has_key d' name).
Proof.
  induction 1 as [|seg segs Hseg _ IH]; intros d; cbn [foldM filter].
  - exists d. repeat split; auto. intros name [].
  - destruct (Segment.actuated seg) eqn:Ha.
    + destruct (Hseg eq_refl) as (v & ->). cbn [bind].
      destruct (IH (dict_set d (Segment.child_name seg) v)) as (d' & -> & Hkeep & Hnew).
      exists d'. split; [reflexivity|]. split.
      * intros k Hk. apply Hkeep, dict_set_keeps_keys, Hk.
      * cbn [List.map]. intros name [<-|Hin]; [|auto].
        apply Hkeep, dict_set_has_key.
    + cbn [bind]. destruct (IH d) as (d' & -> & Hkeep & Hnew). eauto.
Qed.

Lemma limits_all_total {A} (value : Segment.t -> result A) (self : ChainDict.t) :
  Forall (fun item =>
            Forall (fun seg => Segment.actuated seg = true -> exists v, value seg = Ok v)
                   (Chain.segments (snd item))) self ->
  exists d, Limits.limits_all value self = Ok d /\
            forall name, In name (ChainDict.unique_names self) -> has_key d name.
Proof.
  intros Hall. unfold Limits.limits_all.
  assert (Hgen : forall d0, exists d,
            foldM (fun d item =>
                     foldM (fun d seg =>
                              if Segment.actuated seg
                              then v <- value seg ;; Ok (dict_set d (Segment.child_name seg) v)
                              else Ok d) (Chain.segments (snd item)) d) self d0 = Ok d /\
            (forall k, has_key d0 k -> has_key d k) /\
            (forall name,
               In name (flat_map (fun item => ChainDict.chain_joint_names (snd item)) self) ->
               has_key d name)).
  { induction Hall as [|item self Hitem _ IH]; intros d0; cbn [foldM flat_map].
    - exists d0. repeat split; auto. intros name [].
    - destruct (limits_chain_total value _ Hitem d0) as (d1 & -> & Hkeep1 & Hnew1).
      cbn [bind]. destruct (IH d1) as (d & -> & Hkeep & Hnew).
      exists d. split; [reflexivity|]. split; [auto|].
      intros name Hin. apply in_app_or in Hin as [Hin|Hin]; [|auto].
      apply Hkeep, Hnew1. exact Hin. }
  destruct (Hgen []) as (d & Hd & _ & Hnew). exists d. split; [assumption|].
  intros name Hin. apply Hnew.
  unfold ChainDict.unique_names in Hin.
  destruct (names_fold (List.map snd self) [] []) as (_ & Hu & _). cbn zeta in Hu.
  apply Hu in Hin as [[]|Hin].
  clear - Hin. induction self as [|item self IH]; [exact Hin|].
  cbn [List.map flat_map] in Hin |- *.
  apply in_app_or in Hin as [Hin|Hin]; apply in_or_app; auto.
Qed.

Lemma lookups_total {A} (d : list (string * A)) (names : list string) :
  (forall name, In name names -> has_key d name) ->
  exists l, mapM (dict_get d) names = Ok l /\ length l = length names.
Proof.
  intros H. destruct (mapM_total (dict_get d) (fun _ _ => True) names) as (l & Hl & HR).
  - apply Forall_forall. intros name Hin. destruct (H name Hin) as (v & Hv). eauto.
  - exists l. split; [assumption|]. symmetry. eapply Forall2_length; eassumption.
Qed.

(** X28. [ChainDict.mean_pose] does not compute the joint names it iterates
    over.  On a new dictionary of chains whose actuated joints all have
    the limits [low] and [up], it raises [TypeError], while
    [ChainDict.joint_limits] returns one pair per unique joint name; read
    after [joint_limits], [mean_pose] returns one value per unique joint
    name. *)
Theorem mean_pose_needs_joint_names (self : ChainDict.t) :
  Forall (fun item =>
            Forall (fun seg => Segment.actuated seg = true ->
                               exists low up, Limits.limit limits seg "low" = Ok low /\
                                              Limits.limit limits seg "up" = Ok up)
                   (Chain.segments (snd item))) self ->
  Limits.dict_mean_pose limits self Limits.fresh = Raise TypeError /\
  exists l c1,
    Limits.dict_joint_limits limits self Limits.fresh = Ok (l, c1) /\
    length l = ChainDict.nb_joint self /\
    exists m c2,
      Limits.dict_mean_pose limits self c1 = Ok (m, c2) /\
      length m = ChainDict.nb_joint self.
Proof.
  intros Hall.
  assert (Hlu : Forall (fun item =>
            Forall (fun seg => Segment.actuated seg = true ->
                               exists v, Limits.low_up limits seg = Ok v)
                   (Chain.segments (snd item))) self).
  { eapply Forall_impl; [|exact Hall]. intros item Hitem.
    eapply Forall_impl; [|exact Hitem]. intros seg Hseg Ha.
    destruct (Hseg Ha) as (low & up & Hl & Hu). unfold Limits.low_up.
    rewrite Hl, Hu. cbn. eauto. }
  assert (Hmean : Forall (fun item =>
            Forall (fun seg => Segment.actuated seg = true ->
                               exists v, Limits.mean_low_up limits seg = Ok v)
                   (Chain.segments (snd item))) self).
  { eapply Forall_impl; [|exact Hall]. intros item Hitem.
    eapply Forall_impl; [|exact Hitem]. intros seg Hseg Ha.
    destruct (Hseg Ha) as (low & up & Hl & Hu). unfold Limits.mean_low_up.
    rewrite Hl, Hu. cbn. eauto. }
  destruct (limits_all_total _ self Hlu) as (d1 & Hd1 & Hk1).
  destruct (limits_all_total _ self Hmean) as (d2 & Hd2 & Hk2).
  destruct (lookups_total d1 _ Hk1) as (l & Hl & Hlen).
  destruct (lookups_total d2 _ Hk2) as (m & Hm & Hlenm).
  split.
  - unfold Limits.dict_mean_pose. cbn [Limits.fresh Limits._mean_pose Limits._unique_names].
    rewrite Hd2. reflexivity.
  - unfold Limits.dict_joint_limits, Limits.actuated_joint_names.
    cbn [Limits.fresh Limits._joint_limits Limits._names Limits._unique_names bind].
    rewrite Hd1. cbn [bind Limits.iterate].
    fold (ChainDict.unique_names self). rewrite Hl. cbn [bind].
    eexists. eexists. split; [reflexivity|]. split; [exact Hlen|].
    unfold Limits.dict_mean_pose. cbn [Limits._mean_pose Limits._unique_names].
    rewrite Hd2. cbn [bind Limits.iterate]. rewrite Hm. cbn [bind].
    eexists. eexists. split; [reflexivity | exact Hlenm].
Qed.

End CachedProperties.
(** ** The product of experts *)

Section ProductOfExperts.
Context {SC : Scalars} {SR : ScalarRing SC}.

Add Ring K_ring_poe : scalar_ring.

Lemma experts_fold (self : PoE.t) (x : tensor) (exps : list Expert.t) :
  forall a probs0 printed0 probs printed,
  foldM (fun st ie =>
           ' (p, pr) <- PoE.expert_prob self x (fst ie) (snd ie) ;;
           Ok (fst st ++ [p], snd st ++ pr))
        (combine (seq a (length exps)) exps) (probs0, printed0) = Ok (probs, printed) ->
  length probs = length probs0 + length exps /\
  match PoE.transfs self with
  | PoE.TransfList l =>
      printed = printed0 ++ PoE.unnormalized_from a exps /\
      (exps <> [] -> a + length exps <= length l)
  | PoE.TransfFun _ => printed = printed0
  end.
Proof.
  induction exps as [|exp exps IH]; intros a probs0 printed0 probs printed H.
  - cbn in H. injection H as <- <-. cbn. split; [lia|].
    destruct (PoE.transfs self); [|reflexivity].
    rewrite app_nil_r. split; [reflexivity|]. intros Hne. contradiction.
  - cbn [length seq combine foldM fst snd] in H.
    apply bind_Ok_inv in H as ([probs1 printed1] & E & H).
    apply bind_Ok_inv in E as ([p pr] & Ep & E). injection E as <- <-.
    apply IH in H as (Hlen & Hpr).
    rewrite length_app in Hlen. cbn [length] in Hlen |- *.
    split; [lia|].
    unfold PoE.expert_prob in Ep.
    destruct (PoE.transfs self) as [l|f].
    + destruct Hpr as (Hpr & Hl).
      assert (Hstep : pr = match Expert._log_unnormalized_prob exp with
                           | Some _ => [a] | None => [] end /\ a < length l).
      { destruct (py_index l a) as [g|e] eqn:Eg.
        - assert (Ha : a < length l).
          { unfold py_index in Eg. apply nth_error_Some.
            destruct (nth_error l a); [discriminate | discriminate Eg]. }
          destruct (Expert._log_unnormalized_prob exp);
            cbn [bind] in Ep; bind_inv Ep; bind_inv Ep; injection Ep as _ <-; auto.
        - destruct (Expert._log_unnormalized_prob exp); discriminate Ep. }
      destruct Hstep as (-> & Ha). split.
      * rewrite Hpr, <- app_assoc. f_equal. cbn [PoE.unnormalized_from].
        destruct (Expert._log_unnormalized_prob exp); reflexivity.
      * intros _. destruct exps as [|exp' exps']; [cbn; lia|].
        cbn [length] in Hl |- *.
        assert (S a + S (length exps') <= length l) by (apply Hl; discriminate).
        lia.
    + rewrite Hpr.
      destruct (Expert._log_unnormalized_prob exp);
        bind_inv Ep; bind_inv Ep; injection Ep as _ <-; apply app_nil_r.
Qed.

(** X29. When [PoE._experts_probs] returns, it returns one log probability
    per expert.  With a list of transforms it has printed the indices of
    exactly the experts that have the attribute [_log_unnormalized_prob],
    in order, and the list has at least as many entries as there are
    experts: with fewer, the call raises.  With a function for the
    transforms it has printed nothing. *)
Theorem experts_probs_one_per_expert (self : PoE.t) (x : tensor)
  (probs : list tensor) (printed : list nat) :
  PoE._experts_probs self x = Ok (probs, printed) ->
  length probs = PoE.nb_experts self /\
  match PoE.transfs self with
  | PoE.TransfList l =>
      printed = PoE.unnormalized_from 0 (PoE.experts self) /\
      PoE.nb_experts self <= length l
  | PoE.TransfFun _ => printed = []
  end.
Proof.
  intros H. unfold PoE._experts_probs in H.
  apply experts_fold in H as (Hlen & Hpr).
  unfold PoE.nb_experts. split; [exact Hlen|].
  destruct (PoE.transfs self) as [l|f]; [|exact Hpr].
  destruct Hpr as (Hpr & Hl). split; [exact Hpr|].
  destruct (PoE.experts self) as [|exp exps] eqn:E; [cbn; lia|].
  apply Hl. discriminate.
Qed.

Lemma map_sub_zero (s : tensor) : Tensor.map (fun a => ksub a k0) s = s.
Proof.
  assert (Hid : forall v : list K, List.map (fun a => ksub a k0) v = v).
  { intros v. rewrite <- (map_id v) at 2. apply map_ext. intros a. ring. }
  assert (Hid2 : forall m : list (list K),
            List.map (List.map (fun a => ksub a k0)) m = m).
  { intros m. rewrite <- (map_id m) at 2. apply map_ext. exact Hid. }
  destruct s as [c|v|a|b]; cbn [Tensor.map].
  - f_equal. ring.
  - f_equal. apply Hid.
  - f_equal. apply Hid2.
  - f_equal. rewrite <- (map_id b) at 2. apply map_ext. exact Hid2.
Qed.

(** X30. Without a cost function, [PoE._log_unnormalized_prob] subtracts the
    number 0: the flag [wo_cost] makes no difference to the value returned
    nor to what is printed. *)
Theorem log_prob_without_cost (self : PoE.t) (x : tensor) :
  PoE.cost self = None ->
  PoE._log_unnormalized_prob self x false = PoE._log_unnormalized_prob self x true.
Proof.
  intros Hc. unfold PoE._log_unnormalized_prob. rewrite Hc.
  destruct (if Nat.eqb (Tensor.ndims x) 1 then Tensor.expand0 x else Ok x) as [x'|e];
    cbn [bind]; [|reflexivity].
  destruct (PoE._experts_probs self x') as [[probs printed]|e]; cbn [bind]; [|reflexivity].
  destruct (Tensor.reduce_sum_list probs) as [s|e]; cbn [bind]; [|reflexivity].
  rewrite map_sub_zero. reflexivity.
Qed.

End ProductOfExperts.
(** ** Evaluations of the further properties on integer inputs *)

Section FurtherEvaluations.

Local Open Scope Z_scope.

(** A rotation by a third of a turn about the diagonal. *)
Local Abbreviation turn := ([[0; 1; 0]; [0; 0; 1]; [1; 0; 0]]).

(** A quarter turn about the third axis. *)
Local Abbreviation quarter := ([[0; -1; 0]; [1; 0; 0]; [0; 0; 1]]).

Local Abbreviation eye_Z := ([[1; 0; 0]; [0; 1; 0]; [0; 0; 1]]).

(** One frame, and a batch of two frames. *)
Local Abbreviation frame_a := (Frame.Frame (T1 [1; 2; 3]) (T2 turn)).
Local Abbreviation frame_b := (Frame.Frame (T1 [0; 5; 0]) (T2 quarter)).
Local Abbreviation frame_c := (Frame.Frame (T1 [7; 0; 1]) (T2 eye_Z)).
Local Abbreviation frames_ab :=
  (Frame.Frame (T2 [[1; 2; 3]; [0; 5; 0]]) (T3 [turn; quarter])).

(** Every joint has the limits 0 and 10. *)
Local Abbreviation limits_0_10 :=
  (fun _ : Segment.t => [("low"%string, 0); ("up"%string, 10)]).

(** The theorem [frame_identity_neutral] at a batch of two frames. *)
Lemma frame_identity_neutral_witness :
  (single_frame frames_ab = true \/ batch_frame 2 frames_ab = true) /\
  Frame.mul Frame.identity frames_ab = Ok frames_ab /\
  Frame.mul frames_ab Frame.identity = Ok frames_ab /\
  Frame.mul Frame.identity Frame.identity = Ok (Frame.identity (SC := Z_scalars)).
Proof.
  split; [right; reflexivity|].
  refine (@frame_identity_neutral Z_scalars Z_scalar_ring frames_ab 2%nat _).
  right; reflexivity.
Defined.

(** The theorem [frame_mul_assoc] at three frames. *)
Lemma frame_mul_assoc_witness :
  single_frame frame_a = true /\ single_frame frame_b = true /\
  single_frame frame_c = true /\
  exists D,
    (ab <- Frame.mul frame_a frame_b ;; Frame.mul ab frame_c) = Ok D /\
    (bc <- Frame.mul frame_b frame_c ;; Frame.mul frame_a bc) = Ok D /\
    single_frame D = true.
Proof.
  split; [reflexivity|]. split; [reflexivity|]. split; [reflexivity|].
  refine (@frame_mul_assoc Z_scalars Z_scalar_ring frame_a frame_b frame_c _ _ _);
    reflexivity.
Defined.

(** The theorem [inv_unbatched_compose] at a frame that turns. *)
Lemma inv_unbatched_compose_witness :
  length [1; 2; 3] = 3%nat /\ orthonormal turn /\
  (i <- Frame.inv frame_a ;; Frame.mul frame_a i) = Ok Frame.identity.
Proof.
  assert (Ho : orthonormal (SC := Z_scalars) turn) by (repeat split; reflexivity).
  split; [reflexivity|]. split; [exact Ho|].
  refine (@inv_unbatched_compose Z_scalars Z_scalar_ring [1; 2; 3] turn _ Ho).
  reflexivity.
Defined.

(** The theorem [frame_inv_involutive] at the same frame. *)
Lemma frame_inv_involutive_witness :
  length [1; 2; 3] = 3%nat /\ orthonormal turn /\
  (i <- Frame.inv frame_a ;; Frame.inv i) = Ok frame_a.
Proof.
  assert (Ho : orthonormal (SC := Z_scalars) turn) by (repeat split; reflexivity).
  split; [reflexivity|]. split; [exact Ho|].
  refine (@frame_inv_involutive Z_scalars Z_scalar_ring [1; 2; 3] turn _ Ho).
  reflexivity.
Defined.

(** The theorem [frame_times_twist_on_batch] at two twists. *)
Lemma frame_times_twist_on_batch_witness :
  let tws := [[1; 2; 3; 4; 5; 6]; [0; 0; 1; 0; 1; 0]] in
  length tws = 2%nat /\ rows_ok 6 tws = true /\
  single_frame frame_a = true /\ batch_frame 2 frames_ab = true /\
  Frame.mul_twist frame_a (Twist.Twist (T2 tws)) = Raise ValueError /\
  exists d, Frame.mul_twist frames_ab (Twist.Twist (T2 tws)) = Ok (Twist.Twist (T2 d)) /\
            length d = (2 * 2)%nat /\ rows_ok 3 d = true.
Proof.
  cbv zeta. split; [reflexivity|]. split; [reflexivity|].
  split; [reflexivity|]. split; [reflexivity|].
  refine (@frame_times_twist_on_batch Z_scalars frame_a frames_ab
            [[1; 2; 3; 4; 5; 6]; [0; 0; 1; 0; 1; 0]] 2%nat _ _ _ _); reflexivity.
Defined.

(** The theorem [frame_acts_on_points] at two frames and two points. *)
Lemma frame_acts_on_points_witness :
  let pts := [[1; 0; 0]; [2; 3; 4]] in
  single_frame frame_a = true /\ single_frame frame_b = true /\
  rows_ok 3 pts = true /\ pts <> [] /\
  exists ys zs,
    FrameOps.mul_points frame_b (FrameOps.Points pts) = Ok (T2 ys) /\
    FrameOps.mul_points frame_a (FrameOps.Points ys) = Ok (T2 zs) /\
    (ab <- Frame.mul frame_a frame_b ;; FrameOps.mul_points ab (FrameOps.Points pts))
    = Ok (T2 zs) /\
    length zs = length pts.
Proof.
  cbv zeta. split; [reflexivity|]. split; [reflexivity|]. split; [reflexivity|].
  split; [discriminate|].
  refine (@frame_acts_on_points Z_scalars Z_scalar_ring frame_a frame_b
            [[1; 0; 0]; [2; 3; 4]] _ _ _ _); try reflexivity. discriminate.
Defined.

(** The theorem [frame_batch_on_points_mismatch] at two frames and
    three points. *)
Lemma frame_batch_on_points_mismatch_witness :
  let pts := [[1; 0; 0]; [2; 3; 4]; [0; 0; 1]] in
  batch_frame 2 frames_ab = true /\ rows_ok 3 pts = true /\ length pts = 3%nat /\
  (1 < 2)%nat /\ (1 < 3)%nat /\ 2%nat <> 3%nat /\
  FrameOps.mul_points frames_ab (FrameOps.Points pts) = Raise ValueError.
Proof.
  cbv zeta. split; [reflexivity|]. split; [reflexivity|]. split; [reflexivity|].
  split; [lia|]. split; [lia|]. split; [lia|].
  refine (@frame_batch_on_points_mismatch Z_scalars frames_ab
            [[1; 0; 0]; [2; 3; 4]; [0; 0; 1]] 2%nat 3%nat _ _ _ _ _ _);
    try reflexivity; lia.
Defined.

(** The theorem [frame_batch_on_points_square] at two frames and two
    points. *)
Lemma frame_batch_on_points_square_witness :
  let ps := [[1; 2; 3]; [0; 5; 0]] in
  let ms := [turn; quarter] in
  let pts := [[1; 0; 0]; [2; 3; 4]] in
  batch_frame 2 (Frame.Frame (T2 ps) (T3 ms)) = true /\
  rows_ok 3 pts = true /\ length pts = 2%nat /\ (1 <= 2)%nat /\
  exists r,
    FrameOps.mul_points (Frame.Frame (T2 ps) (T3 ms)) (FrameOps.Points pts) = Ok (T3 r) /\
    length r = 2%nat /\
    forall a b m_a p_b x_b,
      nth_error ms a = Some m_a -> nth_error ps b = Some p_b ->
      nth_error pts b = Some x_b ->
      exists y,
        FrameOps.mul_points (Frame.Frame (T1 p_b) (T2 m_a)) (FrameOps.Point x_b)
        = Ok (T2 [y]) /\
        (row <- py_index r a ;; py_index row b) = Ok y.
Proof.
  cbv zeta. split; [reflexivity|]. split; [reflexivity|]. split; [reflexivity|].
  split; [lia|].
  refine (@frame_batch_on_points_square Z_scalars
            [[1; 2; 3]; [0; 5; 0]] [turn; quarter] [[1; 0; 0]; [2; 3; 4]] 2%nat _ _ _ _);
    try reflexivity; lia.
Defined.

(** The theorem [ref_point_zero_displacement] at a batch of one twist. *)
Lemma ref_point_zero_displacement_witness :
  let T := Twist.Twist (T2 [[1; 2; 3; 4; 5; 6]]) in
  vec_batch 6 (Twist.dx T) = Some (Some 1%nat) /\
  Twist.ref_point T (T1 [0; 0; 0]) = Ok T.
Proof.
  cbv zeta. split; [reflexivity|].
  refine (@ref_point_zero_displacement Z_scalars Z_scalar_ring
            (Twist.Twist (T2 [[1; 2; 3; 4; 5; 6]])) (Some 1%nat) _).
  reflexivity.
Defined.

(** The theorem [dx_mat_matches_frame_layout] at one twist and one
    rotation, in the layout [xmv]. *)
Lemma dx_mat_matches_frame_layout_witness :
  let tw := Twist.Twist (T1 [1; 2; 3; 4; 5; 6]) in
  let m := T2 turn in
  (Twist.is_batch tw = true \/ Tensor.ndims m = 2%nat) /\
  Twist.dx_mat tw m FkLayout.xmv
  = (r0 <- Twist.rot tw ;;
     w <- tf_utils.angular_vel_tensor r0 ;;
     dm_dphi <- tf_utils.matmatmul w m ;;
     v0 <- Twist.vel tw ;;
     if FkLayout.eqb FkLayout.xmv FkLayout.xmv
     then Frame.xmv (Frame.Frame v0 dm_dphi)
     else Frame.xm (Frame.Frame v0 dm_dphi)).
Proof.
  cbv zeta. split; [right; reflexivity|].
  refine (@dx_mat_matches_frame_layout Z_scalars
            (Twist.Twist (T1 [1; 2; 3; 4; 5; 6])) (T2 turn) FkLayout.xmv _).
  right; reflexivity.
Defined.

(** The theorem [stack_batch_vectors] at three vectors. *)
Lemma stack_batch_vectors_witness :
  let rows := [[1; 2]; [3; 4]; [5; 6]] in
  rows <> [] /\ Forall (fun r => length r = 2%nat) rows /\
  stack_batch (List.map T1 rows) = Ok (VTensor (T2 rows)).
Proof.
  cbv zeta.
  assert (Hf : Forall (fun r : list Z => length r = 2%nat) [[1; 2]; [3; 4]; [5; 6]])
    by (repeat constructor).
  split; [discriminate|]. split; [exact Hf|].
  refine (@stack_batch_vectors Z_scalars [[1; 2]; [3; 4]; [5; 6]] 2%nat _ Hf).
  discriminate.
Defined.

(** The theorem [stack_batch_batches] at two batches of two vectors. *)
Lemma stack_batch_batches_witness :
  let mats := [[[1; 2]; [3; 4]]; [[5; 6]; [7; 8]]] in
  mats <> [] /\
  Forall (fun a => length a = 2%nat /\ Forall (fun r => length r = 2%nat) a) mats /\
  stack_batch (List.map T2 mats)
  = Ok (VTensor (T3 (List.map (fun b => List.map (fun a => nth b a []) mats)
                              (seq 0 2)))).
Proof.
  cbv zeta.
  assert (Hf : Forall (fun a : list (list Z) =>
                         length a = 2%nat /\ Forall (fun r => length r = 2%nat) a)
                      [[[1; 2]; [3; 4]]; [[5; 6]; [7; 8]]])
    by (repeat (constructor || split)).
  split; [discriminate|]. split; [exact Hf|].
  refine (@stack_batch_batches Z_scalars [[[1; 2]; [3; 4]]; [[5; 6]; [7; 8]]]
            2%nat 2%nat _ Hf).
  discriminate.
Defined.

(** The theorem [stack_batch_broadcasts_first] at one vector before two
    batches. *)
Lemma stack_batch_broadcasts_first_witness :
  let rest := [[[1; 2]; [3; 4]]; [[5; 6]; [7; 8]]] in
  length [9; 9] = 2%nat /\ rest <> [] /\
  Forall (fun a => length a = 2%nat /\ Forall (fun r => length r = 2%nat) a) rest /\
  stack_batch (T1 [9; 9] :: List.map T2 rest)
  = Ok (VTensor (T3 (List.map (fun b => [9; 9] :: List.map (fun a => nth b a []) rest)
                              (seq 0 2)))).
Proof.
  cbv zeta.
  assert (Hf : Forall (fun a : list (list Z) =>
                         length a = 2%nat /\ Forall (fun r => length r = 2%nat) a)
                      [[[1; 2]; [3; 4]]; [[5; 6]; [7; 8]]])
    by (repeat (constructor || split)).
  split; [reflexivity|]. split; [discriminate|]. split; [exact Hf|].
  refine (@stack_batch_broadcasts_first Z_scalars Z_scalar_ring [9; 9]
            [[[1; 2]; [3; 4]]; [[5; 6]; [7; 8]]] 2%nat 2%nat _ _ Hf).
  - reflexivity.
  - discriminate.
Defined.

(** The theorem [stack_batch_returns_error_class] at one tensor of
    rank 3. *)
Lemma stack_batch_returns_error_class_witness :
  let x := T3 [[[1]]] in
  py_index [x] 0 = Ok x /\ py_last [x] = Ok x /\
  (Tensor.ndims x = 3%nat \/ Tensor.ndims x = 0%nat) /\
  (Tensor.ndims x <= Tensor.ndims x)%nat /\
  stack_batch [x] = Ok VNotImplementedError.
Proof.
  cbv zeta. split; [reflexivity|]. split; [reflexivity|].
  split; [left; reflexivity|]. split; [cbn; lia|].
  refine (@stack_batch_returns_error_class Z_scalars [T3 [[[1]]]] (T3 [[[1]]])
            (T3 [[[1]]]) _ _ _ _);
    [reflexivity | reflexivity | left; reflexivity | cbn; lia].
Defined.

(** The theorem [xs_reads_first_joint_values] at [two_slides], with one
    joint value too many. *)
Lemma xs_reads_first_joint_values_witness :
  let q := QList [T0 1; T0 2] in
  let q' := QList [T0 1; T0 2; T0 7] in
  (forall j, (j < Chain.nb_joint two_slides)%nat ->
             Chain.xs_joint_value q j = Chain.xs_joint_value q' j) /\
  Chain.xs two_slides q FkLayout.xm FbNone false
  = Chain.xs two_slides q' FkLayout.xm FbNone false.
Proof.
  cbv zeta.
  assert (Hq : forall j, (j < Chain.nb_joint (SC := Z_scalars) two_slides)%nat ->
             Chain.xs_joint_value (QList [T0 1; T0 2]) j
             = Chain.xs_joint_value (QList [T0 1; T0 2; T0 7]) j).
  { intros j Hj. change (Chain.nb_joint two_slides) with 2%nat in Hj.
    destruct j as [|[|j]]; [reflexivity | reflexivity | lia]. }
  split; [exact Hq|].
  exact (@xs_reads_first_joint_values Z_scalars two_slides (QList [T0 1; T0 2])
           (QList [T0 1; T0 2; T0 7]) FkLayout.xm FbNone false Hq).
Defined.

(** The theorem [xs_missing_joint_value_raises] at [two_slides], with
    one joint value only. *)
Lemma xs_missing_joint_value_raises_witness :
  let q := QList [T0 1] in
  (1 < Chain.nb_joint two_slides)%nat /\
  Chain.xs_joint_value q 1 = Raise IndexError /\
  exists e', Chain.xs two_slides q FkLayout.xm FbNone false = Raise e'.
Proof.
  cbv zeta.
  assert (Hj : (1 < Chain.nb_joint (SC := Z_scalars) two_slides)%nat)
    by (change (Chain.nb_joint two_slides) with 2%nat; lia).
  split; [exact Hj|]. split; [reflexivity|].
  refine (@xs_missing_joint_value_raises Z_scalars two_slides (QList [T0 1])
            FkLayout.xm FbNone false 1%nat IndexError Hj _).
  reflexivity.
Defined.


(** The theorem [ee_frame_is_xs_pose] at [two_slides], one segment
    before the tip. *)
Lemma ee_frame_is_xs_pose_witness :
  let x := T1 [1; 2] in
  let local0 := Frame.Frame (T1 [1; 0; 0]) (T2 eye_Z) in
  let p := [Frame.Frame (T1 [0; 0; 0]) (T2 eye_Z);
            Frame.Frame (T1 [1; 0; 0]) (T2 eye_Z);
            Frame.Frame (T1 [1; 0; 1]) (T2 eye_Z);
            Frame.Frame (T1 [1; 2; 1]) (T2 eye_Z)] in
  Chain.segments two_slides
  = slide_x "a" None :: [mount "m" None; slide_y "b" None] /\
  Segment.actuated (slide_x "a" None) = true /\
  (Tensor.ndims x = 1%nat \/ Tensor.ndims x = 2%nat) /\
  Chain.local_pose (QTensor x) 0 (slide_x "a" None) = Ok local0 /\
  (single_frame local0 = true \/ batch_frame 0 local0 = true) /\
  Chain.xs two_slides (QTensor x) FkLayout.f FbNone false = Ok (Poses (VFrames p)) /\
  (0 <= 1 < Z.of_nat (Chain.nb_segm two_slides)) /\
  exists fr,
    nth_error p (Chain.segments_kept two_slides 1) = Some fr /\
    Chain.ee_frame two_slides (QTensor x) 1 FkLayout.xm
    = return_frame (Single fr) FkLayout.xm.
Proof.
  cbv zeta.
  assert (Hn : 0 <= 1 < Z.of_nat (Chain.nb_segm (SC := Z_scalars) two_slides))
    by (change (Chain.nb_segm two_slides) with 3%nat; lia).
  split; [reflexivity|]. split; [reflexivity|]. split; [left; reflexivity|].
  split; [reflexivity|]. split; [left; reflexivity|]. split; [reflexivity|].
  split; [exact Hn|].
  refine (@ee_frame_is_xs_pose Z_scalars Z_scalar_ring two_slides (T1 [1; 2]) 1
            FkLayout.xm (slide_x "a" None) [mount "m" None; slide_y "b" None]
            (Frame.Frame (T1 [1; 0; 0]) (T2 eye_Z)) 0%nat _ _ _ _ _ _ _ Hn);
    try reflexivity; left; reflexivity.
Defined.

(** The theorem [ee_frame_n_bounds] at [two_slides]: the index -1
    raises, and the index 5 gives the pose of the last segment. *)
Lemma ee_frame_n_bounds_witness :
  let q := QTensor (T1 [1; 2]) in
  (exists e, Chain.ee_frame two_slides q (-1) FkLayout.xm = Raise e) /\
  Chain.ee_frame two_slides q 5 FkLayout.xm
  = Chain.ee_frame two_slides q (Z.of_nat (Chain.nb_segm two_slides) - 1) FkLayout.xm.
Proof.
  cbv zeta. split.
  - apply (proj1 (@ee_frame_n_bounds Z_scalars two_slides
                    (QTensor (@Tensor.T1 Z_scalars [1; 2])) (-1) FkLayout.xm)).
    lia.
  - apply (proj2 (@ee_frame_n_bounds Z_scalars two_slides
                    (QTensor (@Tensor.T1 Z_scalars [1; 2])) 5 FkLayout.xm)).
    change (Chain.nb_segm (SC := Z_scalars) two_slides) with 3%nat. lia.
Defined.

(** The theorem [jacobian_one_column_per_joint] at [two_slides] and a
    batch of two configurations, in the layout [x]. *)
Lemma jacobian_one_column_per_joint_witness :
  let q := QTensor (T2 [[1; 2]; [3; 4]]) in
  let J := T3 [[[1; 0]; [0; 1]; [0; 0]]; [[1; 0]; [0; 1]; [0; 0]]] in
  Chain.jacobian two_slides q 0 FkLayout.x FbNone = Ok J /\
  (0 <= 0 < Z.of_nat (Chain.nb_segm two_slides)) /\
  (1 <= Chain.joints_before two_slides (Chain.segments_kept two_slides 0))%nat /\
  ChainDict.last_width
    (Chain.joints_before two_slides (Chain.segments_kept two_slides 0)) J.
Proof.
  cbv zeta. split; [reflexivity|].
  refine (@jacobian_one_column_per_joint Z_scalars two_slides
            (QTensor (T2 [[1; 2]; [3; 4]])) 0 FkLayout.x FbNone _ _).
  reflexivity.
Defined.

(** The theorem [constraints_pairs_by_segment_index] at the chain of a
    mount and a slide: the entry of [q] at index 0, paired with the mount,
    is free. *)
Lemma constraints_pairs_by_segment_index_witness :
  let cols := [T0 5; T0 7] in
  let cols' := [T0 99; T0 7] in
  Limits.unstack_last (T1 [5; 7]) = Ok cols /\
  Limits.unstack_last (T1 [99; 7]) = Ok cols' /\
  (forall i seg, nth_error (Chain.segments mounted_slide) i = Some seg ->
     (nth_error cols i = None <-> nth_error cols' i = None) /\
     (Segment.actuated seg = true -> nth_error cols i = nth_error cols' i)) /\
  Limits.constraints limits_0_10 mounted_slide (T1 [5; 7]) None None 1
  = Limits.constraints limits_0_10 mounted_slide (T1 [99; 7]) None None 1.
Proof.
  cbv zeta.
  assert (Hagree : forall i seg,
            nth_error (Chain.segments (SC := Z_scalars) mounted_slide) i = Some seg ->
            (nth_error [T0 5; T0 7] i = None <-> nth_error [T0 99; T0 7] i = None) /\
            (Segment.actuated seg = true ->
             nth_error [T0 5; T0 7] i = nth_error [T0 99; T0 7] i)).
  { intros i seg Hi. destruct i as [|[|i]].
    - injection Hi as <-. split; [split; discriminate | discriminate].
    - split; [split; discriminate | reflexivity].
    - destruct i; discriminate Hi. }
  split; [reflexivity|]. split; [reflexivity|]. split; [exact Hagree|].
  refine (@constraints_pairs_by_segment_index Z_scalars Z_scalar_functions limits_0_10
            mounted_slide (T1 [5; 7]) (T1 [99; 7]) [T0 5; T0 7] [T0 99; T0 7]
            None None 1 _ _ Hagree); reflexivity.
Defined.

(** The theorem [constraints_never_reads_tau] at the chain of a mount
    and a slide: two torques give one result, and a torque without a
    velocity raises. *)
Lemma constraints_never_reads_tau_witness :
  let q := T1 [5; 7] in
  Limits.constraints limits_0_10 mounted_slide q (Some (T1 [1; 1])) (Some (T1 [2; 3])) 1
  = Limits.constraints limits_0_10 mounted_slide q (Some (T1 [1; 1])) (Some (T1 [8; 9])) 1 /\
  exists e,
    Limits.constraints limits_0_10 mounted_slide q None (Some (T1 [2; 3])) 1 = Raise e.
Proof.
  cbv zeta. split.
  - exact (proj1 (@constraints_never_reads_tau Z_scalars Z_scalar_functions limits_0_10
                    mounted_slide (T1 [5; 7]) (Some (T1 [1; 1])) (T1 [2; 3]) (T1 [8; 9]) 1)).
  - exact (proj2 (@constraints_never_reads_tau Z_scalars Z_scalar_functions limits_0_10
                    mounted_slide (T1 [5; 7]) None (T1 [2; 3]) (T1 [8; 9]) 1) eq_refl).
Defined.

(** The theorem [unique_names_invariant] at the two arms. *)
Lemma unique_names_invariant_witness :
  Forall (fun item => ChainDict.distinct (ChainDict.chain_joint_names (snd item)) = true)
         (two_arms (SC := Z_scalars)) /\
  ChainDict.actuated_joint_names (two_arms (SC := Z_scalars))
  = flat_map (fun item => ChainDict.chain_joint_names (snd item)) two_arms /\
  (forall x, In x (ChainDict.unique_names (two_arms (SC := Z_scalars))) <->
             In x (ChainDict.actuated_joint_names (two_arms (SC := Z_scalars)))) /\
  ChainDict.distinct (ChainDict.unique_names (two_arms (SC := Z_scalars))) = true /\
  (ChainDict.nb_joint (two_arms (SC := Z_scalars))
   <= length (ChainDict.actuated_joint_names (two_arms (SC := Z_scalars))))%nat.
Proof.
  assert (Hd : Forall (fun item : string * Chain.t =>
                         ChainDict.distinct (ChainDict.chain_joint_names (snd item)) = true)
                      (two_arms (SC := Z_scalars)))
    by (repeat constructor).
  split; [exact Hd|].
  exact (@unique_names_invariant Z_scalars two_arms Hd).
Defined.

(** The theorem [idx_chain_total] at the two arms and a batch of two
    configurations with one column per joint name. *)
Lemma idx_chain_total_witness :
  let rows := [[1; 2; 3]; [4; 5; 6]] in
  Forall (fun r => (ChainDict.nb_joint two_arms <= length r)%nat) rows /\
  exists idx qs,
    ChainDict.idx_chain two_arms = Ok idx /\
    ChainDict.q_chains (T2 rows) idx = Ok qs /\
    List.map fst qs = List.map fst (two_arms (SC := Z_scalars)).
Proof.
  cbv zeta.
  assert (Hrows : Forall (fun r : list Z =>
                            (ChainDict.nb_joint (SC := Z_scalars) two_arms <= length r)%nat)
                         [[1; 2; 3]; [4; 5; 6]]).
  { change (ChainDict.nb_joint (SC := Z_scalars) two_arms) with 3%nat.
    repeat constructor. }
  split; [exact Hrows|].
  destruct (@idx_chain_total Z_scalars two_arms [[1; 2; 3]; [4; 5; 6]])
    as (idx & Hidx & _ & _ & Hq).
  destruct (Hq Hrows) as (qs & Hqs & Hkeys).
  exists idx, qs. repeat split; assumption.
Defined.

(** The theorem [chaindict_unbatched_q_raises] at the two arms. *)
Lemma chaindict_unbatched_q_raises_witness :
  (1 <= ChainDict.nb_joint (two_arms (SC := Z_scalars)))%nat /\
  ChainDict.xs two_arms (T1 [1; 2; 3]) FkLayout.xm FbNone None false = Raise ValueError /\
  ChainDict.jacobian two_arms (T1 [1; 2; 3]) 0 FkLayout.xm FbNone None = Raise ValueError.
Proof.
  assert (Hnb : (1 <= ChainDict.nb_joint (two_arms (SC := Z_scalars)))%nat)
    by (change (ChainDict.nb_joint two_arms) with 3%nat; lia).
  split; [exact Hnb|].
  exact (@chaindict_unbatched_q_raises Z_scalars two_arms [1; 2; 3] 0 FkLayout.xm FbNone
           None false Hnb).
Defined.

(** The theorem [chaindict_unknown_name_raises] at the two arms. *)
Lemma chaindict_unknown_name_raises_witness :
  let q := T2 [[1; 2; 3]; [4; 5; 6]] in
  ~ In "torso"%string (List.map fst (two_arms (SC := Z_scalars))) /\
  (exists e, ChainDict.xs two_arms q FkLayout.xm FbNone (Some "torso"%string) false
             = Raise e) /\
  (exists e, ChainDict.jacobian two_arms q 0 FkLayout.xm FbNone (Some "torso"%string)
             = Raise e) /\
  (forall idx qs,
     ChainDict.idx_chain two_arms = Ok idx -> ChainDict.q_chains q idx = Ok qs ->
     ChainDict.xs two_arms q FkLayout.xm FbNone (Some "torso"%string) false
     = Raise KeyError /\
     ChainDict.jacobian two_arms q 0 FkLayout.xm FbNone (Some "torso"%string)
     = Raise KeyError).
Proof.
  cbv zeta.
  assert (Hk : ~ In "torso"%string (List.map fst (two_arms (SC := Z_scalars)))).
  { intros [H|[H|[]]]; discriminate H. }
  split; [exact Hk|].
  exact (@chaindict_unknown_name_raises Z_scalars two_arms (T2 [[1; 2; 3]; [4; 5; 6]]) 0
           FkLayout.xm FbNone "torso"%string false Hk).
Defined.

(** The theorem [chaindict_xs_per_chain] at the two arms, in the layout
    [x]. *)
Lemma chaindict_xs_per_chain_witness :
  let q := T2 [[1; 2; 3]; [4; 5; 6]] in
  let d := [("left"%string,
             Poses (VTensor (T3 [[[0; 0; 0]; [1; 0; 0]; [1; 0; 1]; [1; 2; 1]];
                                 [[0; 0; 0]; [4; 0; 0]; [4; 0; 1]; [4; 5; 1]]])));
            ("right"%string,
             Poses (VTensor (T3 [[[0; 0; 0]; [1; 0; 0]; [1; 0; 3]];
                                 [[0; 0; 0]; [4; 0; 0]; [4; 0; 6]]])))] in
  ChainDict.distinct (List.map fst (two_arms (SC := Z_scalars))) = true /\
  ChainDict.xs two_arms q FkLayout.x FbNone None false = Ok (ChainDict.AllPoses d) /\
  List.map fst d = List.map fst (two_arms (SC := Z_scalars)) /\
  forall key chain, In (key, chain) two_arms ->
    exists qc v,
      dict_get d key = Ok v /\
      Forall2 (fun name col =>
                 exists i, nth_error (ChainDict.unique_names two_arms) i = Some name /\
                           Tensor.get1 q i = Ok col)
              (ChainDict.chain_joint_names chain) qc /\
      Chain.xs chain (QList qc) FkLayout.x FbNone false = Ok v.
Proof.
  cbv zeta. split; [reflexivity|]. split; [reflexivity|].
  refine (@chaindict_xs_per_chain Z_scalars two_arms (T2 [[1; 2; 3]; [4; 5; 6]])
            FkLayout.x FbNone _ _ _); reflexivity.
Defined.

(** The theorem [mean_pose_needs_joint_names] at the two arms. *)
Lemma mean_pose_needs_joint_names_witness :
  Forall (fun item =>
            Forall (fun seg => Segment.actuated seg = true ->
                               exists low up,
                                 Limits.limit limits_0_10 seg "low" = Ok low /\
                                 Limits.limit limits_0_10 seg "up" = Ok up)
                   (Chain.segments (snd item))) (two_arms (SC := Z_scalars)) /\
  Limits.dict_mean_pose limits_0_10 two_arms Limits.fresh = Raise TypeError /\
  exists l c1,
    Limits.dict_joint_limits limits_0_10 two_arms Limits.fresh = Ok (l, c1) /\
    length l = ChainDict.nb_joint (two_arms (SC := Z_scalars)) /\
    exists m c2,
      Limits.dict_mean_pose limits_0_10 two_arms c1 = Ok (m, c2) /\
      length m = ChainDict.nb_joint (two_arms (SC := Z_scalars)).
Proof.
  assert (Hl : Forall (fun item : string * Chain.t =>
            Forall (fun seg => Segment.actuated seg = true ->
                               exists low up,
                                 Limits.limit limits_0_10 seg "low" = Ok low /\
                                 Limits.limit limits_0_10 seg "up" = Ok up)
                   (Chain.segments (snd item))) (two_arms (SC := Z_scalars))).
  { repeat constructor; intros _; exists 0, 10; split; reflexivity. }
  split; [exact Hl|].
  exact (@mean_pose_needs_joint_names Z_scalars limits_0_10 two_arms Hl).
Defined.

(** Two experts, the second with an unnormalized log probability, and
    one transform for each. *)
Local Abbreviation two_experts :=
  (PoE.PoE [2%nat]
     [{| Expert.log_prob := fun y => Ok y; Expert._log_unnormalized_prob := None |};
      {| Expert.log_prob := fun y => Ok y;
         Expert._log_unnormalized_prob := Some (fun y => Tensor.add y y) |}]
     (PoE.TransfList [fun x => Ok x; fun x => Tensor.add x x])
     None).

(** The same experts, with one function of the point and of the index
    for the transforms. *)
Local Abbreviation two_experts_fun :=
  (PoE.PoE [2%nat]
     [{| Expert.log_prob := fun y => Ok y; Expert._log_unnormalized_prob := None |};
      {| Expert.log_prob := fun y => Ok y;
         Expert._log_unnormalized_prob := Some (fun y => Tensor.add y y) |}]
     (PoE.TransfFun (fun x i => if Nat.eqb i 0 then Ok x else Tensor.add x x))
     None).

(** The theorem [experts_probs_one_per_expert] at two experts, with a
    list of transforms and with a function. *)
Lemma experts_probs_one_per_expert_witness :
  let x := T2 [[1; 2]] in
  let probs := [T2 [[1; 2]]; T2 [[4; 8]]] in
  (PoE._experts_probs two_experts x = Ok (probs, [1%nat]) /\
   length probs = PoE.nb_experts two_experts /\
   [1%nat] = PoE.unnormalized_from 0 (PoE.experts two_experts) /\
   (PoE.nb_experts two_experts <= 2)%nat) /\
  (PoE._experts_probs two_experts_fun x = Ok (probs, []) /\
   length probs = PoE.nb_experts two_experts_fun /\
   @nil nat = []).
Proof.
  cbv zeta. split.
  - split; [reflexivity|].
    refine (@experts_probs_one_per_expert Z_scalars two_experts (T2 [[1; 2]]) _ _ _).
    reflexivity.
  - split; [reflexivity|].
    refine (@experts_probs_one_per_expert Z_scalars two_experts_fun (T2 [[1; 2]]) _ _ _).
    reflexivity.
Defined.

(** The theorem [log_prob_without_cost] at two experts and one point. *)
Lemma log_prob_without_cost_witness :
  PoE.cost two_experts = None /\
  PoE._log_unnormalized_prob two_experts (T1 [1; 2]) false
  = PoE._log_unnormalized_prob two_experts (T1 [1; 2]) true.
Proof.
  split; [reflexivity|].
  refine (@log_prob_without_cost Z_scalars Z_scalar_ring two_experts (T1 [1; 2]) _).
  reflexivity.
Defined.

End FurtherEvaluations.

(** * Evaluations on integer inputs *)

Section Evaluations.

Local Open Scope Z_scope.

(** Integer tensors, twists and frames. *)
Local Abbreviation Z2 := (@Tensor.T2 Z_scalars).
Local Abbreviation Z3 := (@Tensor.T3 Z_scalars).
Local Abbreviation Ztwist := (@Twist.Twist Z_scalars).
Local Abbreviation Zframe := (@Frame.Frame Z_scalars).

(** A batch of two configurations of [two_slides]. *)
Local Abbreviation q2 := (QTensor (T2 [[1; 2]; [3; 4]])).

(** A batch of two configurations of [two_arms]. *)
Local Abbreviation q3 := (Z2 [[1; 2; 3]; [4; 5; 6]]).

(** A batch of two configurations of [three_hinges], in quarter turns,
    and the state of the loop of [Chain.jacobian] after two segments and
    after three. *)
Local Abbreviation q_turns := (@QTensor Z_scalars (Z2 [[1; 1; 0]; [2; 3; 1]])).

Local Abbreviation pose_2 :=
  (Zframe (Z2 [[0; 1; 2]; [-1; 0; -2]])
          (Z3 [[[0; 0; 1]; [1; 0; 0]; [0; 1; 0]];
               [[-1; 0; 0]; [0; 0; -1]; [0; -1; 0]]])).

Local Abbreviation pose_3 :=
  (Zframe (Z2 [[1; 1; 3]; [0; -1; -2]])
          (Z3 [[[0; 0; 1]; [1; 0; 0]; [0; 1; 0]];
               [[0; 1; 0]; [0; 0; -1]; [-1; 0; 0]]])).

Local Abbreviation state_2 :=
  {| Chain.j := 2;
     Chain.jac := [Ztwist (Z2 [[-1; 0; 0; 0; 0; 1]; [0; -1; 0; 0; 0; 1]]);
                   Ztwist (Z2 [[2; 0; 0; 0; 1; 0]; [0; -2; 0; -1; 0; 0]])];
     Chain.T_tmp := pose_2;
     Chain.total := Some pose_2 |}.

Local Abbreviation state_3 :=
  {| Chain.j := 3;
     Chain.jac := [Ztwist (Z2 [[-1; 1; 0; 0; 0; 1]; [1; 0; 0; 0; 0; 1]]);
                   Ztwist (Z2 [[3; 0; -1; 0; 1; 0]; [0; -2; 1; -1; 0; 0]]);
                   Ztwist (Z2 [[0; -1; 0; 1; 0; 0]; [0; 0; 1; 0; -1; 0]])];
     Chain.T_tmp := pose_3;
     Chain.total := Some pose_3 |}.


(** The theorem [inv_compose_batched_raises] at the batch that holds the
    identity frame once. *)
Lemma inv_compose_batched_raises_witness :
  length (Tensor.eye3 (SC := Z_scalars)) = 3%nat /\
  rows_ok 3 (Tensor.eye3 (SC := Z_scalars)) = true /\
  (i <- Frame.inv (Frame.Frame (T2 [[0; 0; 0]]) (T3 [Tensor.eye3])) ;;
   Frame.mul (Frame.Frame (T2 [[0; 0; 0]]) (T3 [Tensor.eye3])) i)
  = Raise ValueError.
Proof.
  split; [reflexivity|]. split; [reflexivity|].
  refine (@inv_compose_batched_raises Z_scalars
            [0; 0; 0] [] Tensor.eye3 [] _ _); reflexivity.
Defined.



(** C5, the claim as stated fails: for the quaternion layout
    [Chain.jacobian] returns a matrix, the six rows of the two twist
    columns, and raises nothing. *)
Lemma jacobian_xq_returns_twists :
  Chain.jacobian two_slides q2 0 FkLayout.xq FbNone
  = Ok (T3 [[[1; 0]; [0; 1]; [0; 0]; [0; 0]; [0; 0]; [0; 0]];
            [[1; 0]; [0; 1]; [0; 0]; [0; 0]; [0; 0]; [0; 0]]]).
Proof.
  reflexivity.
Qed.

(** The theorem [ee_frame_fixed_first_raises] at [mounted_slide] with its
    one joint value. *)
Lemma ee_frame_fixed_first_raises_witness :
  Chain.segments mounted_slide = mount "m" None :: [slide_x "a" None] /\
  Segment.actuated (mount (SC := Z_scalars) "m" None) = false /\
  (Chain.nb_joint mounted_slide >= 1)%nat /\
  length [7] = Chain.nb_joint mounted_slide /\
  exists e, Chain.ee_frame mounted_slide (QTensor (T1 [7])) 0 FkLayout.x = Raise e.
Proof.
  split; [reflexivity|]. split; [reflexivity|].
  split; [vm_compute; lia|]. split; [reflexivity|].
  refine (@ee_frame_fixed_first_raises Z_scalars
            mounted_slide (mount "m" None) [slide_x "a" None] [7] FkLayout.x _ _ _ _);
    try reflexivity.
  vm_compute; lia.
Defined.

(** On that chain [Chain.xs] reads [q[0]] for the sliding joint, while
    [Chain.ee_frame] gives [q[0]] to the fixed base and drives the joint
    with [q[1]]. *)
Lemma ee_frame_and_xs_disagree :
  Chain.xs mounted_slide (QTensor (T1 [7])) FkLayout.x FbNone false
  = Ok (Poses (VTensor (T2 [[0; 0; 0]; [0; 0; 1]; [7; 0; 1]]))) /\
  Chain.ee_frame mounted_slide (QTensor (T1 [7])) 0 FkLayout.x = Raise ValueError /\
  Chain.ee_frame mounted_slide (QTensor (T1 [7; 9])) 0 FkLayout.x
  = Ok (VTensor (T1 [9; 0; 1])).
Proof.
  repeat split; reflexivity.
Qed.

(** C7, the claim as stated fails: for a chain without mass [Chain.xs]
    with [get_links] returns a value, whose center of mass holds the
    quotients 0 / 0. *)
Lemma xs_links_returns_without_mass :
  Chain.mass massless = 0 /\
  Chain.xs massless (QTensor (T1 [])) FkLayout.xm FbNone true
  = Ok (PosesLinksCom
          (VTensor (T2 [[0; 0; 0; 1; 0; 0; 0; 1; 0; 0; 0; 1];
                        [0; 0; 1; 1; 0; 0; 0; 1; 0; 0; 0; 1]]))
          (VTensor (T2 [[0; 0; 0; 1; 0; 0; 0; 1; 0; 0; 0; 1];
                        [0; 0; 1; 1; 0; 0; 0; 1; 0; 0; 0; 1]]))
          (T2 [[kdiv 0 0; kdiv 0 0; kdiv 0 0]])).
Proof.
  split; reflexivity.
Qed.

(** The theorem [xs_links_divides_by_zero_mass] at the chain without
    mass. *)
Lemma xs_links_divides_by_zero_mass_witness :
  let base := Frame.Frame (T1 [0; 0; 0]) (T2 [[1; 0; 0]; [0; 1; 0]; [0; 0; 1]]) in
  let tip := Frame.Frame (T1 [0; 0; 1]) (T2 [[1; 0; 0]; [0; 1; 0]; [0; 0; 1]]) in
  let stacked := VTensor (T2 [[0; 0; 0; 1; 0; 0; 0; 1; 0; 0; 0; 1];
                              [0; 0; 1; 1; 0; 0; 0; 1; 0; 0; 0; 1]]) in
  let total := T2 [[0; 0; 0]] in
  Chain.mass massless = k0 /\
  Chain.xs_loop massless (QTensor (T1 [])) FbNone true
  = Ok (0%nat, [base; tip], [base; tip]) /\
  return_frame (Listed [base; tip]) FkLayout.xm = Ok stacked /\
  Chain.weighted_positions massless stacked = Ok total /\
  Chain.xs massless (QTensor (T1 [])) FkLayout.xm FbNone true
  = Ok (PosesLinksCom stacked stacked (Tensor.map (fun a => kdiv a k0) total)) /\
  (Forall (fun m => m = k0) (Chain.link_masses massless) ->
   Forall (fun e => e = kdiv k0 k0)
          (Tensor.flatten (Tensor.map (fun a => kdiv a k0) total))).
Proof.
  cbv zeta.
  split; [reflexivity|]. split; [reflexivity|]. split; [reflexivity|].
  split; [reflexivity|].
  refine (@xs_links_divides_by_zero_mass Z_scalars Z_scalar_ring
            massless (QTensor (T1 [])) FkLayout.xm FbNone _ _ _ _ _ _ _ _ _ _ _);
    reflexivity.
Defined.

(** The theorem [fixed_only_jacobian_raises] at the chain of two
    mounts. *)
Lemma fixed_only_jacobian_raises_witness :
  forallb (fun seg => negb (Segment.actuated seg)) (Chain.segments mounts) = true /\
  Chain.nb_joint mounts = 0%nat /\
  (exists e, Chain.jacobian mounts (QTensor (T2 [[]; []])) 0 FkLayout.xm FbNone
             = Raise e) /\
  (forall st, Chain.jacobian_loop mounts (QTensor (T2 [[]; []])) 0 FbNone = Ok st ->
     FkLayout.xm <> FkLayout.f ->
     Chain.jacobian mounts (QTensor (T2 [[]; []])) 0 FkLayout.xm FbNone
     = Raise IndexError).
Proof.
  split; [reflexivity|].
  refine (@fixed_only_jacobian_raises Z_scalars
            mounts (QTensor (T2 [[]; []])) 0 FkLayout.xm FbNone _).
  reflexivity.
Defined.

(** The loop of [Chain.jacobian] over the two mounts is through when
    [stack_batch] raises. *)
Lemma fixed_only_jacobian_index_error :
  is_ok (Chain.jacobian_loop mounts (QTensor (T2 [[]; []])) 0 FbNone) = true /\
  Chain.jacobian mounts (QTensor (T2 [[]; []])) 0 FkLayout.xm FbNone = Raise IndexError.
Proof.
  split; reflexivity.
Qed.




End Evaluations.
